(** * A contact book with an upcoming-birthday query: [main.py]

    A shallow embedding of the contact manager of [main.py]: the field
    classes [Phone] and [Birthday], the class [Record], the class
    [AddressBook] with [get_upcoming_birthdays], and the command handlers
    [add_birthday], [change_contact], [show_phone] and [show_birthday]
    under the decorator [input_error].

    Conventions of the embedding.
    - A Python [str] is the list of its code points.
    - An exception is a value of [exn]; a call that can raise returns a
      [result].
    - [Record] objects are mutable and shared between the dictionary of the
      book and the local variables of the handlers, so they live in a store
      indexed by addresses; the dictionary maps keys to addresses and keeps
      the insertion order of its keys.
    - [datetime.date] follows the reference implementation of the standard
      library ([_ymd2ord], [_ord2ymd], [_check_date_fields]); [strftime]
      writes [%m] and [%d] on two digits and [%Y] as the decimal number of
      the year without leading zeros, as the C library under CPython on
      Linux does (1, ..., 999, 1000, ..., 9999).
    - [datetime.today()] is the argument [today] of
      [get_upcoming_birthdays]. *)

From Stdlib Require Import ZArith List Bool Lia String Ascii.
From Stdlib Require Import Permutation Sorted DecimalString.
Import ListNotations.
Open Scope Z_scope.

(** ** Python strings, exceptions and results *)

Module Py.

Definition char := Z.
Definition str := list char.

(** The code points of an ASCII literal. *)
Definition py (s : string) : str :=
  map (fun a => Z.of_N (N_of_ascii a)) (list_ascii_of_string s).

Fixpoint str_eqb (a b : str) : bool :=
  match a, b with
  | [], [] => true
  | x :: a', y :: b' => (x =? y) && str_eqb a' b'
  | _, _ => false
  end.

(** [a < b] on [str]: lexicographic on code points. *)
Fixpoint str_ltb (a b : str) : bool :=
  match a, b with
  | _, [] => false
  | [], _ :: _ => true
  | x :: a', y :: b' =>
      if x <? y then true else if y <? x then false else str_ltb a' b'
  end.

Definition str_leb (a b : str) : bool := negb (str_ltb b a).

Inductive exn :=
| ValueError (msg : str)
| KeyError
| IndexError
| OverflowError (msg : str).

Inductive result (A : Type) :=
| Ok (a : A)
| Raise (e : exn).
Arguments Ok {A} a.
Arguments Raise {A} e.

Definition bind {A B} (r : result A) (k : A -> result B) : result B :=
  match r with
  | Ok a => k a
  | Raise e => Raise e
  end.

(** [str(n)] for an [int]. *)
Definition str_of_int (n : Z) : str := py (NilEmpty.string_of_int (Z.to_int n)).

(** *** The Unicode database (version 14.0, as shipped with CPython 3.11)

    Every character of general category Nd belongs to a run of ten
    consecutive code points for the digits 0 to 9; [decimal_zeros] lists
    the first code point of every run. *)
Definition decimal_zeros : list Z :=
  [ 48; 1632; 1776; 1984; 2406; 2534; 2662; 2790;
    2918; 3046; 3174; 3302; 3430; 3558; 3664; 3792;
    3872; 4160; 4240; 6112; 6160; 6470; 6608; 6784;
    6800; 6992; 7088; 7232; 7248; 42528; 43216; 43264;
    43472; 43504; 43600; 44016; 65296; 66720; 68912; 69734;
    69872; 69942; 70096; 70384; 70736; 70864; 71248; 71360;
    71472; 71904; 72016; 72784; 73040; 73120; 92768; 92864;
    93008; 120782; 120792; 120802; 120812; 120822; 123200; 123632;
    125264; 130032 ].

(** The characters with Numeric_Type=Digit that are not decimal:
    superscripts, subscripts, circled digits and the like. *)
Definition other_digit_ranges : list (Z * Z) :=
  [ (178, 179); (185, 185); (4969, 4977); (6618, 6618); (8304, 8304);
    (8308, 8313); (8320, 8329); (9312, 9320); (9332, 9340); (9352, 9360);
    (9450, 9450); (9461, 9469); (9471, 9471); (10102, 10110); (10112, 10120);
    (10122, 10130); (68160, 68163); (69216, 69224); (69714, 69722);
    (127232, 127242) ].

Definition in_range (c : char) (r : Z * Z) : bool :=
  (fst r <=? c) && (c <=? snd r).

(** The decimal value of a character, when it has one
    ([unicodedata.decimal]). *)
Definition decimal_value (c : char) : option Z :=
  match find (fun z => in_range c (z, z + 9)) decimal_zeros with
  | Some z => Some (c - z)
  | None => None
  end.

(** [c.isdecimal()]; also the class [\d] of [re] on [str] patterns. *)
Definition isdecimal_char (c : char) : bool :=
  match decimal_value c with Some _ => true | None => false end.

(** [c.isdigit()] for one character. *)
Definition isdigit_char (c : char) : bool :=
  isdecimal_char c || existsb (in_range c) other_digit_ranges.

(** [s.isdigit()]: all characters are digits and there is at least one. *)
Definition isdigit (s : str) : bool :=
  match s with
  | [] => false
  | _ => forallb isdigit_char s
  end.

(** [len(s)] *)
Definition len {A} (l : list A) : Z := Z.of_nat (List.length l).

(** [int(s)] on the texts the date pattern captures: blanks are stripped,
    then every character must be a decimal digit. [None] is a
    [ValueError]. *)
Fixpoint lstrip (s : str) : str :=
  match s with
  | c :: s' => if c =? 32 then lstrip s' else s
  | [] => []
  end.

Fixpoint int_digits (acc : Z) (s : str) : option Z :=
  match s with
  | [] => Some acc
  | c :: s' =>
      match decimal_value c with
      | Some v => int_digits (10 * acc + v) s'
      | None => None
      end
  end.

Definition int (s : str) : option Z :=
  match lstrip s with
  | [] => None
  | t => int_digits 0 t
  end.

End Py.

Import Py.

Declare Scope py_scope.
Delimit Scope py_scope with py.
Notation "x <- c ;; k" := (bind c (fun x => k))
  (at level 61, c at next level, right associativity) : py_scope.
Open Scope py_scope.

(** ** [datetime.date] *)

Module Datetime.

Record date := mkdate { year : Z; month : Z; day : Z }.

Definition MINYEAR : Z := 1.
Definition MAXYEAR : Z := 9999.
Definition MAXORDINAL : Z := 3652059.

Definition DAYS_IN_MONTH : list Z :=
  [-1; 31; 28; 31; 30; 31; 30; 31; 31; 30; 31; 30; 31].
Definition DAYS_BEFORE_MONTH : list Z :=
  [-1; 0; 31; 59; 90; 120; 151; 181; 212; 243; 273; 304; 334].

Definition index (l : list Z) (i : Z) : Z := nth (Z.to_nat i) l 0.

Definition is_leap (y : Z) : bool :=
  (y mod 4 =? 0) && (negb (y mod 100 =? 0) || (y mod 400 =? 0)).

Definition days_before_year (y : Z) : Z :=
  let y := y - 1 in
  y * 365 + y / 4 - y / 100 + y / 400.

Definition days_in_month (y m : Z) : Z :=
  if (m =? 2) && is_leap y then 29 else index DAYS_IN_MONTH m.

Definition days_before_month (y m : Z) : Z :=
  index DAYS_BEFORE_MONTH m + (if (2 <? m) && is_leap y then 1 else 0).

Definition ymd2ord (y m d : Z) : Z :=
  days_before_year y + days_before_month y m + d.

Definition DI400Y : Z := 146097.
Definition DI100Y : Z := 36524.
Definition DI4Y : Z := 1461.

(** The end of [_ord2ymd]: month and day of the [n]-th day (from 0) of a
    year, by an estimate of the month that is corrected when too large. *)
Definition month_day (leapyear : bool) (n : Z) : Z * Z :=
  let month := Z.shiftr (n + 50) 5 in
  let preceding :=
    index DAYS_BEFORE_MONTH month
    + (if (2 <? month) && leapyear then 1 else 0) in
  if n <? preceding then
    let month := month - 1 in
    let preceding :=
      preceding
      - (index DAYS_IN_MONTH month
         + (if (month =? 2) && leapyear then 1 else 0)) in
    (month, n - preceding + 1)
  else (month, n - preceding + 1).

Definition ord2ymd (n : Z) : date :=
  let n := n - 1 in
  let n400 := n / DI400Y in
  let n := n mod DI400Y in
  let year := n400 * 400 + 1 in
  let n100 := n / DI100Y in
  let n := n mod DI100Y in
  let n4 := n / DI4Y in
  let n := n mod DI4Y in
  let n1 := n / 365 in
  let n := n mod 365 in
  let year := year + n100 * 100 + n4 * 4 + n1 in
  if (n1 =? 4) || (n100 =? 4) then mkdate (year - 1) 12 31
  else
    let leapyear := (n1 =? 3) && (negb (n4 =? 24) || (n100 =? 3)) in
    let (month, day) := month_day leapyear n in
    mkdate year month day.

(** The fields of a [date] object are always in range. *)
Definition valid_date (d : date) : bool :=
  (MINYEAR <=? year d) && (year d <=? MAXYEAR)
  && (1 <=? month d) && (month d <=? 12)
  && (1 <=? day d) && (day d <=? days_in_month (year d) (month d)).

(** [date(y, m, d)] *)
Definition date_new (y m d : Z) : result date :=
  if negb ((MINYEAR <=? y) && (y <=? MAXYEAR)) then
    Raise (ValueError (py "year " ++ str_of_int y ++ py " is out of range"))
  else if negb ((1 <=? m) && (m <=? 12)) then
    Raise (ValueError (py "month must be in 1..12"))
  else if negb ((1 <=? d) && (d <=? days_in_month y m)) then
    Raise (ValueError (py "day is out of range for month"))
  else Ok (mkdate y m d).

(** [d.replace(year=y)] *)
Definition replace_year (d : date) (y : Z) : result date :=
  date_new y (month d) (day d).

Definition toordinal (d : date) : Z := ymd2ord (year d) (month d) (day d).

Definition fromordinal (n : Z) : date := ord2ymd n.

(** [d + timedelta(days=k)] *)
Definition add_days (d : date) (k : Z) : result date :=
  let o := toordinal d + k in
  if (0 <? o) && (o <=? MAXORDINAL) then Ok (fromordinal o)
  else Raise (OverflowError (py "date value out of range")).

(** [d.weekday()]: Monday is 0, Saturday 5, Sunday 6. *)
Definition weekday (d : date) : Z := (toordinal d + 6) mod 7.

(** [a < b] and [a <= b]: the tuples (year, month, day) are compared. *)
Definition date_ltb (a b : date) : bool :=
  if year a <? year b then true else if year b <? year a then false
  else if month a <? month b then true else if month b <? month a then false
  else day a <? day b.

Definition date_leb (a b : date) : bool := negb (date_ltb b a).

Definition digit (n : Z) : char := 48 + n mod 10.
Definition pad2 (n : Z) : str := [digit (n / 10); digit n].
Definition pad4 (n : Z) : str :=
  [digit (n / 1000); digit (n / 100); digit (n / 10); digit n].

(** [%Y]: the year as a decimal number; a year below 1000 is written
    without leading zeros. The years of a date are 1 to 9999. *)
Definition strftime_Y (y : Z) : str :=
  if y <? 10 then [digit y]
  else if y <? 100 then [digit (y / 10); digit y]
  else if y <? 1000 then [digit (y / 100); digit (y / 10); digit y]
  else pad4 y.

(** [d.strftime("%Y.%m.%d")] *)
Definition strftime_Ymd (d : date) : str :=
  strftime_Y (year d) ++ py "." ++ pad2 (month d) ++ py "." ++ pad2 (day d).

(** [d.strftime("%d.%m.%Y")] *)
Definition strftime_dmY (d : date) : str :=
  pad2 (day d) ++ py "." ++ pad2 (month d) ++ py "." ++ strftime_Y (year d).

(** *** [datetime.strptime(s, "%d.%m.%Y").date()]

    The format compiles to the regular expression
    [(?P<d>3[0-1]|[1-2]\d|0[1-9]|[1-9]| [1-9])\.(?P<m>1[0-2]|0[1-9]|[1-9])\.(?P<Y>\d\d\d\d)],
    matched at the start of the text by a backtracking matcher: the
    alternatives of a group are tried in order, each with the rest of the
    pattern as its continuation. Text left after the match is an error. *)

Definition between (lo hi : string) (c : char) : bool :=
  match py lo, py hi with
  | [l], [h] => (l <=? c) && (c <=? h)
  | _, _ => false
  end.

Definition is_char (x : string) (c : char) : bool := between x x c.

(** One alternative made of two character classes. *)
Definition two {A} (p q : char -> bool) (s : str)
    (k : str -> str -> option A) : option A :=
  match s with
  | a :: b :: rest => if p a && q b then k [a; b] rest else None
  | _ => None
  end.

(** One alternative made of one character class. *)
Definition one {A} (p : char -> bool) (s : str)
    (k : str -> str -> option A) : option A :=
  match s with
  | a :: rest => if p a then k [a] rest else None
  | _ => None
  end.

Fixpoint alternatives {A} (alts : list (option A)) : option A :=
  match alts with
  | [] => None
  | Some x :: _ => Some x
  | None :: rest => alternatives rest
  end.

Definition group_d {A} (s : str) (k : str -> str -> option A) : option A :=
  alternatives
    [ two (is_char "3") (between "0" "1") s k;
      two (between "1" "2") isdecimal_char s k;
      two (is_char "0") (between "1" "9") s k;
      one (between "1" "9") s k;
      two (is_char " ") (between "1" "9") s k ].

Definition group_m {A} (s : str) (k : str -> str -> option A) : option A :=
  alternatives
    [ two (is_char "1") (between "0" "2") s k;
      two (is_char "0") (between "1" "9") s k;
      one (between "1" "9") s k ].

Definition group_Y {A} (s : str) (k : str -> str -> option A) : option A :=
  match s with
  | a :: b :: c :: d :: rest =>
      if isdecimal_char a && isdecimal_char b
         && isdecimal_char c && isdecimal_char d
      then k [a; b; c; d] rest else None
  | _ => None
  end.

Definition dot {A} (s : str) (k : str -> option A) : option A :=
  match s with
  | a :: rest => if is_char "." a then k rest else None
  | [] => None
  end.

(** The captured groups [d], [m], [Y] and the text after the match. *)
Definition regex_match (s : str) : option (str * str * str * str) :=
  group_d s (fun d s1 =>
  dot s1 (fun s2 =>
  group_m s2 (fun m s3 =>
  dot s3 (fun s4 =>
  group_Y s4 (fun Y s5 => Some (d, m, Y, s5)))))).

Definition strptime_dmY (s : str) : result date :=
  match regex_match s with
  | None => Raise (ValueError (py "time data does not match format"))
  | Some (d, m, Y, rest) =>
      match rest with
      | _ :: _ => Raise (ValueError (py "unconverted data remains"))
      | [] =>
          match int Y, int m, int d with
          | Some y, Some m, Some d => date_new y m d
          | _, _, _ => Raise (ValueError (py "invalid literal for int()"))
          end
      end
  end.

End Datetime.

Import Datetime.

(** ** The classes of [main.py] *)

(** [class Field]: a wrapper around one value. *)
Record Field (A : Type) := mkField { value : A }.
Arguments mkField {A} value.
Arguments value {A} f.

Definition Name := Field str.
Definition Phone := Field str.
Definition Birthday := Field date.

(** [Phone.__init__]; the argument has type [str], so the [isinstance]
    test holds. *)
Definition Phone_init (v : str) : result Phone :=
  if negb (isdigit v && (len v =? 10)) then
    Raise (ValueError (py "Phone number must contain exactly 10 digits."))
  else Ok (mkField v).

(** [Birthday.__init__]: every [ValueError] of [strptime] is replaced by
    one message (the texts of the library's own messages are therefore
    not kept in full by [strptime_dmY]). *)
Definition Birthday_init (v : str) : result Birthday :=
  match strptime_dmY v with
  | Ok dt => Ok (mkField dt)
  | Raise (ValueError _) =>
      Raise (ValueError (py "Invalid date format. Use DD.MM.YYYY"))
  | Raise e => Raise e
  end.

(** [Birthday.__str__] *)
Definition Birthday_str (b : Birthday) : str := strftime_dmY (value b).

(** [class Record] *)
Record Record_ := mkRecord {
  name : Name;
  phones : list Phone;
  birthday : option Birthday
}.

(** [Record.__init__] *)
Definition Record_init (n : str) : Record_ :=
  mkRecord (mkField n) [] None.

(** [Record.add_phone] *)
Definition Record_add_phone (self : Record_) (phone : str) : result Record_ :=
  p <- Phone_init phone ;;
  Ok (mkRecord (name self) (phones self ++ [p]) (birthday self)).

(** The loop of [Record.remove_phone] over [self.phones]. *)
Fixpoint Record_remove_phone_loop (ps : list Phone) (phone : str) : list Phone :=
  match ps with
  | [] => []
  | p :: ps' =>
      if str_eqb (value p) phone then ps'
      else p :: Record_remove_phone_loop ps' phone
  end.

Definition Record_remove_phone (self : Record_) (phone : str) : Record_ :=
  mkRecord (name self) (Record_remove_phone_loop (phones self) phone) (birthday self).

(** The loop of [Record.edit_phone] over [self.phones]: the first phone
    equal to [old_phone] is replaced by [Phone(new_phone)], which is built
    only then. *)
Fixpoint Record_edit_phone_loop (ps : list Phone) (old_phone new_phone : str)
    : result (list Phone) :=
  match ps with
  | [] => Ok []
  | p :: ps' =>
      if str_eqb (value p) old_phone then
        q <- Phone_init new_phone ;; Ok (q :: ps')
      else
        ps'' <- Record_edit_phone_loop ps' old_phone new_phone ;; Ok (p :: ps'')
  end.

Definition Record_edit_phone (self : Record_) (old_phone new_phone : str)
    : result Record_ :=
  ps <- Record_edit_phone_loop (phones self) old_phone new_phone ;;
  Ok (mkRecord (name self) ps (birthday self)).

(** [Record.find_phone] *)
Definition Record_find_phone (self : Record_) (phone : str) : option Phone :=
  List.find (fun p => str_eqb (value p) phone) (phones self).

(** [Record.add_birthday] *)
Definition Record_add_birthday (self : Record_) (birthday_str : str)
    : result Record_ :=
  b <- Birthday_init birthday_str ;;
  Ok (mkRecord (name self) (phones self) (Some b)).

(** ** The store and the address book

    [objects] holds the [Record] objects, [data] is the dictionary of the
    one [AddressBook]: keys in insertion order, each with the address of
    its record. *)

Definition addr := nat.

Record State := mkState {
  objects : list Record_;
  data : list (str * addr)
}.

(** The object at an address. Every address the program holds points to
    an object; an address outside the store reads as an empty record. *)
Definition deref (st : State) (a : addr) : Record_ :=
  nth a (objects st) (Record_init []).

Fixpoint set_nth {A} (l : list A) (i : nat) (x : A) : list A :=
  match l, i with
  | [], _ => []
  | _ :: l', O => x :: l'
  | y :: l', S i' => y :: set_nth l' i' x
  end.

(** [d.get(k)] *)
Fixpoint dict_get (d : list (str * addr)) (k : str) : option addr :=
  match d with
  | [] => None
  | (k', a) :: d' => if str_eqb k' k then Some a else dict_get d' k
  end.

(** [d[k] = a]: an existing key keeps its place, a new key goes last. *)
Fixpoint dict_set (d : list (str * addr)) (k : str) (a : addr)
    : list (str * addr) :=
  match d with
  | [] => [(k, a)]
  | (k', a') :: d' =>
      if str_eqb k' k then (k', a) :: d' else (k', a') :: dict_set d' k a
  end.

(** [del d[k]] *)
Fixpoint dict_del (d : list (str * addr)) (k : str) : list (str * addr) :=
  match d with
  | [] => []
  | (k', a') :: d' =>
      if str_eqb k' k then d' else (k', a') :: dict_del d' k
  end.

(** [d.values()], as the records the addresses point to. *)
Definition values (st : State) : list Record_ :=
  map (fun ka => deref st (snd ka)) (data st).

(** [Record(name)]: a new object. *)
Definition Record_new (n : str) (st : State) : addr * State :=
  (List.length (objects st),
   mkState (objects st ++ [Record_init n]) (data st)).

(** A method call that mutates the object at address [a], or raises and
    leaves it as it was. *)
Definition mutate (a : addr) (f : Record_ -> result Record_) (st : State)
    : result unit * State :=
  match f (deref st a) with
  | Ok r' => (Ok tt, mkState (set_nth (objects st) a r') (data st))
  | Raise e => (Raise e, st)
  end.

(** [AddressBook.add_record] *)
Definition AddressBook_add_record (record : addr) (st : State) : State :=
  mkState (objects st)
          (dict_set (data st) (value (name (deref st record))) record).

(** [AddressBook.find] *)
Definition AddressBook_find (n : str) (st : State) : option addr :=
  dict_get (data st) n.

(** [AddressBook.delete] *)
Definition AddressBook_delete (n : str) (st : State) : State :=
  match dict_get (data st) n with
  | Some _ => mkState (objects st) (dict_del (data st) n)
  | None => st
  end.

(** *** [AddressBook.get_upcoming_birthdays] *)

(** One dictionary of the returned list. *)
Record entry := mkEntry { entry_name : str; congratulation_date : str }.

(** The key of [result.sort]: a pair of strings, compared as tuples. *)
Definition sort_key (d : entry) : str * str :=
  (congratulation_date d, entry_name d).

Definition key_ltb (a b : str * str) : bool :=
  if negb (str_eqb (fst a) (fst b)) then str_ltb (fst a) (fst b)
  else str_ltb (snd a) (snd b).

(** [list.sort] is stable; it is modelled by the stable insertion sort,
    which computes the same list for a total order on the keys. *)
Fixpoint insert_sorted (x : entry) (l : list entry) : list entry :=
  match l with
  | [] => [x]
  | y :: l' =>
      if key_ltb (sort_key y) (sort_key x) then y :: insert_sorted x l'
      else x :: y :: l'
  end.

Fixpoint sort (l : list entry) : list entry :=
  match l with
  | [] => []
  | x :: l' => insert_sorted x (sort l')
  end.

(** Lines 91 to 93: the birthday moved to this year, or to the next one
    when it has passed. *)
Definition next_occurrence (today : date) (b : Birthday) : result date :=
  bday_this_year <- replace_year (value b) (year today) ;;
  if date_ltb bday_this_year today then
    replace_year bday_this_year (year today + 1)
  else Ok bday_this_year.

(** Lines 95 to 100: a Saturday moves two days on, a Sunday one. *)
Definition congratulation (bday_this_year : date) : result date :=
  let wd := weekday bday_this_year in
  if wd =? 5 then add_days bday_this_year 2
  else if wd =? 6 then add_days bday_this_year 1
  else Ok bday_this_year.

(** The body of the loop for one record; [acc] is the list [result]. *)
Definition loop_body (today horizon : date) (record : Record_)
    (acc : list entry) : result (list entry) :=
  match birthday record with
  | None => Ok acc
  | Some b =>
      bday_this_year <- next_occurrence today b ;;
      if date_leb today bday_this_year && date_leb bday_this_year horizon
      then
        congratulation_date <- congratulation bday_this_year ;;
        Ok (acc ++ [mkEntry (value (name record))
                            (strftime_Ymd congratulation_date)])
      else Ok acc
  end.

Fixpoint loop (today horizon : date) (records : list Record_)
    (acc : list entry) : result (list entry) :=
  match records with
  | [] => Ok acc
  | record :: rest =>
      acc' <- loop_body today horizon record acc ;;
      loop today horizon rest acc'
  end.

Definition AddressBook_get_upcoming_birthdays (today : date) (st : State)
    : result (list entry) :=
  horizon <- add_days today 7 ;;
  result <- loop today horizon (values st) [] ;;
  Ok (sort result).

(** ** The command handlers *)

(** The decorator [input_error]. *)
Definition input_error (func : list str -> State -> result str * State)
    (args : list str) (st : State) : result str * State :=
  match func args st with
  | (Raise (ValueError msg), st') =>
      (Ok (match msg with
           | [] => py "Give me name and phone please."
           | _ => msg
           end), st')
  | (Raise IndexError, st') => (Ok (py "Enter user name."), st')
  | (Raise KeyError, st') => (Ok (py "Contact not found."), st')
  | other => other
  end.

(** The [ValueError] of an unpacking [a, b, *_ = args] on a short list. *)
Definition unpack_error (expected : Z) (args : list str) : exn :=
  ValueError (py "not enough values to unpack (expected at least "
              ++ str_of_int expected ++ py ", got "
              ++ str_of_int (len args) ++ py ")").

(** ["; ".join(l)] *)
Fixpoint join (sep : str) (l : list str) : str :=
  match l with
  | [] => []
  | [x] => x
  | x :: l' => x ++ sep ++ join sep l'
  end.

Definition change_contact_body (args : list str) (st : State)
    : result str * State :=
  match args with
  | name' :: old_phone :: new_phone :: _ =>
      match AddressBook_find name' st with
      | None => (Raise KeyError, st)
      | Some record =>
          match mutate record
                  (fun r => Record_edit_phone r old_phone new_phone) st with
          | (Ok _, st') => (Ok (py "Contact updated."), st')
          | (Raise e, st') => (Raise e, st')
          end
      end
  | _ => (Raise (unpack_error 3 args), st)
  end.

Definition change_contact := input_error change_contact_body.

Definition show_phone_body (args : list str) (st : State)
    : result str * State :=
  match args with
  | name' :: _ =>
      match AddressBook_find name' st with
      | None => (Raise KeyError, st)
      | Some record =>
          let r := deref st record in
          match phones r with
          | [] => (Ok (py "No phones."), st)
          | ps =>
              (Ok (value (name r) ++ py ": "
                   ++ join (py "; ") (map value ps)), st)
          end
      end
  | _ => (Raise (unpack_error 1 args), st)
  end.

Definition show_phone := input_error show_phone_body.

Definition add_birthday_body (args : list str) (st : State)
    : result str * State :=
  match args with
  | name' :: bday_str :: _ =>
      let '(record, st1) :=
        match AddressBook_find name' st with
        | Some record => (record, st)
        | None =>
            let '(record, st0) := Record_new name' st in
            (record, AddressBook_add_record record st0)
        end in
      match mutate record (fun r => Record_add_birthday r bday_str) st1 with
      | (Ok _, st2) => (Ok (py "Birthday set."), st2)
      | (Raise e, st2) => (Raise e, st2)
      end
  | _ => (Raise (unpack_error 2 args), st)
  end.

Definition add_birthday := input_error add_birthday_body.

Definition show_birthday_body (args : list str) (st : State)
    : result str * State :=
  match args with
  | name' :: _ =>
      match AddressBook_find name' st with
      | None => (Raise KeyError, st)
      | Some record =>
          let r := deref st record in
          match birthday r with
          | None => (Ok (py "Birthday not set."), st)
          | Some b =>
              (Ok (value (name r) ++ py ": " ++ Birthday_str b), st)
          end
      end
  | _ => (Raise (unpack_error 1 args), st)
  end.

Definition show_birthday := input_error show_birthday_body.

(** ** Notions used by the statements *)

(** What one record adds to the list [result]: the body of the loop
    without its accumulator. *)
Definition entry_of (today horizon : date) (record : Record_)
    : result (option entry) :=
  match birthday record with
  | None => Ok None
  | Some b =>
      bday_this_year <- next_occurrence today b ;;
      if date_leb today bday_this_year && date_leb bday_this_year horizon
      then
        congratulation_date <- congratulation bday_this_year ;;
        Ok (Some (mkEntry (value (name record))
                          (strftime_Ymd congratulation_date)))
      else Ok None
  end.

Definition option_list {A} (o : option A) : list A :=
  match o with
  | Some x => [x]
  | None => []
  end.

(** A contact appears in a result when one of its entries carries the
    contact's name. *)
Definition appears (r : Record_) (res : list entry) : Prop :=
  exists e, In e res /\ entry_name e = value (name r).

(** The next occurrence of a birthday as the specification words it: the
    month and the day of the birthday with the year of [today], advanced
    to the next year when that date is earlier than [today]. It is set
    beside the code of lines 91-93, [next_occurrence], which it does not
    use. *)
Definition nextOccurrence (today bday : date) : date :=
  let this_year := mkdate (year today) (month bday) (day bday) in
  if date_ltb this_year today
  then mkdate (year today + 1) (month bday) (day bday)
  else this_year.

(** The names of the contacts of a book are pairwise different. *)
Definition distinct_names (st : State) : Prop :=
  NoDup (map (fun r => value (name r)) (values st)).


(** The order [list.sort] works with: no later key is smaller. *)
Definition key_le (e1 e2 : entry) : Prop :=
  key_ltb (sort_key e2) (sort_key e1) = false.

Definition is_ascii_digit (c : char) : bool := between "0" "9" c.

(** The format of the specification for a phone number: exactly ten
    decimal digits. *)
Definition ten_decimal_digits (s : str) : bool :=
  (len s =? 10) && forallb is_ascii_digit s.


(** The texts [strptime] takes for the day, the month and the year of
    the format [%d.%m.%Y]. *)
Definition day_text (t : str) : bool :=
  match t with
  | [a] => between "1" "9" a
  | [a; b] =>
      (is_char "3" a && between "0" "1" b)
      || (between "1" "2" a && isdecimal_char b)
      || (is_char "0" a && between "1" "9" b)
      || (is_char " " a && between "1" "9" b)
  | _ => false
  end.

Definition month_text (t : str) : bool :=
  match t with
  | [a] => between "1" "9" a
  | [a; b] =>
      (is_char "1" a && between "0" "2" b)
      || (is_char "0" a && between "1" "9" b)
  | _ => false
  end.

Definition year_text (t : str) : bool :=
  match t with
  | [a; b; c; d] => forallb isdecimal_char [a; b; c; d]
  | _ => false
  end.

(** A text that [strptime] reads as the date [dt]. *)
Definition spells (s : str) (dt : date) : Prop :=
  exists D M Y,
    s = D ++ py "." ++ M ++ py "." ++ Y
    /\ day_text D = true /\ month_text M = true /\ year_text Y = true
    /\ int Y = Some (year dt) /\ int M = Some (month dt)
    /\ int D = Some (day dt).

(** ** Books and dates of the examples *)

(** The book that holds the given records, each under its own name, as
    successive calls of [add_record] on records with different names
    build it. *)
Definition book_of (rs : list Record_) : State :=
  mkState rs (combine (map (fun r => value (name r)) rs)
                      (seq 0 (List.length rs))).

Definition contact (n : string) (y m d : Z) : Record_ :=
  mkRecord (mkField (py n)) [] (Some (mkField (mkdate y m d))).

Definition june_10_2024 : date := mkdate 2024 6 10.
Definition march_1_2023 : date := mkdate 2023 3 1.

Definition alice : Record_ := contact "Alice" 1990 6 17.
Definition bob : Record_ := contact "Bob" 1985 6 15.
Definition carl : Record_ := contact "Carl" 1970 6 18.
Definition dan : Record_ := contact "Dan" 2000 2 29.

(** ** More of the library: whitespace, [split], [lower], [sorted] *)

(** The characters for which [str.isspace] holds (Unicode 14.0); [strip]
    and [split] without argument work with the same set. *)
Definition whitespace : list Z :=
  [ 9; 10; 11; 12; 13; 28; 29; 30; 31; 32; 133; 160; 5760;
    8192; 8193; 8194; 8195; 8196; 8197; 8198; 8199; 8200; 8201; 8202;
    8232; 8233; 8239; 8287; 12288 ].

Definition isspace_char (c : char) : bool := existsb (Z.eqb c) whitespace.

Fixpoint str_lstrip (s : str) : str :=
  match s with
  | c :: s' => if isspace_char c then str_lstrip s' else s
  | [] => []
  end.

(** [s.strip()] *)
Definition str_strip (s : str) : str :=
  rev (str_lstrip (rev (str_lstrip s))).

(** [s.split()]: the maximal runs of characters that are not whitespace;
    [cur] is the run being read. *)
Fixpoint split_from (cur : str) (s : str) : list str :=
  match s with
  | [] => match cur with [] => [] | _ => [cur] end
  | c :: s' =>
      if isspace_char c then
        match cur with
        | [] => split_from [] s'
        | _ => cur :: split_from [] s'
        end
      else split_from (cur ++ [c]) s'
  end.

Definition str_split (s : str) : list str := split_from [] s.

Definition is_ascii (c : char) : bool := (0 <=? c) && (c <? 128).

Definition ascii_lower (c : char) : char :=
  if (65 <=? c) && (c <=? 90) then c + 32 else c.

(** [sorted(l)] for a list of strings: stable, modelled by insertion as
    [sort] is. *)
Fixpoint insert_str (x : str) (l : list str) : list str :=
  match l with
  | [] => [x]
  | y :: l' => if str_ltb y x then y :: insert_str x l' else x :: y :: l'
  end.

Fixpoint sorted (l : list str) : list str :=
  match l with
  | [] => []
  | x :: l' => insert_str x (sorted l')
  end.

(** ** The rest of [main.py] *)

(** [Record.__str__] *)
Definition Record_str (self : Record_) : str :=
  let phones_str :=
    match phones self with
    | [] => py "-"
    | ps => join (py "; ") (map value ps)
    end in
  let bday_str :=
    match birthday self with
    | Some b => Birthday_str b
    | None => py "-"
    end in
  py "Contact name: " ++ value (name self) ++ py ", phones: " ++ phones_str
  ++ py ", birthday: " ++ bday_str.

(** [add_contact] *)
Definition add_contact_body (args : list str) (st : State)
    : result str * State :=
  match args with
  | name' :: phone :: _ =>
      let '(record, message, st1) :=
        match AddressBook_find name' st with
        | Some record => (record, py "Contact updated.", st)
        | None =>
            let '(record, st0) := Record_new name' st in
            (record, py "Contact added.", AddressBook_add_record record st0)
        end in
      match phone with
      | [] => (Ok message, st1)
      | _ =>
          match mutate record (fun r => Record_add_phone r phone) st1 with
          | (Ok _, st2) => (Ok message, st2)
          | (Raise e, st2) => (Raise e, st2)
          end
      end
  | _ => (Raise (unpack_error 2 args), st)
  end.

Definition add_contact := input_error add_contact_body.

(** [show_all] *)
Definition show_all_body (args : list str) (st : State)
    : result str * State :=
  match data st with
  | [] => (Ok (py "No contacts saved."), st)
  | _ => (Ok (join [10] (map Record_str (values st))), st)
  end.

Definition show_all := input_error show_all_body.

(** The dictionary [by_date] of [birthdays]:
    [by_date.setdefault(day, []).append(name)]. *)
Fixpoint by_date_append (by_date : list (str * list str)) (day n : str)
    : list (str * list str) :=
  match by_date with
  | [] => [(day, [n])]
  | (k, names) :: rest =>
      if str_eqb k day then (k, names ++ [n]) :: rest
      else (k, names) :: by_date_append rest day n
  end.

Fixpoint by_date_get (by_date : list (str * list str)) (day : str)
    : list str :=
  match by_date with
  | [] => []
  | (k, names) :: rest =>
      if str_eqb k day then names else by_date_get rest day
  end.

Definition group_by_date (upcoming : list entry) : list (str * list str) :=
  fold_left (fun by_date item =>
               by_date_append by_date (congratulation_date item)
                              (entry_name item))
            upcoming [].

(** The list [lines] of [birthdays]. *)
Definition birthdays_lines (upcoming : list entry) : list str :=
  let by_date := group_by_date upcoming in
  map (fun day =>
         day ++ py ": " ++ join (py ", ") (sorted (by_date_get by_date day)))
      (sorted (map fst by_date)).

(** [birthdays]; [today] is the date [get_upcoming_birthdays] reads from
    the clock. *)
Definition birthdays_body (today : date) (args : list str) (st : State)
    : result str * State :=
  match AddressBook_get_upcoming_birthdays today st with
  | Raise e => (Raise e, st)
  | Ok [] => (Ok (py "No birthdays in the next 7 days."), st)
  | Ok upcoming => (Ok (join [10] (birthdays_lines upcoming)), st)
  end.

Definition birthdays (today : date) := input_error (birthdays_body today).

(** ** What [get_upcoming_birthdays] raises *)

Definition day_error : exn :=
  ValueError (py "day is out of range for month").
Definition year_error : exn :=
  ValueError (py "year 10000 is out of range").
Definition overflow_error : exn :=
  OverflowError (py "date value out of range").

(** Lines 91 to 93 get through for a birthday: a 29th of February needs a
    leap year in which it has not passed, and a birthday that has passed
    needs a next year in the calendar. *)
Definition occurrence_exists (today : date) (b : Birthday) : bool :=
  let this := mkdate (year today) (month (value b)) (day (value b)) in
  let feb29 := (month (value b) =? 2) && (day (value b) =? 29) in
  if feb29 then is_leap (year today) && negb (date_ltb this today)
  else negb (date_ltb this today) || negb (year today =? 9999).

(** The entries one record gives to the list [result]. *)
Definition contribution (today horizon : date) (r : Record_) : list entry :=
  match entry_of today horizon r with
  | Ok o => option_list o
  | Raise _ => []
  end.

Definition has_birthday (r : Record_) : bool :=
  match birthday r with
  | Some _ => true
  | None => false
  end.

(** The birthdays of the book are dates of the calendar, as the
    constructor of [Birthday] makes them. *)
Definition birthdays_valid (st : State) : Prop :=
  forall r b, In r (values st) -> birthday r = Some b ->
    valid_date (value b) = true.

(** A text that begins with neither ["E"] nor ["G"], or that has a
    colon: every answer of a handler is such a text, and the two fallback
    texts of [input_error] are not. *)
Definition plain (s : str) : Prop :=
  (exists c rest, s = c :: rest /\ c <> 69 /\ c <> 71) \/ In 58 s.

(** How the body of a handler ends: with an answer, with a [ValueError]
    that has a text, or with [KeyError]. *)
Definition body_outcome (r : result str) : Prop :=
  (exists s, r = Ok s /\ plain s)
  \/ (exists msg, r = Raise (ValueError msg) /\ plain msg)
  \/ r = Raise KeyError.



(** The text of [unpack_error]. *)
Definition unpack_text (expected : Z) (args : list str) : str :=
  py "not enough values to unpack (expected at least "
  ++ str_of_int expected ++ py ", got " ++ str_of_int (len args) ++ py ")".

(** The decorated handlers of the commands. *)
Definition handlers (today : date)
    : list (list str -> State -> result str * State) :=
  [add_contact; change_contact; show_phone; show_all; add_birthday;
   show_birthday; birthdays today].

(** ** The command loop *)

Section Loop.

(** [str.lower] on a text with a character outside ASCII: the case
    mapping of the Unicode database, which is not described here. *)
Variable unicode_lower : str -> str.

(** [s.lower()] *)
Definition str_lower (s : str) : str :=
  if forallb is_ascii s then map ascii_lower s else unicode_lower s.

(** [parse_input] *)
Definition parse_input (user_input : str) : str * list str :=
  match str_split (str_strip user_input) with
  | [] => ([], [])
  | cmd :: args => (str_lower cmd, args)
  end.

(** What one turn of the loop of [main] does with the line [input]
    returned: it goes on after some [print]s, or it stops after
    [save_data(book)] and a [print], or an exception leaves [main]. *)
Inductive turn :=
| Continue (printed : list str) (st : State)
| Break (saved : State) (printed : list str)
| Crash (e : exn) (st : State).

Definition print (r : result str * State) : turn :=
  match r with
  | (Ok s, st) => Continue [s] st
  | (Raise e, st) => Crash e st
  end.

(** The chain of tests on the command. *)
Definition dispatch (today : date) (command : str) (args : list str)
    (book : State) : turn :=
  if str_eqb command (py "close") || str_eqb command (py "exit") then
    Break book [py "Good bye!"]
  else if str_eqb command (py "hello") then
    Continue [py "How can I help you?"] book
  else if str_eqb command (py "add") then
    print (add_contact args book)
  else if str_eqb command (py "change") then
    print (change_contact args book)
  else if str_eqb command (py "phone") then
    print (show_phone args book)
  else if str_eqb command (py "all") then
    print (show_all args book)
  else if str_eqb command (py "add-birthday") then
    print (add_birthday args book)
  else if str_eqb command (py "show-birthday") then
    print (show_birthday args book)
  else if str_eqb command (py "birthdays") then
    print (birthdays today args book)
  else Continue [py "Invalid command."] book.

Definition main_turn (today : date) (line : str) (book : State) : turn :=
  let user_input := str_strip line in
  match user_input with
  | [] => Continue [] book
  | _ =>
      let '(command, args) := parse_input user_input in
      dispatch today command args book
  end.

End Loop.

Definition nonspace (c : char) : bool := negb (isspace_char c).

(** A word: a text with a character and with no whitespace. *)
Definition word (w : str) : Prop := w <> [] /\ forallb nonspace w = true.

(** The words of a line, told without [split]: the line is whitespace,
    then each word followed by whitespace, and what follows a word is
    empty or begins with a whitespace character, so that a word is never
    a part of a longer run of characters that are not whitespace. *)
Inductive words_of : str -> list str -> Prop :=
| words_of_nil (sp : str) :
    forallb isspace_char sp = true -> words_of sp []
| words_of_cons (sp w rest : str) (ws : list str) :
    forallb isspace_char sp = true -> word w ->
    (rest = []
     \/ exists c rest', rest = c :: rest' /\ isspace_char c = true) ->
    words_of rest ws -> words_of (sp ++ w ++ rest) (w :: ws).

(** The book after a turn. *)
Definition turn_book (t : turn) : State :=
  match t with
  | Continue _ st => st
  | Break saved _ => saved
  | Crash _ st => st
  end.

(** A session: the loop of [main] over the lines that [input] returns,
    each with the date the clock shows then. The book at the end is the
    one saved on [close] or [exit], or the one in memory when the lines
    run out or an exception leaves the loop. *)
Fixpoint session (unicode_lower : str -> str) (inputs : list (date * str))
    (book : State) : State :=
  match inputs with
  | [] => book
  | (today, line) :: rest =>
      match main_turn unicode_lower today line book with
      | Continue _ book' => session unicode_lower rest book'
      | Break saved _ => saved
      | Crash _ book' => book'
      end
  end.

(** ** Invariants of a session *)

(** The dictionary of the book: its keys are pairwise different, no record
    is stored twice, and every key is the name of its record. *)
Definition keyed_by_name (st : State) : Prop :=
  NoDup (map fst (data st)) /\ NoDup (map snd (data st))
  /\ forall k a, In (k, a) (data st) ->
       (a < List.length (objects st))%nat /\ value (name (deref st a)) = k.

(** What the constructors of the fields let through. *)
Definition phone_ok (p : Phone) : Prop :=
  List.length (value p) = 10%nat /\ forallb isdigit_char (value p) = true.

Definition record_ok (r : Record_) : Prop :=
  Forall phone_ok (phones r)
  /\ forall b, birthday r = Some b -> valid_date (value b) = true.

Definition validated (st : State) : Prop := Forall record_ok (objects st).

Definition empty_book : State := mkState [] [].

(** An ASCII lower-casing for the examples. *)
Definition lower_ascii_only (s : str) : str := map ascii_lower s.

(** ** Calendar arithmetic *)

Lemma month_cases (m : Z) :
  1 <= m <= 12 ->
  m = 1 \/ m = 2 \/ m = 3 \/ m = 4 \/ m = 5 \/ m = 6 \/ m = 7 \/ m = 8
  \/ m = 9 \/ m = 10 \/ m = 11 \/ m = 12.
Proof. lia. Qed.

Ltac eval_index :=
  repeat match goal with
  | |- context [index ?l ?i] =>
      let v := eval vm_compute in (index l i) in
      change (index l i) with v
  end.

Ltac each_month m H :=
  destruct (month_cases m H) as
    [->|[->|[->|[->|[->|[->|[->|[->|[->|[->|[->| ->]]]]]]]]]]];
  eval_index; cbn [Z.eqb Z.ltb Z.compare Pos.compare Pos.compare_cont
                   Pos.eqb andb orb negb].

Section Calendar.

Lemma days_before_year_succ (y : Z) :
  days_before_year (y + 1)
  = days_before_year y + 365 + (if is_leap y then 1 else 0).
Proof.
  unfold days_before_year, is_leap.
  replace (y + 1 - 1) with y by lia.
  destruct (Z.eqb_spec (y mod 4) 0), (Z.eqb_spec (y mod 100) 0),
    (Z.eqb_spec (y mod 400) 0); cbn [andb orb negb];
    Z.div_mod_to_equations; lia.
Qed.

Lemma days_before_year_step (y : Z) :
  days_before_year y + 365 <= days_before_year (y + 1).
Proof. rewrite days_before_year_succ. destruct (is_leap y); lia. Qed.

Lemma days_before_year_mono (y1 y2 : Z) :
  y1 <= y2 -> days_before_year y1 <= days_before_year y2.
Proof.
  intros H. replace y2 with (y1 + (y2 - y1)) by lia.
  assert (Hk : 0 <= y2 - y1) by lia.
  generalize dependent (y2 - y1). intros k Hk.
  pattern k. apply natlike_ind; trivial.
  - rewrite Z.add_0_r. lia.
  - intros x Hx IH. replace (y1 + Z.succ x) with (y1 + x + 1) by lia.
    pose proof (days_before_year_step (y1 + x)). lia.
Qed.

Lemma valid_date_iff (d : date) :
  valid_date d = true <->
  1 <= year d <= 9999 /\ 1 <= month d <= 12
  /\ 1 <= day d <= days_in_month (year d) (month d).
Proof.
  unfold valid_date, MINYEAR, MAXYEAR.
  rewrite !andb_true_iff, !Z.leb_le. tauto.
Qed.

Lemma days_before_month_next (y m : Z) :
  1 <= m <= 11 ->
  days_before_month y (m + 1) = days_before_month y m + days_in_month y m.
Proof.
  intros H. unfold days_before_month, days_in_month.
  assert (H' : 1 <= m <= 12) by lia.
  each_month m H'; try lia; destruct (is_leap y); cbn; lia.
Qed.

Lemma days_in_month_pos (y m : Z) : 1 <= m <= 12 -> 28 <= days_in_month y m <= 31.
Proof.
  intros H. unfold days_in_month.
  each_month m H; destruct (is_leap y); cbn; lia.
Qed.

Lemma days_before_month_mono (y m1 m2 : Z) :
  1 <= m1 -> m1 < m2 -> m2 <= 12 ->
  days_before_month y m1 + days_in_month y m1 <= days_before_month y m2.
Proof.
  intros H1 H2 H3.
  assert (Ha : 1 <= m1 <= 12) by lia. assert (Hb : 1 <= m2 <= 12) by lia.
  unfold days_before_month, days_in_month.
  each_month m1 Ha; each_month m2 Hb; try lia; destruct (is_leap y); cbn; lia.
Qed.

Lemma days_before_month_last (y : Z) :
  days_before_month y 12 + days_in_month y 12
  = 365 + (if is_leap y then 1 else 0).
Proof. unfold days_before_month, days_in_month. destruct (is_leap y); reflexivity. Qed.

Lemma days_before_month_bounds (y m : Z) :
  1 <= m <= 12 ->
  0 <= days_before_month y m
  /\ days_before_month y m + days_in_month y m
     <= 365 + (if is_leap y then 1 else 0).
Proof.
  intros H. unfold days_before_month, days_in_month.
  each_month m H; destruct (is_leap y); cbn; lia.
Qed.

(** The ordinal of a date lies within its year. *)
Lemma toordinal_in_year (d : date) :
  valid_date d = true ->
  days_before_year (year d) < toordinal d <= days_before_year (year d + 1).
Proof.
  rewrite valid_date_iff. intros (Hy & Hm & Hd).
  unfold toordinal, ymd2ord. rewrite days_before_year_succ.
  pose proof (days_before_month_bounds (year d) (month d) Hm). lia.
Qed.

Lemma days_before_year_1 : days_before_year 1 = 0.
Proof. reflexivity. Qed.

Lemma days_before_year_max : days_before_year (MAXYEAR + 1) = MAXORDINAL.
Proof. reflexivity. Qed.

Lemma toordinal_range (d : date) :
  valid_date d = true -> 1 <= toordinal d <= MAXORDINAL.
Proof.
  intros H. pose proof (toordinal_in_year d H) as Hr.
  apply valid_date_iff in H. destruct H as (Hy & _).
  pose proof (days_before_year_mono 1 (year d) ltac:(lia)).
  pose proof (days_before_year_mono (year d + 1) (MAXYEAR + 1)
                ltac:(unfold MAXYEAR; lia)).
  rewrite days_before_year_1 in *. rewrite days_before_year_max in *. lia.
Qed.

(** The comparison of dates is the comparison of their ordinals. *)
Lemma date_ltb_lt (a b : date) :
  valid_date a = true -> valid_date b = true ->
  date_ltb a b = true -> toordinal a < toordinal b.
Proof.
  intros Ha Hb. unfold date_ltb.
  pose proof (toordinal_in_year a Ha) as Ra.
  pose proof (toordinal_in_year b Hb) as Rb.
  apply valid_date_iff in Ha, Hb.
  destruct Ha as (Hya & Hma & Hda), Hb as (Hyb & Hmb & Hdb).
  destruct (Z.ltb_spec (year a) (year b)) as [Hy|Hy].
  - intros _.
    pose proof (days_before_year_mono (year a + 1) (year b) ltac:(lia)). lia.
  - destruct (Z.ltb_spec (year b) (year a)) as [Hy'|Hy']; [discriminate|].
    assert (Ey : year a = year b) by lia.
    unfold toordinal, ymd2ord. rewrite Ey in *.
    destruct (Z.ltb_spec (month a) (month b)) as [Hm|Hm].
    + intros _.
      pose proof (days_before_month_mono (year b) (month a) (month b)
                    ltac:(lia) Hm ltac:(lia)). lia.
    + destruct (Z.ltb_spec (month b) (month a)) as [Hm'|Hm']; [discriminate|].
      assert (Em : month a = month b) by lia. rewrite Em.
      rewrite Z.ltb_lt. lia.
Qed.

Lemma date_ltb_total (a b : date) :
  date_ltb a b = true \/ a = b \/ date_ltb b a = true.
Proof.
  unfold date_ltb. destruct a as [ya ma da], b as [yb mb db]; cbn.
  destruct (Z.ltb_spec ya yb); [now left|].
  destruct (Z.ltb_spec yb ya); [now right; right|].
  destruct (Z.ltb_spec ma mb); [now left|].
  destruct (Z.ltb_spec mb ma); [now right; right|].
  destruct (Z.ltb_spec da db); [now left|].
  destruct (Z.ltb_spec db da); [now right; right|].
  right; left. f_equal; lia.
Qed.

Lemma date_ltb_spec (a b : date) :
  valid_date a = true -> valid_date b = true ->
  date_ltb a b = (toordinal a <? toordinal b).
Proof.
  intros Ha Hb.
  destruct (Z.ltb_spec (toordinal a) (toordinal b)) as [H|H].
  - destruct (date_ltb_total a b) as [T|[T|T]]; trivial.
    + subst; lia.
    + apply date_ltb_lt in T; trivial; lia.
  - destruct (date_ltb a b) eqn:E; trivial.
    apply date_ltb_lt in E; trivial; lia.
Qed.

Lemma date_leb_spec (a b : date) :
  valid_date a = true -> valid_date b = true ->
  date_leb a b = (toordinal a <=? toordinal b).
Proof.
  intros Ha Hb. unfold date_leb. rewrite date_ltb_spec by trivial.
  destruct (Z.ltb_spec (toordinal b) (toordinal a)),
    (Z.leb_spec (toordinal a) (toordinal b)); trivial; lia.
Qed.

Lemma toordinal_inj (a b : date) :
  valid_date a = true -> valid_date b = true ->
  toordinal a = toordinal b -> a = b.
Proof.
  intros Ha Hb E.
  destruct (date_ltb_total a b) as [T|[T|T]]; trivial;
    apply date_ltb_lt in T; trivial; lia.
Qed.


Lemma is_leap_decomposed (a b c d : Z) :
  0 <= b <= 3 -> 0 <= c <= 24 -> 0 <= d <= 3 ->
  is_leap (a * 400 + 1 + b * 100 + c * 4 + d)
  = (d =? 3) && (negb (c =? 24) || (b =? 3)).
Proof.
  intros Hb Hc Hd. unfold is_leap.
  destruct (Z.eqb_spec d 3), (Z.eqb_spec c 24), (Z.eqb_spec b 3);
    cbn [andb orb negb];
    repeat match goal with
    | |- context [?x =? 0] => destruct (Z.eqb_spec x 0)
    end; cbn [andb orb negb]; trivial;
    exfalso; Z.div_mod_to_equations; lia.
Qed.

Lemma days_before_year_decomposed (a b c d : Z) :
  0 <= b <= 3 -> 0 <= c <= 24 -> 0 <= d <= 3 ->
  days_before_year (a * 400 + 1 + b * 100 + c * 4 + d)
  = a * 146097 + b * 36524 + c * 1461 + d * 365.
Proof.
  intros Hb Hc Hd. unfold days_before_year.
  Z.div_mod_to_equations. lia.
Qed.

Lemma is_leap_400 (a : Z) : is_leap (a * 400) = true.
Proof.
  unfold is_leap.
  replace ((a * 400) mod 4) with 0 by (Z.div_mod_to_equations; lia).
  replace ((a * 400) mod 400) with 0 by (Z.div_mod_to_equations; lia).
  cbn. apply orb_true_r.
Qed.

(** Month and day of the [n]-th day of a year. *)
Lemma month_day_spec (leap : bool) (n : Z) :
  0 <= n < 365 ->
  let (m, d) := month_day leap n in
  1 <= m <= 12
  /\ 1 <= d <= (if (m =? 2) && leap then 29 else index DAYS_IN_MONTH m)
  /\ index DAYS_BEFORE_MONTH m + (if (2 <? m) && leap then 1 else 0) + d
     = n + 1.
Proof.
  intros Hn.
  assert (All : forallb (fun k =>
            let n := Z.of_nat k in
            forallb (fun leap =>
              let (m, d) := month_day leap n in
              (1 <=? m) && (m <=? 12) && (1 <=? d)
              && (d <=? (if (m =? 2) && leap then 29
                         else index DAYS_IN_MONTH m))
              && (index DAYS_BEFORE_MONTH m
                  + (if (2 <? m) && leap then 1 else 0) + d =? n + 1))
              [true; false]) (seq 0 365) = true)
    by (vm_compute; reflexivity).
  rewrite forallb_forall in All.
  specialize (All (Z.to_nat n)).
  rewrite Z2Nat.id in All by lia.
  assert (In (Z.to_nat n) (seq 0 365)) as Hin by (apply in_seq; lia).
  specialize (All Hin). cbv zeta in All.
  rewrite forallb_forall in All.
  specialize (All leap ltac:(destruct leap; cbn; tauto)).
  destruct (month_day leap n) as [m d].
  rewrite !andb_true_iff, !Z.leb_le, Z.eqb_eq in All. lia.
Qed.

(** [_ord2ymd] inverts [_ymd2ord] on the ordinals of the calendar. *)
Lemma ord2ymd_spec (n : Z) :
  1 <= n <= MAXORDINAL ->
  valid_date (ord2ymd n) = true /\ toordinal (ord2ymd n) = n.
Proof.
  intros Hn.
  assert (Key : 1 <= year (ord2ymd n) /\ 1 <= month (ord2ymd n) <= 12
          /\ 1 <= day (ord2ymd n)
               <= days_in_month (year (ord2ymd n)) (month (ord2ymd n))
          /\ toordinal (ord2ymd n) = n).
  { unfold ord2ymd, DI400Y, DI100Y, DI4Y. cbv zeta.
    set (n0 := n - 1).
    set (n400 := n0 / 146097). set (r400 := n0 mod 146097).
    set (n100 := r400 / 36524). set (r100 := r400 mod 36524).
    set (n4 := r100 / 1461). set (r4 := r100 mod 1461).
    set (n1 := r4 / 365). set (r1 := r4 mod 365).
    assert (E400 : n0 = 146097 * n400 + r400 /\ 0 <= r400 < 146097)
      by (subst n400 r400; Z.div_mod_to_equations; lia).
    assert (E100 : r400 = 36524 * n100 + r100 /\ 0 <= r100 < 36524)
      by (subst n100 r100; Z.div_mod_to_equations; lia).
    assert (E4 : r100 = 1461 * n4 + r4 /\ 0 <= r4 < 1461)
      by (subst n4 r4; Z.div_mod_to_equations; lia).
    assert (E1 : r4 = 365 * n1 + r1 /\ 0 <= r1 < 365)
      by (subst n1 r1; Z.div_mod_to_equations; lia).
    assert (H0 : n0 = n - 1) by reflexivity.
    clearbody n400 r400 n100 r100 n4 r4 n1 r1 n0.
    assert (B400 : 0 <= n400) by lia.
    assert (B100 : 0 <= n100 <= 4) by lia.
    assert (B4 : 0 <= n4 <= 24) by lia.
    assert (B1 : 0 <= n1 <= 4) by lia.
    destruct (Z.eqb_spec n1 4) as [F1|F1]; cbn [orb].
    - (* the last day of a leap year that ends a cycle of four *)
      cbn [year month day]. unfold toordinal, ymd2ord. cbn [year month day].
      replace (n400 * 400 + 1 + n100 * 100 + n4 * 4 + n1 - 1)
        with (n400 * 400 + 1 + n100 * 100 + n4 * 4 + 3) by lia.
      assert (B100' : 0 <= n100 <= 3) by lia.
      assert (C4 : n4 <> 24 \/ n100 = 3) by lia.
      unfold days_in_month, days_before_month.
      rewrite is_leap_decomposed, days_before_year_decomposed by lia.
      replace ((3 =? 3) && (negb (n4 =? 24) || (n100 =? 3))) with true
        by (destruct (Z.eqb_spec n4 24), (Z.eqb_spec n100 3); cbn; trivial; lia).
      eval_index. cbn. lia.
    - destruct (Z.eqb_spec n100 4) as [F100|F100].
      + (* the last day of a cycle of four hundred years *)
        cbn [year month day]. unfold toordinal, ymd2ord. cbn [year month day].
        assert (n4 = 0 /\ n1 = 0 /\ r1 = 0) as (-> & -> & ->) by lia.
        subst n100.
        replace (n400 * 400 + 1 + 4 * 100 + 0 * 4 + 0 - 1)
          with ((n400 + 1) * 400) by lia.
        unfold days_in_month, days_before_month. rewrite is_leap_400.
        eval_index. cbn.
        unfold days_before_year. Z.div_mod_to_equations. lia.
      + set (leap := (n1 =? 3) && (negb (n4 =? 24) || (n100 =? 3))).
        pose proof (month_day_spec leap r1 ltac:(lia)) as MD.
        destruct (month_day leap r1) as [m d].
        cbn [year month day]. unfold toordinal, ymd2ord. cbn [year month day].
        unfold days_in_month, days_before_month.
        rewrite is_leap_decomposed, days_before_year_decomposed by lia.
        fold leap. lia. }
  destruct Key as (Hy & Hm & Hd & Ho). split; trivial.
  apply valid_date_iff. repeat split; try lia.
  destruct (Z.leb_spec (year (ord2ymd n)) 9999) as [L|L]; trivial.
  exfalso.
  pose proof (days_before_year_mono (MAXYEAR + 1) (year (ord2ymd n))
                ltac:(unfold MAXYEAR; lia)) as M.
  rewrite days_before_year_max in M.
  unfold toordinal, ymd2ord in Ho.
  pose proof (days_before_month_bounds (year (ord2ymd n)) (month (ord2ymd n)) Hm).
  lia.
Qed.

Lemma ord2ymd_toordinal (d : date) :
  valid_date d = true -> ord2ymd (toordinal d) = d.
Proof.
  intros H. pose proof (toordinal_range d H) as R.
  destruct (ord2ymd_spec _ R) as (V & E).
  now apply toordinal_inj.
Qed.

(** [d + timedelta(days=k)] moves the ordinal by [k]. *)
Lemma add_days_spec (d : date) (k : Z) (d' : date) :
  add_days d k = Ok d' ->
  valid_date d' = true /\ toordinal d' = toordinal d + k.
Proof.
  unfold add_days.
  destruct (Z.ltb_spec 0 (toordinal d + k)), (Z.leb_spec (toordinal d + k) MAXORDINAL);
    cbn [andb]; try discriminate.
  intros [= <-]. apply ord2ymd_spec. lia.
Qed.

Lemma add_days_ok (d : date) (k : Z) :
  1 <= toordinal d + k <= MAXORDINAL ->
  add_days d k = Ok (fromordinal (toordinal d + k)).
Proof.
  intros H. unfold add_days.
  destruct (Z.ltb_spec 0 (toordinal d + k)), (Z.leb_spec (toordinal d + k) MAXORDINAL);
    cbn [andb]; trivial; lia.
Qed.

End Calendar.

(** ** The order of strings *)

Section StringOrder.

Lemma str_eqb_eq (a b : str) : str_eqb a b = true <-> a = b.
Proof.
  revert b. induction a as [|x a IH]; intros [|y b]; cbn; try easy.
  rewrite andb_true_iff, Z.eqb_eq, IH. split.
  - intros [-> ->]; reflexivity.
  - intros [= -> ->]; auto.
Qed.

Lemma str_eqb_refl (a : str) : str_eqb a a = true.
Proof. now apply str_eqb_eq. Qed.

Lemma str_eqb_neq (a b : str) : str_eqb a b = false <-> a <> b.
Proof.
  rewrite <- str_eqb_eq. destruct (str_eqb a b); split; congruence.
Qed.

Lemma str_ltb_irrefl (a : str) : str_ltb a a = false.
Proof.
  induction a as [|x a IH]; cbn; trivial.
  now rewrite Z.ltb_irrefl.
Qed.

Lemma str_ltb_trans (a b c : str) :
  str_ltb a b = true -> str_ltb b c = true -> str_ltb a c = true.
Proof.
  revert b c. induction a as [|x a IH]; intros [|y b] [|z c]; cbn;
    try easy.
  destruct (Z.ltb_spec x y), (Z.ltb_spec y x), (Z.ltb_spec y z),
    (Z.ltb_spec z y), (Z.ltb_spec x z), (Z.ltb_spec z x);
    try easy; try lia.
  apply IH.
Qed.


Lemma str_ltb_connected (a b : str) :
  str_ltb a b = false -> str_ltb b a = false -> a = b.
Proof.
  revert b. induction a as [|x a IH]; intros [|y b]; cbn; try easy.
  destruct (Z.ltb_spec x y), (Z.ltb_spec y x); try easy; try lia.
  intros Hab Hba. f_equal; [lia | now apply IH].
Qed.

Lemma str_leb_trans (a b c : str) :
  str_leb a b = true -> str_leb b c = true -> str_leb a c = true.
Proof.
  unfold str_leb. rewrite !negb_true_iff. intros Hba Hcb.
  destruct (str_ltb c a) eqn:Hca; trivial.
  destruct (str_ltb a b) eqn:Hab.
  - pose proof (str_ltb_trans _ _ _ Hca Hab). congruence.
  - assert (a = b) by now apply str_ltb_connected. subst. congruence.
Qed.

(** The tuples [(date, name)] under [<]. *)
Lemma key_ltb_irrefl (k : str * str) : key_ltb k k = false.
Proof.
  unfold key_ltb. rewrite str_eqb_refl. cbn. apply str_ltb_irrefl.
Qed.

Lemma key_ltb_trans (a b c : str * str) :
  key_ltb a b = true -> key_ltb b c = true -> key_ltb a c = true.
Proof.
  destruct a as [a1 a2], b as [b1 b2], c as [c1 c2]. unfold key_ltb; cbn.
  destruct (str_eqb a1 b1) eqn:Eab; cbn.
  - apply str_eqb_eq in Eab. subst b1.
    destruct (str_eqb a1 c1) eqn:Eac; cbn; trivial.
    apply str_ltb_trans.
  - destruct (str_eqb b1 c1) eqn:Ebc; cbn.
    + apply str_eqb_eq in Ebc. subst c1. rewrite Eab. cbn. auto.
    + intros Hab Hbc. pose proof (str_ltb_trans _ _ _ Hab Hbc) as Hac.
      destruct (str_eqb a1 c1) eqn:Eac; cbn; trivial.
      apply str_eqb_eq in Eac. subst c1.
      now rewrite str_ltb_irrefl in Hac.
Qed.

Lemma key_ltb_connected (a b : str * str) :
  key_ltb a b = false -> key_ltb b a = false -> a = b.
Proof.
  destruct a as [a1 a2], b as [b1 b2]. unfold key_ltb; cbn.
  destruct (str_eqb a1 b1) eqn:Eab; cbn.
  - apply str_eqb_eq in Eab. subst b1. rewrite str_eqb_refl. cbn.
    intros H1 H2. f_equal. now apply str_ltb_connected.
  - destruct (str_eqb b1 a1) eqn:Eba; cbn.
    + apply str_eqb_eq in Eba. subst. now rewrite str_eqb_refl in Eab.
    + intros H1 H2. apply str_eqb_neq in Eab. exfalso. apply Eab.
      now apply str_ltb_connected.
Qed.

Lemma key_ltb_asym (a b : str * str) :
  key_ltb a b = true -> key_ltb b a = false.
Proof.
  intros H. destruct (key_ltb b a) eqn:E; trivial.
  pose proof (key_ltb_trans _ _ _ H E) as T.
  now rewrite key_ltb_irrefl in T.
Qed.

Lemma key_le_trans (x y z : entry) : key_le x y -> key_le y z -> key_le x z.
Proof.
  unfold key_le. intros Hyx Hzy.
  destruct (key_ltb (sort_key z) (sort_key x)) eqn:Hzx; trivial.
  destruct (key_ltb (sort_key x) (sort_key y)) eqn:Hxy.
  - pose proof (key_ltb_trans _ _ _ Hzx Hxy). congruence.
  - assert (E : sort_key x = sort_key y) by now apply key_ltb_connected.
    rewrite E in Hzx. congruence.
Qed.

End StringOrder.

(** ** The sort *)

Section Sorting.

Lemma insert_sorted_perm (x : entry) (l : list entry) :
  Permutation (x :: l) (insert_sorted x l).
Proof.
  induction l as [|y l IH]; cbn; trivial.
  destruct (key_ltb (sort_key y) (sort_key x)); trivial.
  rewrite perm_swap. now apply perm_skip.
Qed.

Lemma sort_perm (l : list entry) : Permutation l (sort l).
Proof.
  induction l as [|x l IH]; cbn; trivial.
  rewrite <- insert_sorted_perm. now apply perm_skip.
Qed.

Lemma insert_sorted_sorted (x : entry) (l : list entry) :
  StronglySorted key_le l -> StronglySorted key_le (insert_sorted x l).
Proof.
  induction 1 as [|y l Hs IH Hy]; cbn.
  - repeat constructor.
  - destruct (key_ltb (sort_key y) (sort_key x)) eqn:E.
    + constructor; trivial.
      rewrite Forall_forall in *. intros z Hz.
      apply (Permutation_in _ (Permutation_sym (insert_sorted_perm x l))) in Hz.
      destruct Hz as [<-|Hz]; [|now apply Hy].
      unfold key_le. now apply key_ltb_asym.
    + constructor; [now constructor|].
      constructor; trivial.
      rewrite Forall_forall in *. intros z Hz.
      apply key_le_trans with y; [exact E | now apply Hy].
Qed.

Lemma sort_sorted (l : list entry) : StronglySorted key_le (sort l).
Proof.
  induction l as [|x l IH]; cbn; [constructor | now apply insert_sorted_sorted].
Qed.

Lemma sort_In (l : list entry) (e : entry) : In e (sort l) <-> In e l.
Proof.
  split; apply Permutation_in; [symmetry|]; apply sort_perm.
Qed.

End Sorting.

(** ** The texts of dates *)

Section DateTexts.

Lemma cons_eq {A} (x y : A) (l l' : list A) :
  x :: l = y :: l' -> x = y /\ l = l'.
Proof. intros [= -> ->]. auto. Qed.


Lemma pad2_digits (n : Z) :
  0 <= n <= 99 ->
  exists a b, 0 <= a <= 9 /\ 0 <= b <= 9 /\ n = 10 * a + b
              /\ pad2 n = [48 + a; 48 + b].
Proof.
  intros H. exists (n / 10), (n mod 10). unfold pad2, digit.
  replace ((n / 10) mod 10) with (n / 10)
    by (Z.div_mod_to_equations; lia).
  repeat split; Z.div_mod_to_equations; lia.
Qed.

Lemma pad4_digits (n : Z) :
  0 <= n <= 9999 ->
  exists a b c d,
    0 <= a <= 9 /\ 0 <= b <= 9 /\ 0 <= c <= 9 /\ 0 <= d <= 9
    /\ n = 1000 * a + 100 * b + 10 * c + d
    /\ pad4 n = [48 + a; 48 + b; 48 + c; 48 + d].
Proof.
  intros H.
  exists (n / 1000), ((n / 100) mod 10), ((n / 10) mod 10), (n mod 10).
  unfold pad4, digit.
  replace ((n / 1000) mod 10) with (n / 1000)
    by (Z.div_mod_to_equations; lia).
  repeat split; Z.div_mod_to_equations; lia.
Qed.

Lemma valid_date_fields (d : date) :
  valid_date d = true ->
  1 <= year d <= 9999 /\ 0 <= month d <= 99 /\ 0 <= day d <= 99.
Proof.
  intros H. apply valid_date_iff in H. destruct H as (Hy & Hm & Hd).
  pose proof (days_in_month_pos (year d) (month d) Hm).
  unfold MINYEAR, MAXYEAR in Hy. lia.
Qed.

(** From the year 1000 on [%Y] writes four digits. *)
Lemma strftime_Y_pad4 (y : Z) : 1000 <= y -> strftime_Y y = pad4 y.
Proof.
  intros H. unfold strftime_Y.
  destruct (Z.ltb_spec y 10); [lia|]. destruct (Z.ltb_spec y 100); [lia|].
  destruct (Z.ltb_spec y 1000); [lia|]. reflexivity.
Qed.

(** The digits [%Y] writes: as many as the year has, the first not a
    zero. *)
Lemma strftime_Y_digits (y : Z) :
  1 <= y <= 9999 ->
  (exists a, 1 <= a <= 9 /\ y = a /\ strftime_Y y = [48 + a])
  \/ (exists a b,
        1 <= a <= 9 /\ 0 <= b <= 9 /\ y = 10 * a + b
        /\ strftime_Y y = [48 + a; 48 + b])
  \/ (exists a b c,
        1 <= a <= 9 /\ 0 <= b <= 9 /\ 0 <= c <= 9
        /\ y = 100 * a + 10 * b + c
        /\ strftime_Y y = [48 + a; 48 + b; 48 + c])
  \/ (exists a b c d,
        1 <= a <= 9 /\ 0 <= b <= 9 /\ 0 <= c <= 9 /\ 0 <= d <= 9
        /\ y = 1000 * a + 100 * b + 10 * c + d
        /\ strftime_Y y = [48 + a; 48 + b; 48 + c; 48 + d]).
Proof.
  intros H. unfold strftime_Y, pad4, digit.
  destruct (Z.ltb_spec y 10); [|destruct (Z.ltb_spec y 100);
                                [|destruct (Z.ltb_spec y 1000)]].
  - left. exists y. rewrite Z.mod_small by lia. repeat split; lia.
  - right. left. exists (y / 10), (y mod 10).
    replace ((y / 10) mod 10) with (y / 10)
      by (Z.div_mod_to_equations; lia).
    repeat split; Z.div_mod_to_equations; lia.
  - right. right. left. exists (y / 100), ((y / 10) mod 10), (y mod 10).
    replace ((y / 100) mod 10) with (y / 100)
      by (Z.div_mod_to_equations; lia).
    repeat split; Z.div_mod_to_equations; lia.
  - right. right. right.
    exists (y / 1000), ((y / 100) mod 10), ((y / 10) mod 10), (y mod 10).
    replace ((y / 1000) mod 10) with (y / 1000)
      by (Z.div_mod_to_equations; lia).
    repeat split; Z.div_mod_to_equations; lia.
Qed.

Ltac month_day_digits d H :=
  let Hy := fresh "Hy" in let Hm := fresh "Hm" in let Hd := fresh "Hd" in
  destruct (valid_date_fields d H) as (Hy & Hm & Hd);
  let m1 := fresh "m" in let m2 := fresh "m" in
  let d1 := fresh "d" in let d2 := fresh "d" in
  let Em := fresh "Em" in let Ed := fresh "Ed" in
  let Pm := fresh "Pm" in let Pd := fresh "Pd" in
  destruct (pad2_digits _ Hm) as (m1 & m2 & ? & ? & Em & Pm);
  destruct (pad2_digits _ Hd) as (d1 & d2 & ? & ? & Ed & Pd).

Ltac date_digits d H :=
  month_day_digits d H;
  let y1 := fresh "y" in let y2 := fresh "y" in
  let y3 := fresh "y" in let y4 := fresh "y" in
  let Ey := fresh "Ey" in let Py := fresh "Py" in
  match goal with
  | Hy : 1 <= year d <= 9999 |- _ =>
      destruct (pad4_digits (year d) ltac:(lia))
        as (y1 & y2 & y3 & y4 & ? & ? & ? & ? & Ey & Py)
  end.

(** Texts in the format [%Y.%m.%d] of years of four digits are ordered as
    their dates. *)
Lemma strftime_Ymd_ltb (a b : date) :
  valid_date a = true -> valid_date b = true ->
  1000 <= year a -> 1000 <= year b ->
  str_ltb (strftime_Ymd a) (strftime_Ymd b) = date_ltb a b.
Proof.
  intros Ha Hb Ya Yb. date_digits a Ha. date_digits b Hb.
  unfold strftime_Ymd, date_ltb. rewrite !strftime_Y_pad4 by trivial.
  rewrite Py, Pm, Pd, Py0, Pm0, Pd0. rewrite Ey, Em, Ed, Ey0, Em0, Ed0.
  change (py ".") with [46]. cbn [app str_ltb].
  repeat match goal with
  | |- context [?x <? ?y] => destruct (Z.ltb_spec x y)
  end; trivial; lia.
Qed.

(** The text tells the date, whatever the number of digits of the
    year. *)
Lemma strftime_Ymd_inj (a b : date) :
  valid_date a = true -> valid_date b = true ->
  strftime_Ymd a = strftime_Ymd b -> a = b.
Proof.
  intros Ha Hb. month_day_digits a Ha. month_day_digits b Hb.
  unfold strftime_Ymd. rewrite Pm, Pd, Pm0, Pd0.
  change (py ".") with [46].
  destruct (strftime_Y_digits _ Hy)
    as [(y1 & ? & Ey & ->)
       |[(y1 & y2 & ? & ? & Ey & ->)
        |[(y1 & y2 & y3 & ? & ? & ? & Ey & ->)
         |(y1 & y2 & y3 & y4 & ? & ? & ? & ? & Ey & ->)]]];
    destruct (strftime_Y_digits _ Hy0)
      as [(z1 & ? & Ez & ->)
         |[(z1 & z2 & ? & ? & Ez & ->)
          |[(z1 & z2 & z3 & ? & ? & ? & Ez & ->)
           |(z1 & z2 & z3 & z4 & ? & ? & ? & ? & Ez & ->)]]];
    cbn [app]; intros E;
    repeat match type of E with
    | _ :: _ = _ :: _ =>
        let E1 := fresh "E" in
        apply cons_eq in E; destruct E as (E1 & E)
    end; try discriminate; try lia;
    destruct a, b; cbn [year month day] in *; f_equal; lia.
Qed.

Lemma strftime_Ymd_leb (a b : date) :
  valid_date a = true -> valid_date b = true ->
  1000 <= year a -> 1000 <= year b ->
  str_leb (strftime_Ymd a) (strftime_Ymd b) = date_leb a b.
Proof.
  intros Ha Hb Ya Yb. unfold str_leb, date_leb. now rewrite strftime_Ymd_ltb.
Qed.

Lemma is_ascii_digit_iff (c : char) : is_ascii_digit c = true <-> 48 <= c <= 57.
Proof.
  unfold is_ascii_digit, between. cbn. rewrite andb_true_iff, !Z.leb_le. tauto.
Qed.

Lemma is_char_iff (x : ascii) (c : char) :
  is_char (String x EmptyString) c = true <-> c = Z.of_N (N_of_ascii x).
Proof.
  unfold is_char, between. cbn. rewrite andb_true_iff, !Z.leb_le. lia.
Qed.





End DateTexts.

(** ** The loop of [get_upcoming_birthdays] *)

Section Upcoming.

Lemma date_new_Ok (y m d : Z) (x : date) :
  date_new y m d = Ok x -> x = mkdate y m d /\ valid_date x = true.
Proof.
  unfold date_new.
  destruct ((MINYEAR <=? y) && (y <=? MAXYEAR)) eqn:Ey; cbn [negb];
    try discriminate.
  destruct ((1 <=? m) && (m <=? 12)) eqn:Em; cbn [negb]; try discriminate.
  destruct ((1 <=? d) && (d <=? days_in_month y m)) eqn:Ed; cbn [negb];
    try discriminate.
  intros [= <-]. split; trivial.
  unfold valid_date. cbn [year month day].
  apply andb_true_iff in Ey, Em, Ed.
  destruct Ey as [-> ->], Em as [-> ->], Ed as [-> ->]. reflexivity.
Qed.

Lemma date_new_valid (d : date) :
  valid_date d = true -> date_new (year d) (month d) (day d) = Ok d.
Proof.
  intros H. unfold valid_date in H. rewrite !andb_true_iff in H.
  destruct H as (((((H1 & H2) & H3) & H4) & H5) & H6).
  unfold date_new. rewrite H1, H2, H3, H4, H5, H6. cbn. now destruct d.
Qed.

Lemma replace_year_Ok (d : date) (y : Z) (x : date) :
  replace_year d y = Ok x ->
  x = mkdate y (month d) (day d) /\ valid_date x = true.
Proof. apply date_new_Ok. Qed.

Lemma next_occurrence_valid (today : date) (b : Birthday) (d : date) :
  next_occurrence today b = Ok d -> valid_date d = true.
Proof.
  unfold next_occurrence, bind.
  destruct (replace_year (value b) (year today)) as [x|] eqn:E;
    try discriminate.
  destruct (date_ltb x today).
  - intros H. now apply replace_year_Ok in H.
  - intros [= <-]. now apply replace_year_Ok in E.
Qed.

(** What lines 91 to 93 return is the next occurrence as the
    specification words it. *)
Lemma next_occurrence_spec (today : date) (b : Birthday) (d : date) :
  next_occurrence today b = Ok d -> d = nextOccurrence today (value b).
Proof.
  unfold next_occurrence, nextOccurrence, bind.
  destruct (replace_year (value b) (year today)) as [x|] eqn:E;
    try discriminate.
  apply replace_year_Ok in E. destruct E as (-> & _).
  destruct (date_ltb _ today).
  - intros H. now apply replace_year_Ok in H.
  - now intros [= <-].
Qed.

(** The occurrence has the month and the day of the birthday and falls
    in the year of [today] or in the next one. *)
Lemma next_occurrence_fields (today : date) (b : Birthday) (d : date) :
  next_occurrence today b = Ok d ->
  month d = month (value b) /\ day d = day (value b)
  /\ (year d = year today \/ year d = year today + 1).
Proof.
  unfold next_occurrence, bind.
  destruct (replace_year (value b) (year today)) as [x|] eqn:E;
    try discriminate.
  apply replace_year_Ok in E. destruct E as (-> & _).
  destruct (date_ltb _ today).
  - intros H. apply replace_year_Ok in H. destruct H as (-> & _). cbn. auto.
  - intros [= <-]. cbn. auto.
Qed.

Lemma weekday_range (d : date) : 0 <= weekday d <= 6.
Proof. unfold weekday. Z.div_mod_to_equations. lia. Qed.

(** The shift of lines 95 to 100. *)
Lemma congratulation_spec (d c : date) :
  valid_date d = true -> congratulation d = Ok c ->
  valid_date c = true
  /\ toordinal c
     = toordinal d
       + (if weekday d =? 5 then 2 else if weekday d =? 6 then 1 else 0)
  /\ 0 <= weekday c <= 4.
Proof.
  intros V. unfold congratulation. pose proof (weekday_range d) as R.
  destruct (Z.eqb_spec (weekday d) 5) as [E5|E5];
    [|destruct (Z.eqb_spec (weekday d) 6) as [E6|E6]].
  - intros H. apply add_days_spec in H. destruct H as (Vc & Oc).
    repeat split; trivial; unfold weekday in *; rewrite Oc;
      Z.div_mod_to_equations; lia.
  - intros H. apply add_days_spec in H. destruct H as (Vc & Oc).
    repeat split; trivial; unfold weekday in *; rewrite Oc;
      Z.div_mod_to_equations; lia.
  - intros [= <-]. repeat split; trivial; lia.
Qed.

Lemma loop_body_entry_of (today horizon : date) (r : Record_)
    (acc : list entry) :
  loop_body today horizon r acc
  = (o <- entry_of today horizon r ;; Ok (acc ++ option_list o)).
Proof.
  unfold loop_body, entry_of, bind.
  destruct (birthday r) as [b|]; cbn [option_list].
  - destruct (next_occurrence today b) as [d|]; trivial.
    destruct (date_leb today d && date_leb d horizon); cbn [option_list].
    + destruct (congratulation d); trivial.
    + now rewrite app_nil_r.
  - now rewrite app_nil_r.
Qed.

Lemma loop_spec (today horizon : date) (rs : list Record_) :
  forall acc res,
    loop today horizon rs acc = Ok res ->
    exists os,
      Forall2 (fun r o => entry_of today horizon r = Ok o) rs os
      /\ res = acc ++ flat_map option_list os.
Proof.
  induction rs as [|r rs IH]; intros acc res; cbn [loop].
  - intros [= <-]. exists []. split; [constructor | now rewrite app_nil_r].
  - rewrite loop_body_entry_of. unfold bind at 1 2.
    destruct (entry_of today horizon r) as [o|] eqn:E; try discriminate.
    intros H. apply IH in H. destruct H as (os & F & ->).
    exists (o :: os). split; [now constructor|].
    cbn [flat_map]. now rewrite app_assoc.
Qed.

Lemma Forall2_In_l {A B} (R : A -> B -> Prop) (l : list A) (l' : list B)
    (x : A) :
  Forall2 R l l' -> In x l -> exists y, In y l' /\ R x y.
Proof.
  induction 1 as [|a b l l' Hab F IH]; cbn; [easy|].
  intros [<-|H]; [now exists b; auto|].
  destruct (IH H) as (y & ? & ?). eauto.
Qed.

Lemma Forall2_In_r {A B} (R : A -> B -> Prop) (l : list A) (l' : list B)
    (y : B) :
  Forall2 R l l' -> In y l' -> exists x, In x l /\ R x y.
Proof.
  induction 1 as [|a b l l' Hab F IH]; cbn; [easy|].
  intros [<-|H]; [now exists a; auto|].
  destruct (IH H) as (x & ? & ?). eauto.
Qed.

(** What a normal return of [get_upcoming_birthdays] says: the horizon is
    seven days after [today], every record was processed without an
    exception, and the entries of the result are those the records gave. *)
Lemma get_upcoming_birthdays_Ok (today : date) (st : State)
    (res : list entry) :
  AddressBook_get_upcoming_birthdays today st = Ok res ->
  exists horizon,
    valid_date horizon = true
    /\ toordinal horizon = toordinal today + 7
    /\ (forall r, In r (values st) ->
          exists o, entry_of today horizon r = Ok o)
    /\ (forall e, In e res <->
          exists r, In r (values st)
                    /\ entry_of today horizon r = Ok (Some e))
    /\ StronglySorted key_le res.
Proof.
  unfold AddressBook_get_upcoming_birthdays, bind.
  destruct (add_days today 7) as [horizon|] eqn:Eh; try discriminate.
  destruct (loop today horizon (values st) []) as [l|] eqn:El;
    try discriminate.
  intros [= <-]. apply add_days_spec in Eh. destruct Eh as (Vh & Oh).
  apply loop_spec in El. destruct El as (os & F & ->). cbn [app].
  exists horizon. repeat split; trivial.
  - intros r Hr. destruct (Forall2_In_l _ _ _ _ F Hr) as (o & _ & Ho). eauto.
  - rewrite sort_In, in_flat_map. intros (o & Ho & He).
    destruct o as [e'|]; cbn in He; [|easy]. destruct He as [<-|[]].
    destruct (Forall2_In_r _ _ _ _ F Ho) as (r & Hr & Er). eauto.
  - intros (r & Hr & Er). rewrite sort_In, in_flat_map.
    destruct (Forall2_In_l _ _ _ _ F Hr) as (o & Ho & Eo).
    exists o. split; trivial. rewrite Er in Eo. injection Eo as <-.
    cbn. auto.
  - apply sort_sorted.
Qed.

(** When does [get_upcoming_birthdays] return? It does when the year
    after [today] is still a year of the calendar and no birthday of the
    book is a 29th of February. *)
Lemma replace_year_returns (d : date) (y : Z) :
  valid_date d = true -> MINYEAR <= y <= MAXYEAR ->
  ~ (month d = 2 /\ day d = 29) ->
  replace_year d y = Ok (mkdate y (month d) (day d)).
Proof.
  intros V Hy N. apply valid_date_iff in V. destruct V as (_ & Vm & Vd).
  apply (date_new_valid (mkdate y (month d) (day d))).
  apply valid_date_iff. cbn [year month day].
  unfold MINYEAR, MAXYEAR in Hy. repeat split; try lia.
  revert Vd. unfold days_in_month.
  destruct (Z.eqb_spec (month d) 2) as [E|E]; cbn [andb]; [|lia].
  rewrite E. change (2 =? 2) with true. cbn [andb].
  change (index DAYS_IN_MONTH 2) with 28.
  destruct (is_leap (year d)), (is_leap y); lia.
Qed.

Lemma next_occurrence_returns (today : date) (b : Birthday) :
  valid_date today = true -> year today < MAXYEAR ->
  valid_date (value b) = true ->
  ~ (month (value b) = 2 /\ day (value b) = 29) ->
  exists d, next_occurrence today b = Ok d.
Proof.
  intros Vt Hy Vb N. apply valid_date_iff in Vt. destruct Vt as (Vy & _).
  assert (Hy1 : MINYEAR <= year today <= MAXYEAR)
    by (unfold MINYEAR, MAXYEAR in *; lia).
  assert (Hy2 : MINYEAR <= year today + 1 <= MAXYEAR)
    by (unfold MINYEAR, MAXYEAR in *; lia).
  unfold next_occurrence, bind.
  rewrite (replace_year_returns _ _ Vb Hy1 N).
  destruct (date_ltb _ today); [|eauto].
  change (replace_year (mkdate (year today) (month (value b))
                               (day (value b))) (year today + 1))
    with (replace_year (value b) (year today + 1)).
  rewrite (replace_year_returns _ _ Vb Hy2 N). eauto.
Qed.

Lemma get_upcoming_birthdays_returns (today : date) (st : State) :
  valid_date today = true -> year today < MAXYEAR ->
  (forall r b, In r (values st) -> birthday r = Some b ->
     valid_date (value b) = true
     /\ ~ (month (value b) = 2 /\ day (value b) = 29)) ->
  exists res, AddressBook_get_upcoming_birthdays today st = Ok res.
Proof.
  intros Vt Hy Hb.
  pose proof (toordinal_range today Vt) as Rt.
  pose proof (toordinal_in_year today Vt) as Yt.
  pose proof (days_before_year_mono (year today + 1) MAXYEAR ltac:(lia)) as M.
  change (days_before_year MAXYEAR) with 3651694 in M.
  unfold MAXORDINAL in Rt.
  unfold AddressBook_get_upcoming_birthdays, bind.
  rewrite add_days_ok by (unfold MAXORDINAL; lia).
  set (horizon := fromordinal (toordinal today + 7)).
  destruct (ord2ymd_spec (toordinal today + 7)) as (Vh & Oh);
    [unfold MAXORDINAL; lia|].
  fold (fromordinal (toordinal today + 7)) in Vh, Oh. fold horizon in Vh, Oh.
  assert (L : forall rs acc,
            (forall r, In r rs -> In r (values st)) ->
            exists res, loop today horizon rs acc = Ok res).
  { induction rs as [|r rs IH]; intros acc Hin; cbn [loop]; [eauto|].
    assert (exists acc', loop_body today horizon r acc = Ok acc')
      as (acc' & ->).
    { unfold loop_body. destruct (birthday r) as [b|] eqn:Eb; [|eauto].
      destruct (Hb r b (Hin r (or_introl eq_refl)) Eb) as (Vb & N).
      destruct (next_occurrence_returns today b Vt Hy Vb N) as (d & En).
      pose proof (next_occurrence_valid _ _ _ En) as Vd.
      rewrite En. unfold bind at 1.
      destruct (date_leb today d); cbn [andb]; [|eauto].
      rewrite date_leb_spec by trivial.
      destruct (Z.leb_spec (toordinal d) (toordinal horizon)); [|eauto].
      pose proof (toordinal_range d Vd) as Rd.
      unfold congratulation.
      destruct (weekday d =? 5);
        [|destruct (weekday d =? 6)];
        rewrite ?add_days_ok by (unfold MAXORDINAL; lia);
        cbn [bind]; eauto. }
    cbn [bind]. apply IH. intros r' Hr'. apply Hin. now right. }
  destruct (L (values st) [] (fun r H => H)) as (res & ->). eauto.
Qed.

Lemma entry_of_Some (today horizon : date) (r : Record_) (e : entry) :
  entry_of today horizon r = Ok (Some e) ->
  exists b d c,
    birthday r = Some b /\ next_occurrence today b = Ok d
    /\ date_leb today d = true /\ date_leb d horizon = true
    /\ congratulation d = Ok c
    /\ e = mkEntry (value (name r)) (strftime_Ymd c).
Proof.
  unfold entry_of, bind. destruct (birthday r) as [b|]; try discriminate.
  destruct (next_occurrence today b) as [d|] eqn:En; try discriminate.
  destruct (date_leb today d) eqn:E1, (date_leb d horizon) eqn:E2;
    cbn [andb]; try discriminate.
  destruct (congratulation d) as [c|] eqn:Ec; try discriminate.
  intros [= <-]. exists b, d, c. repeat split; trivial.
Qed.

(** The test of line 94, on the record alone. *)
Lemma entry_of_window (today horizon : date) (r : Record_) (b : Birthday)
    (o : option entry) :
  valid_date today = true -> valid_date horizon = true ->
  toordinal horizon = toordinal today + 7 ->
  birthday r = Some b -> entry_of today horizon r = Ok o ->
  exists d,
    next_occurrence today b = Ok d
    /\ ((exists e, o = Some e /\ entry_name e = value (name r))
        <-> toordinal today <= toordinal d <= toordinal today + 7).
Proof.
  intros Vt Vh Oh Eb. unfold entry_of, bind. rewrite Eb.
  destruct (next_occurrence today b) as [d|] eqn:En; try discriminate.
  pose proof (next_occurrence_valid _ _ _ En) as Vd.
  rewrite !date_leb_spec by trivial. rewrite Oh.
  destruct (Z.leb_spec (toordinal today) (toordinal d)),
    (Z.leb_spec (toordinal d) (toordinal today + 7)); cbn [andb].
  - destruct (congratulation d) as [c|]; try discriminate.
    intros [= <-]. exists d. split; trivial. split; [lia|].
    intros _. eexists. split; reflexivity.
  - intros [= <-]. exists d. split; trivial.
    split; [intros (e & ? & _); discriminate | lia].
  - intros [= <-]. exists d. split; trivial.
    split; [intros (e & ? & _); discriminate | lia].
  - intros [= <-]. exists d. split; trivial.
    split; [intros (e & ? & _); discriminate | lia].
Qed.

Lemma NoDup_map_In {A B} (f : A -> B) (l : list A) (x y : A) :
  NoDup (map f l) -> In x l -> In y l -> f x = f y -> x = y.
Proof.
  induction l as [|a l IH]; cbn; [easy|].
  intros N. inversion_clear N as [|? ? Ha Hl].
  intros [<-|Hx] [<-|Hy] E; trivial.
  - exfalso. apply Ha. rewrite E. now apply in_map.
  - exfalso. apply Ha. rewrite <- E. now apply in_map.
  - now apply IH.
Qed.

(** A contact with a birthday appears in the result exactly when its next
    occurrence is at most seven days after [today]. *)
Lemma appears_iff_window (today : date) (st : State) (res : list entry)
    (r : Record_) (b : Birthday) :
  valid_date today = true ->
  AddressBook_get_upcoming_birthdays today st = Ok res ->
  In r (values st) -> birthday r = Some b ->
  exists d,
    next_occurrence today b = Ok d
    /\ (toordinal today <= toordinal d <= toordinal today + 7 ->
        appears r res)
    /\ (distinct_names st -> appears r res ->
        toordinal today <= toordinal d <= toordinal today + 7).
Proof.
  intros Vt Hres Hr Eb.
  destruct (get_upcoming_birthdays_Ok _ _ _ Hres)
    as (horizon & Vh & Oh & Hall & Hin & _).
  destruct (Hall r Hr) as (o & Eo).
  destruct (entry_of_window _ _ _ _ _ Vt Vh Oh Eb Eo) as (d & En & W).
  exists d. split; trivial. split.
  - intros Hw. apply W in Hw. destruct Hw as (e & -> & Ee).
    exists e. split; trivial. apply Hin. eauto.
  - intros Hd (e & He & Ee). apply W.
    apply Hin in He. destruct He as (r' & Hr' & Er').
    assert (r' = r) as ->.
    { apply (NoDup_map_In (fun r => value (name r)) (values st)); trivial.
      apply entry_of_Some in Er'.
      destruct Er' as (? & ? & ? & _ & _ & _ & _ & _ & ->). now cbn in Ee. }
    rewrite Eo in Er'. injection Er' as ->. eauto.
Qed.

End Upcoming.

(** ** The window of the upcoming birthdays *)

Section Window.

(** C1, as the code has it: take a book whose contacts have pairwise
    different names, any [today], and a contact of the book with a
    birthday. When [get_upcoming_birthdays] returns, the next occurrence
    of the birthday (its month and day with the year of [today], advanced
    to the next year when that date is earlier than [today]) is a date of
    the calendar, and the contact appears in the result if and only if
    [today <= nextOccurrence <= today + 7 days]: the horizon of line 86
    is seven days after [today] and the test of line 94 includes it, so
    the window has eight days. *)
Theorem C1_window_is_today_plus_seven (today : date) (st : State)
    (res : list entry) (r : Record_) (b : Birthday) :
  valid_date today = true -> distinct_names st ->
  AddressBook_get_upcoming_birthdays today st = Ok res ->
  In r (values st) -> birthday r = Some b ->
  valid_date (nextOccurrence today (value b)) = true
  /\ (appears r res
      <-> toordinal today <= toordinal (nextOccurrence today (value b))
          <= toordinal today + 7).
Proof.
  intros Vt Hd Hres Hr Eb.
  destruct (appears_iff_window _ _ _ _ _ Vt Hres Hr Eb) as (d & En & W1 & W2).
  pose proof (next_occurrence_valid _ _ _ En) as Vd.
  apply next_occurrence_spec in En. subst d.
  split; trivial. split; auto.
Qed.

Lemma C1_window_is_today_plus_seven_witness :
  valid_date (nextOccurrence (mkdate 2024 12 28) (mkdate 1985 1 4)) = true
  /\ (appears (contact "Bob" 1985 1 4) [mkEntry (py "Bob") (py "2025.01.06")]
      <-> toordinal (mkdate 2024 12 28)
          <= toordinal (nextOccurrence (mkdate 2024 12 28) (mkdate 1985 1 4))
          <= toordinal (mkdate 2024 12 28) + 7).
Proof.
  apply (C1_window_is_today_plus_seven (mkdate 2024 12 28)
           (book_of [contact "Bob" 1985 1 4])
           [mkEntry (py "Bob") (py "2025.01.06")] (contact "Bob" 1985 1 4)
           (mkField (mkdate 1985 1 4))).
  - reflexivity.
  - repeat constructor. intros [].
  - reflexivity.
  - left. reflexivity.
  - reflexivity.
Defined.

(** C1 as it is stated fails: on 2024-06-10 a contact born on a 17th of
    June appears in the result, and the next occurrence, 2024-06-17, is
    not within [today + 6 days]. *)
Lemma C1_six_day_bound_counterexample :
  valid_date june_10_2024 = true
  /\ In alice (values (book_of [alice]))
  /\ birthday alice = Some (mkField (mkdate 1990 6 17))
  /\ nextOccurrence june_10_2024 (mkdate 1990 6 17) = mkdate 2024 6 17
  /\ AddressBook_get_upcoming_birthdays june_10_2024 (book_of [alice])
     = Ok [mkEntry (py "Alice") (py "2024.06.17")]
  /\ appears alice [mkEntry (py "Alice") (py "2024.06.17")]
  /\ ~ (toordinal june_10_2024
        <= toordinal (nextOccurrence june_10_2024 (mkdate 1990 6 17))
        <= toordinal june_10_2024 + 6).
Proof.
  repeat split; try reflexivity.
  - left. reflexivity.
  - exists (mkEntry (py "Alice") (py "2024.06.17")). split; [left|]; reflexivity.
  - vm_compute. intros [_ H]. now apply H.
Qed.

(** The bound of the window when the query returns: a contact whose next
    occurrence is exactly seven days after [today] appears in the result,
    and one whose next occurrence is exactly eight days after [today] does
    not; on 2024-06-10 a contact born on a 18th of June, of any year, does
    not appear. *)
Lemma seven_days_in_eight_days_out (today : date) (st : State)
    (res : list entry) (r : Record_) (b : Birthday) :
  valid_date today = true -> distinct_names st ->
  AddressBook_get_upcoming_birthdays today st = Ok res ->
  In r (values st) -> birthday r = Some b ->
  (toordinal (nextOccurrence today (value b)) = toordinal today + 7 ->
   appears r res)
  /\ (toordinal (nextOccurrence today (value b)) = toordinal today + 8 ->
      ~ appears r res)
  /\ (today = june_10_2024 -> month (value b) = 6 -> day (value b) = 18 ->
      ~ appears r res).
Proof.
  intros Vt Hd Hres Hr Eb.
  destruct (appears_iff_window _ _ _ _ _ Vt Hres Hr Eb) as (d & En & W1 & W2).
  apply next_occurrence_spec in En. subst d.
  split; [|split].
  - intros E. apply W1. lia.
  - intros E A. specialize (W2 Hd A). lia.
  - intros -> Em Ed A. specialize (W2 Hd A). revert W2.
    unfold nextOccurrence. rewrite Em, Ed. vm_compute.
    intros [_ W2]. now apply W2.
Qed.

(** C2: the code loses a contact that the claim includes. On 2024-06-10
    Alice, born on a 17th of June, has her next occurrence exactly seven
    days after [today]; in a book that also holds Dan, born on a 29th of
    February, [get_upcoming_birthdays] raises the [ValueError] of
    [replace(year=2025)] at line 93, so there is no result that includes
    her. In the book without Dan she is listed. *)
Theorem C2_seven_days_out_lost_to_february_29 :
  In alice (values (book_of [alice; dan]))
  /\ birthday alice = Some (mkField (mkdate 1990 6 17))
  /\ toordinal (nextOccurrence june_10_2024 (mkdate 1990 6 17))
     = toordinal june_10_2024 + 7
  /\ AddressBook_get_upcoming_birthdays june_10_2024 (book_of [alice; dan])
     = Raise (ValueError (py "day is out of range for month"))
  /\ AddressBook_get_upcoming_birthdays june_10_2024 (book_of [alice])
     = Ok [mkEntry (py "Alice") (py "2024.06.17")].
Proof. repeat split. left. reflexivity. Qed.

(** The book of C2 on 2024-06-10: the contact of the 17th is listed, the
    contact of the 18th is not. *)
Example upcoming_june_17_and_18 :
  AddressBook_get_upcoming_birthdays june_10_2024 (book_of [alice; carl])
  = Ok [mkEntry (py "Alice") (py "2024.06.17")].
Proof. reflexivity. Qed.

(** C3: the code raises where the claim wants a normal return. On
    2023-03-01, a year that is not a leap year, a book with one contact
    born on a 29th of February makes [get_upcoming_birthdays] raise the
    [ValueError] of [replace(year=2023)] at line 91. *)
Theorem C3_february_29_raises :
  is_leap (year march_1_2023) = false
  /\ birthday dan = Some (mkField (mkdate 2000 2 29))
  /\ AddressBook_get_upcoming_birthdays march_1_2023 (book_of [dan])
     = Raise (ValueError (py "day is out of range for month")).
Proof. repeat split. Qed.

(** More generally no book with such a contact gets a result in a year
    that is not a leap year. *)
Lemma february_29_never_returns (today : date) (st : State) (r : Record_)
    (b : Birthday) :
  is_leap (year today) = false ->
  In r (values st) -> birthday r = Some b ->
  month (value b) = 2 -> day (value b) = 29 ->
  forall res, AddressBook_get_upcoming_birthdays today st <> Ok res.
Proof.
  intros L Hr Eb Em Ed res Hres.
  destruct (get_upcoming_birthdays_Ok _ _ _ Hres)
    as (horizon & _ & _ & Hall & _).
  destruct (Hall r Hr) as (o & Eo). revert Eo.
  unfold entry_of, next_occurrence, replace_year, date_new, bind.
  rewrite Eb, Em, Ed. unfold days_in_month. rewrite L.
  destruct ((MINYEAR <=? year today) && (year today <=? MAXYEAR));
    cbn; discriminate.
Qed.

End Window.

(** ** The weekend shift and the order of the result *)

Section ResultShape.

(** C6: for every book and every [today], every entry of the result of
    [get_upcoming_birthdays] comes from a contact of the book whose next
    occurrence [d] was moved to the congratulation date [c]: by two days
    from a Saturday, by one day from a Sunday, not at all otherwise. [c]
    is a day from Monday to Friday, it is not before [d], and the text of
    the entry denotes no Saturday and no Sunday. *)
Theorem C6_congratulation_on_a_weekday (today : date) (st : State)
    (res : list entry) (e : entry) :
  AddressBook_get_upcoming_birthdays today st = Ok res -> In e res ->
  exists r b d c,
    In r (values st) /\ birthday r = Some b
    /\ next_occurrence today b = Ok d
    /\ e = mkEntry (value (name r)) (strftime_Ymd c)
    /\ valid_date c = true
    /\ toordinal c
       = toordinal d
         + (if weekday d =? 5 then 2 else if weekday d =? 6 then 1 else 0)
    /\ toordinal d <= toordinal c
    /\ 0 <= weekday c <= 4
    /\ (forall c', valid_date c' = true ->
          congratulation_date e = strftime_Ymd c' ->
          weekday c' <> 5 /\ weekday c' <> 6).
Proof.
  intros Hres He.
  destruct (get_upcoming_birthdays_Ok _ _ _ Hres)
    as (horizon & _ & _ & _ & Hin & _).
  apply Hin in He. destruct He as (r & Hr & Er).
  apply entry_of_Some in Er.
  destruct Er as (b & d & c & Eb & En & _ & _ & Ec & ->).
  pose proof (next_occurrence_valid _ _ _ En) as Vd.
  destruct (congratulation_spec _ _ Vd Ec) as (Vc & Oc & Wc).
  exists r, b, d, c.
  split; trivial. split; trivial. split; trivial. split; trivial.
  split; trivial. split; trivial.
  split; [rewrite Oc; destruct (weekday d =? 5), (weekday d =? 6); lia|].
  split; trivial.
  intros c' Vc' Ec'. cbn [congratulation_date] in Ec'.
  apply strftime_Ymd_inj in Ec'; trivial. subst c'. lia.
Qed.

Lemma C6_congratulation_on_a_weekday_witness :
  exists r b d c,
    In r (values (book_of [alice; bob])) /\ birthday r = Some b
    /\ next_occurrence june_10_2024 b = Ok d
    /\ mkEntry (py "Bob") (py "2024.06.17")
       = mkEntry (value (name r)) (strftime_Ymd c)
    /\ valid_date c = true
    /\ toordinal c
       = toordinal d
         + (if weekday d =? 5 then 2 else if weekday d =? 6 then 1 else 0)
    /\ toordinal d <= toordinal c
    /\ 0 <= weekday c <= 4
    /\ (forall c', valid_date c' = true ->
          congratulation_date (mkEntry (py "Bob") (py "2024.06.17"))
          = strftime_Ymd c' ->
          weekday c' <> 5 /\ weekday c' <> 6).
Proof.
  apply (C6_congratulation_on_a_weekday june_10_2024 (book_of [alice; bob])
           [mkEntry (py "Alice") (py "2024.06.17");
            mkEntry (py "Bob") (py "2024.06.17")]).
  - reflexivity.
  - right. left. reflexivity.
Defined.

(** Bob's birthday of 2024 is a Saturday, the 15th of June; the entry is
    for the Monday after. *)
Example saturday_moves_to_monday :
  weekday (mkdate 2024 6 15) = 5
  /\ AddressBook_get_upcoming_birthdays june_10_2024 (book_of [bob])
     = Ok [mkEntry (py "Bob") (py "2024.06.17")].
Proof. split; reflexivity. Qed.







End ResultShape.

(** ** The pattern of [strptime] *)

Section Pattern.

Lemma between_iff (lo hi : ascii) (c : char) :
  between (String lo EmptyString) (String hi EmptyString) c = true
  <-> Z.of_N (N_of_ascii lo) <= c <= Z.of_N (N_of_ascii hi).
Proof.
  unfold between. cbn [py map list_ascii_of_string].
  rewrite andb_true_iff, !Z.leb_le. tauto.
Qed.

Lemma decimal_value_ascii (c : char) :
  48 <= c <= 57 -> decimal_value c = Some (c - 48).
Proof.
  intros H. unfold decimal_value, decimal_zeros. cbn [List.find].
  unfold in_range at 1. cbn [fst snd].
  destruct (Z.leb_spec 48 c), (Z.leb_spec c (48 + 9)); trivial; lia.
Qed.

Lemma isdecimal_char_ascii (c : char) :
  48 <= c <= 57 -> isdecimal_char c = true.
Proof.
  intros H. unfold isdecimal_char. now rewrite decimal_value_ascii.
Qed.

Lemma two_Some {A} (p q : char -> bool) (s : str)
    (k : str -> str -> option A) (x : A) :
  two p q s k = Some x ->
  exists a b rest,
    s = a :: b :: rest /\ p a = true /\ q b = true
    /\ k [a; b] rest = Some x.
Proof.
  unfold two. destruct s as [|a [|b rest]]; try discriminate.
  destruct (p a) eqn:Pa, (q b) eqn:Qb; cbn [andb]; try discriminate.
  intros H. exists a, b, rest. auto.
Qed.

Lemma one_Some {A} (p : char -> bool) (s : str)
    (k : str -> str -> option A) (x : A) :
  one p s k = Some x ->
  exists a rest, s = a :: rest /\ p a = true /\ k [a] rest = Some x.
Proof.
  unfold one. destruct s as [|a rest]; try discriminate.
  destruct (p a) eqn:Pa; try discriminate.
  intros H. exists a, rest. auto.
Qed.

Lemma alternatives_Some {A} (alts : list (option A)) (x : A) :
  alternatives alts = Some x -> In (Some x) alts.
Proof.
  induction alts as [|[y|] alts IH]; cbn; try discriminate.
  - intros [= ->]. now left.
  - intros H. right. now apply IH.
Qed.

Lemma dot_Some {A} (s : str) (k : str -> option A) (x : A) :
  dot s k = Some x -> exists rest, s = 46 :: rest /\ k rest = Some x.
Proof.
  unfold dot. destruct s as [|a rest]; try discriminate.
  destruct (is_char "." a) eqn:E; try discriminate.
  apply is_char_iff in E. cbn in E. subst a. eauto.
Qed.

Ltac split_alternatives H :=
  apply alternatives_Some in H; cbn [In] in H;
  repeat match type of H with
  | _ \/ _ => destruct H as [H|H]
  | False => destruct H
  | two _ _ _ _ = Some _ =>
      apply two_Some in H;
      let a := fresh "a" in let b := fresh "b" in let rest := fresh "rest" in
      let Pa := fresh "Pa" in let Qb := fresh "Qb" in
      destruct H as (a & b & rest & -> & Pa & Qb & H);
      exists [a; b], rest
  | one _ _ _ = Some _ =>
      apply one_Some in H;
      let a := fresh "a" in let rest := fresh "rest" in
      let Pa := fresh "Pa" in
      destruct H as (a & rest & -> & Pa & H);
      exists [a], rest
  end.

(** What the groups match. *)
Lemma group_d_Some {A} (s : str) (k : str -> str -> option A) (x : A) :
  group_d s k = Some x ->
  exists D rest, s = D ++ rest /\ day_text D = true /\ k D rest = Some x.
Proof.
  unfold group_d. intros H. split_alternatives H;
    (split; [reflexivity|]; split; [|assumption]);
    cbn [day_text]; rewrite ?Pa, ?Qb; cbn [andb orb];
    rewrite ?orb_true_r; reflexivity.
Qed.

Lemma group_m_Some {A} (s : str) (k : str -> str -> option A) (x : A) :
  group_m s k = Some x ->
  exists M rest, s = M ++ rest /\ month_text M = true /\ k M rest = Some x.
Proof.
  unfold group_m. intros H. split_alternatives H;
    (split; [reflexivity|]; split; [|assumption]);
    cbn [month_text]; rewrite ?Pa, ?Qb; cbn [andb orb];
    rewrite ?orb_true_r; reflexivity.
Qed.

Lemma group_Y_Some {A} (s : str) (k : str -> str -> option A) (x : A) :
  group_Y s k = Some x ->
  exists Y rest, s = Y ++ rest /\ year_text Y = true /\ k Y rest = Some x.
Proof.
  unfold group_Y. destruct s as [|a [|b [|c [|d rest]]]]; try discriminate.
  destruct (isdecimal_char a && isdecimal_char b
            && isdecimal_char c && isdecimal_char d) eqn:E;
    try discriminate.
  intros H. exists [a; b; c; d], rest. repeat split; trivial.
  cbn [year_text forallb]. rewrite !andb_true_iff in *. tauto.
Qed.

(** A match splits the text into day, month, year and what is left. *)
Lemma regex_match_Some (s D M Y rest : str) :
  regex_match s = Some (D, M, Y, rest) ->
  s = D ++ py "." ++ M ++ py "." ++ Y ++ rest
  /\ day_text D = true /\ month_text M = true /\ year_text Y = true.
Proof.
  unfold regex_match. intros H.
  apply group_d_Some in H. destruct H as (D' & s1 & -> & HD & H).
  apply dot_Some in H. destruct H as (s2 & -> & H).
  apply group_m_Some in H. destruct H as (M' & s3 & -> & HM & H).
  apply dot_Some in H. destruct H as (s4 & -> & H).
  apply group_Y_Some in H. destruct H as (Y' & s5 & -> & HY & H).
  injection H as <- <- <- <-. auto.
Qed.

Lemma not_decimal_dot : isdecimal_char 46 = false.
Proof. reflexivity. Qed.

(** The alternatives of a group do not overlap before a dot. *)
Lemma group_d_dot {A} (D rest : str) (k : str -> str -> option A) (x : A) :
  day_text D = true -> k D (46 :: rest) = Some x ->
  group_d (D ++ 46 :: rest) k = Some x.
Proof.
  destruct D as [|a [|b [|? ?]]]; try discriminate; cbn [day_text app];
    intros HD Hk; unfold group_d, two, one, alternatives.
  - rewrite HD, Hk, not_decimal_dot.
    replace (between "0" "1" 46) with false by reflexivity.
    replace (between "1" "9" 46) with false by reflexivity.
    rewrite !andb_false_r. reflexivity.
  - rewrite Hk.
    assert (HD' : (a = 51 /\ 48 <= b <= 49)
                  \/ (49 <= a <= 50 /\ isdecimal_char b = true)
                  \/ (a = 48 /\ 49 <= b <= 57)
                  \/ (a = 32 /\ 49 <= b <= 57)).
    { revert HD.
      rewrite !orb_true_iff, !andb_true_iff, !is_char_iff, !between_iff.
      cbn. tauto. }
    destruct (is_char "3" a && between "0" "1" b) eqn:E1; trivial.
    destruct (between "1" "2" a && isdecimal_char b) eqn:E2; trivial.
    destruct (is_char "0" a && between "1" "9" b) eqn:E3; trivial.
    apply andb_false_iff in E1, E2, E3.
    rewrite <- ?not_true_iff_false, ?is_char_iff, ?between_iff in E1.
    rewrite <- ?not_true_iff_false, ?is_char_iff, ?between_iff in E2.
    rewrite <- ?not_true_iff_false, ?is_char_iff, ?between_iff in E3.
    cbn in E1, E2, E3.
    destruct (between "1" "9" a) eqn:E4.
    + exfalso. apply between_iff in E4. cbn in E4. intuition lia.
    + destruct (is_char " " a && between "1" "9" b) eqn:E5; trivial.
      exfalso. apply andb_false_iff in E5.
      rewrite <- ?not_true_iff_false, ?is_char_iff, ?between_iff in E5.
      cbn in E5. intuition lia.
Qed.

Lemma group_m_dot {A} (M rest : str) (k : str -> str -> option A) (x : A) :
  month_text M = true -> k M (46 :: rest) = Some x ->
  group_m (M ++ 46 :: rest) k = Some x.
Proof.
  destruct M as [|a [|b [|? ?]]]; try discriminate; cbn [month_text app];
    intros HM Hk; unfold group_m, two, one, alternatives.
  - rewrite HM, Hk.
    replace (between "0" "2" 46) with false by reflexivity.
    replace (between "1" "9" 46) with false by reflexivity.
    rewrite !andb_false_r. reflexivity.
  - rewrite Hk.
    assert (HM' : (a = 49 /\ 48 <= b <= 50) \/ (a = 48 /\ 49 <= b <= 57)).
    { revert HM.
      rewrite !orb_true_iff, !andb_true_iff, !is_char_iff, !between_iff.
      cbn. tauto. }
    destruct (is_char "1" a && between "0" "2" b) eqn:E1; trivial.
    destruct (is_char "0" a && between "1" "9" b) eqn:E2; trivial.
    exfalso. apply andb_false_iff in E1, E2.
    rewrite <- ?not_true_iff_false, ?is_char_iff, ?between_iff in E1.
    rewrite <- ?not_true_iff_false, ?is_char_iff, ?between_iff in E2.
    cbn in E1, E2. intuition lia.
Qed.

Lemma group_Y_all {A} (Y rest : str) (k : str -> str -> option A) :
  year_text Y = true -> group_Y (Y ++ rest) k = k Y rest.
Proof.
  destruct Y as [|a [|b [|c [|d [|? ?]]]]]; try discriminate.
  cbn [year_text forallb app]. unfold group_Y.
  destruct (isdecimal_char a), (isdecimal_char b), (isdecimal_char c),
    (isdecimal_char d); cbn [andb]; try discriminate; reflexivity.
Qed.

Lemma regex_match_complete (D M Y rest : str) :
  day_text D = true -> month_text M = true -> year_text Y = true ->
  regex_match (D ++ py "." ++ M ++ py "." ++ Y ++ rest)
  = Some (D, M, Y, rest).
Proof.
  intros HD HM HY. unfold regex_match. change (py ".") with [46].
  cbn [app]. apply group_d_dot; trivial.
  unfold dot at 1. change (is_char "." 46) with true. cbv iota.
  apply group_m_dot; trivial.
  unfold dot at 1. change (is_char "." 46) with true. cbv iota.
  now rewrite group_Y_all.
Qed.

Lemma strptime_dmY_raises (s : str) (e : exn) :
  strptime_dmY s = Raise e -> exists msg, e = ValueError msg.
Proof.
  unfold strptime_dmY.
  destruct (regex_match s) as [[[[D M] Y] [|? ?]]|];
    try (intros [= <-]; eauto; fail).
  destruct (int Y), (int M), (int D); try (intros [= <-]; eauto; fail).
  unfold date_new.
  repeat match goal with
  | |- context [if ?c then _ else _] => destruct c
  end; intros [= <-]; eauto.
Qed.

(** What [strptime] reads, and only that. *)
Lemma strptime_dmY_Ok (s : str) (dt : date) :
  strptime_dmY s = Ok dt <-> spells s dt /\ valid_date dt = true.
Proof.
  unfold strptime_dmY, spells. split.
  - destruct (regex_match s) as [[[[D M] Y] rest]|] eqn:Em; try discriminate.
    apply regex_match_Some in Em. destruct Em as (-> & HD & HM & HY).
    destruct rest; try discriminate.
    destruct (int Y) as [y|] eqn:EY; try discriminate.
    destruct (int M) as [m|] eqn:EM; try discriminate.
    destruct (int D) as [d|] eqn:ED; try discriminate.
    intros H. apply date_new_Ok in H. destruct H as (-> & V).
    split; trivial. exists D, M, Y. rewrite app_nil_r.
    cbn [year month day]. auto 10.
  - intros ((D & M & Y & -> & HD & HM & HY & EY & EM & ED) & V).
    rewrite <- (app_nil_r Y) at 1.
    rewrite regex_match_complete by trivial.
    rewrite EY, EM, ED. now apply date_new_valid.
Qed.

End Pattern.

(** ** The field classes *)

Section Fields.




Lemma Birthday_init_Ok (s : str) (b : Birthday) :
  Birthday_init s = Ok b <-> strptime_dmY s = Ok (value b).
Proof.
  unfold Birthday_init. destruct (strptime_dmY s) as [dt|e] eqn:E.
  - destruct b as [d]. cbn. split; intros [= ->]; reflexivity.
  - apply strptime_dmY_raises in E. destruct E as (msg & ->).
    split; discriminate.
Qed.

Lemma Birthday_init_raises (s : str) (e : exn) :
  Birthday_init s = Raise e ->
  e = ValueError (py "Invalid date format. Use DD.MM.YYYY").
Proof.
  unfold Birthday_init. destruct (strptime_dmY s) as [dt|e'] eqn:E;
    try discriminate.
  apply strptime_dmY_raises in E. destruct E as (msg & ->). congruence.
Qed.






Lemma isdigit_char_ascii (c : char) :
  is_ascii_digit c = true -> isdigit_char c = true.
Proof.
  rewrite is_ascii_digit_iff. intros H. unfold isdigit_char.
  now rewrite isdecimal_char_ascii.
Qed.

Lemma len_10 {A} (l : list A) : len l = 10 <-> List.length l = 10%nat.
Proof. unfold len. lia. Qed.

(** C5, as the code has it: [Phone(s)] succeeds exactly when [s] has ten
    characters that are all digits for [str.isdigit], and then it stores
    [s] itself; these are the texts of ten decimal digits 0 to 9 and also
    texts with other digit characters of Unicode. Every other construction
    fails with the validation error. *)
Theorem C5_phone_accepts_ten_isdigit_characters (s : str) :
  (forall p, Phone_init s = Ok p
             <-> List.length s = 10%nat
                 /\ forallb isdigit_char s = true /\ p = mkField s)
  /\ (ten_decimal_digits s = true ->
      Phone_init s = Ok (mkField s) /\ value (mkField s) = s)
  /\ ((exists p, Phone_init s = Ok p)
      \/ Phone_init s
         = Raise (ValueError
                    (py "Phone number must contain exactly 10 digits."))).
Proof.
  assert (Hs : isdigit s && (len s =? 10) = true
               <-> List.length s = 10%nat /\ forallb isdigit_char s = true).
  { rewrite andb_true_iff, Z.eqb_eq, len_10. unfold isdigit.
    destruct s; cbn [List.length]; [split; intros []; discriminate|]. tauto. }
  unfold Phone_init. destruct (isdigit s && (len s =? 10)) eqn:E; cbn [negb].
  - assert (Hs' := proj1 Hs eq_refl). split; [|split].
    + intros p. split; [intros [= <-]; tauto | intros (_ & _ & ->); trivial].
    + auto.
    + left. eauto.
  - split; [|split].
    + intros p. split; [discriminate|]. intros (H1 & H2 & _).
      assert (false = true) by (apply Hs; auto). discriminate.
    + unfold ten_decimal_digits. rewrite andb_true_iff, Z.eqb_eq, len_10.
      intros (H1 & H2). assert (false = true); [|discriminate].
      apply Hs. split; trivial.
      rewrite forallb_forall in *. intros c Hc.
      now apply isdigit_char_ascii, H2.
    + now right.
Qed.

(** C5 as it is stated fails: the text of ten superscript twos (U+00B2)
    has no decimal digit, and [Phone] accepts it. *)
Lemma C5_superscript_digits_counterexample :
  Phone_init (repeat 178 10) = Ok (mkField (repeat 178 10))
  /\ ten_decimal_digits (repeat 178 10) = false
  /\ existsb isdecimal_char (repeat 178 10) = false.
Proof. repeat split. Qed.

End Fields.

(** ** The dictionary and the store *)

Section Store.

Lemma dict_get_set_same (d : list (str * addr)) (k : str) (a : addr) :
  dict_get (dict_set d k a) k = Some a.
Proof.
  induction d as [|[k' a'] d IH]; cbn.
  - now rewrite str_eqb_refl.
  - destruct (str_eqb k' k) eqn:E; cbn; now rewrite E.
Qed.

Lemma dict_get_set_other (d : list (str * addr)) (k k' : str) (a : addr) :
  k' <> k -> dict_get (dict_set d k a) k' = dict_get d k'.
Proof.
  intros N. induction d as [|[k0 a0] d IH]; cbn.
  - apply str_eqb_neq in N. destruct (str_eqb k k') eqn:E; trivial.
    apply str_eqb_eq in E. subst. now rewrite str_eqb_refl in N.
  - destruct (str_eqb k0 k) eqn:E; cbn.
    + apply str_eqb_eq in E. subst k0.
      destruct (str_eqb k k') eqn:E'; trivial.
      apply str_eqb_eq in E'. congruence.
    + now rewrite IH.
Qed.

Lemma dict_set_keys (d : list (str * addr)) (k : str) (a a0 : addr) :
  dict_get d k = Some a0 -> map fst (dict_set d k a) = map fst d.
Proof.
  induction d as [|[k' a'] d IH]; cbn; [discriminate|].
  destruct (str_eqb k' k); cbn; trivial.
  intros H. now rewrite IH.
Qed.

Lemma set_nth_same {A} (l : list A) (i : nat) (x dflt : A) :
  nth i l dflt = x -> set_nth l i x = l.
Proof.
  revert i. induction l as [|y l IH]; intros [|i]; cbn; trivial.
  - now intros ->.
  - intros H. now rewrite IH.
Qed.

Lemma nth_app_length {A} (l : list A) (x dflt : A) :
  nth (List.length l) (l ++ [x]) dflt = x.
Proof. induction l; cbn; trivial. Qed.

Lemma set_nth_app_length {A} (l : list A) (x y : A) :
  set_nth (l ++ [x]) (List.length l) y = l ++ [y].
Proof. induction l; cbn; trivial. now f_equal. Qed.

Lemma nth_app_below {A} (l l' : list A) (i : nat) (dflt : A) :
  (i < List.length l)%nat -> nth i (l ++ l') dflt = nth i l dflt.
Proof. intros H. now apply app_nth1. Qed.

End Store.

(** ** Records and the book *)

Section Book.

(** C8: in a book that has a contact under the name [n], [add_record] of
    another record of name [n] puts that record under [n]: [find] then
    gives the new record, whose fields are as they were before the call,
    so nothing of the old phones and birthday is kept; the objects, the
    keys and the other entries of the book are as before. The call cannot
    raise. *)
Theorem C8_add_record_overwrites (st : State) (old new : addr) (n : str) :
  AddressBook_find n st = Some old ->
  value (name (deref st new)) = n ->
  let st' := AddressBook_add_record new st in
  AddressBook_find n st' = Some new
  /\ deref st' new = deref st new
  /\ phones (deref st' new) = phones (deref st new)
  /\ birthday (deref st' new) = birthday (deref st new)
  /\ objects st' = objects st
  /\ map fst (data st') = map fst (data st)
  /\ (forall k, k <> n -> AddressBook_find k st' = AddressBook_find k st).
Proof.
  intros Hold Hn st'. subst st'.
  unfold AddressBook_add_record, AddressBook_find in *. rewrite Hn.
  cbn [data objects]. unfold deref. cbn [objects].
  repeat split.
  - apply dict_get_set_same.
  - now apply dict_set_keys with old.
  - intros k Hk. now apply dict_get_set_other.
Qed.

Lemma C8_add_record_overwrites_witness :
  let st := mkState [alice; contact "Alice" 2001 1 2]
                    [(py "Alice", 0%nat)] in
  let st' := AddressBook_add_record 1%nat st in
  AddressBook_find (py "Alice") st' = Some 1%nat
  /\ deref st' 1%nat = deref st 1%nat
  /\ phones (deref st' 1%nat) = phones (deref st 1%nat)
  /\ birthday (deref st' 1%nat) = birthday (deref st 1%nat)
  /\ objects st' = objects st
  /\ map fst (data st') = map fst (data st)
  /\ (forall k, k <> py "Alice" ->
        AddressBook_find k st' = AddressBook_find k st).
Proof.
  intros st.
  apply (C8_add_record_overwrites st 0%nat 1%nat (py "Alice"));
    reflexivity.
Defined.

Lemma edit_phone_loop_absent (ps : list Phone) (old_phone new_phone : str) :
  (forall p, In p ps -> value p <> old_phone) ->
  Record_edit_phone_loop ps old_phone new_phone = Ok ps.
Proof.
  induction ps as [|p ps IH]; cbn [Record_edit_phone_loop]; trivial.
  intros H.
  assert (E : str_eqb (value p) old_phone = false).
  { apply str_eqb_neq, H. now left. }
  rewrite E, IH; trivial. intros q Hq. apply H. now right.
Qed.

(** C9: when no phone of a record equals [old_phone], [edit_phone] returns
    normally and the record is as it was, whatever [new_phone] is; the
    store in which the record lives is unchanged too. *)
Theorem C9_edit_phone_absent_is_noop (r : Record_)
    (old_phone new_phone : str) :
  (forall p, In p (phones r) -> value p <> old_phone) ->
  Record_edit_phone r old_phone new_phone = Ok r
  /\ (forall st a, deref st a = r ->
        mutate a (fun self => Record_edit_phone self old_phone new_phone) st
        = (Ok tt, st)).
Proof.
  intros H.
  assert (E : Record_edit_phone r old_phone new_phone = Ok r).
  { unfold Record_edit_phone. rewrite edit_phone_loop_absent by trivial.
    cbn. now destruct r. }
  split; trivial.
  intros st a Ha. unfold mutate. rewrite Ha, E.
  rewrite (set_nth_same _ _ _ (Record_init [])) by exact Ha.
  now destruct st.
Qed.

Lemma C9_edit_phone_absent_is_noop_witness :
  let r := mkRecord (mkField (py "Alice")) [mkField (py "0123456789")] None in
  Record_edit_phone r (py "1111111111") (py "not a phone") = Ok r
  /\ (forall st a, deref st a = r ->
        mutate a (fun self =>
                    Record_edit_phone self (py "1111111111")
                                      (py "not a phone")) st
        = (Ok tt, st)).
Proof.
  intros r. apply (C9_edit_phone_absent_is_noop r).
  intros p [<-|[]]. discriminate.
Defined.

End Book.

(** ** The command handlers *)

Section Handlers.

Lemma unpack_error_message (expected : Z) (args : list str) :
  exists msg, unpack_error expected args = ValueError (110 :: msg).
Proof. unfold unpack_error. cbn [py map list_ascii_of_string app]. eauto. Qed.

(** [add_birthday] answers with one of three kinds of text, none of which
    is the text for a missing contact. *)
Lemma add_birthday_answers (args : list str) (st : State) :
  fst (add_birthday args st) = Ok (py "Birthday set.")
  \/ fst (add_birthday args st)
     = Ok (py "Invalid date format. Use DD.MM.YYYY")
  \/ exists msg, fst (add_birthday args st) = Ok (110 :: msg).
Proof.
  unfold add_birthday, input_error, add_birthday_body.
  destruct args as [|n [|s rest]].
  - right; right. destruct (unpack_error_message 2 []) as (msg & ->).
    cbn. eauto.
  - right; right. destruct (unpack_error_message 2 [n]) as (msg & ->).
    cbn. eauto.
  - destruct (match AddressBook_find n st with
              | Some record => (record, st)
              | None => let '(record, st0) := Record_new n st in
                        (record, AddressBook_add_record record st0)
              end) as [record st1].
    unfold mutate, Record_add_birthday, bind.
    destruct (Birthday_init s) as [b|e] eqn:E.
    + left. reflexivity.
    + right; left. rewrite (Birthday_init_raises _ _ E). reflexivity.
Qed.

(** C10: for a name that the book does not have and a text that [Birthday]
    accepts (every valid [DD.MM.YYYY] date is one), [add_birthday] answers
    ["Birthday set."] and leaves a new record in the book under that name,
    with no phone and with the birthday; the records that existed and the
    other names are untouched. Whatever its arguments, [add_birthday]
    never answers ["Contact not found."], while [change_contact],
    [show_phone] and [show_birthday] answer it for the missing name and
    leave the book as it is. *)
Theorem C10_add_birthday_creates_the_contact (st : State) (n s : str)
    (rest : list str) (b : Birthday) :
  AddressBook_find n st = None -> Birthday_init s = Ok b ->
  (exists st',
     add_birthday (n :: s :: rest) st = (Ok (py "Birthday set."), st')
     /\ AddressBook_find n st' = Some (List.length (objects st))
     /\ deref st' (List.length (objects st))
        = mkRecord (mkField n) [] (Some b)
     /\ (forall a, (a < List.length (objects st))%nat ->
           deref st' a = deref st a)
     /\ (forall k, k <> n -> AddressBook_find k st' = AddressBook_find k st))
  /\ (forall args st0,
        fst (add_birthday args st0) <> Ok (py "Contact not found."))
  /\ (forall old_phone new_phone more,
        change_contact (n :: old_phone :: new_phone :: more) st
        = (Ok (py "Contact not found."), st))
  /\ (forall more, show_phone (n :: more) st
                   = (Ok (py "Contact not found."), st))
  /\ (forall more, show_birthday (n :: more) st
                   = (Ok (py "Contact not found."), st)).
Proof.
  intros Hfind Hb. split; [|split; [|split; [|split]]].
  - unfold add_birthday, input_error, add_birthday_body.
    rewrite Hfind. unfold Record_new, AddressBook_add_record.
    cbn [objects data]. unfold deref at 1. cbn [objects].
    rewrite nth_app_length. cbn [Record_init name value].
    unfold mutate, Record_add_birthday, bind, deref. cbn [objects data].
    rewrite nth_app_length, Hb. cbn [Record_init name phones].
    rewrite set_nth_app_length.
    eexists. split; [reflexivity|]. unfold AddressBook_find, deref.
    cbn [objects data]. repeat split.
    + apply dict_get_set_same.
    + apply nth_app_length.
    + intros a Ha. now apply nth_app_below.
    + intros k Hk. now apply dict_get_set_other.
  - intros args st0.
    destruct (add_birthday_answers args st0) as [E|[E|(msg & E)]];
      rewrite E; discriminate.
  - intros old_phone new_phone more.
    unfold change_contact, input_error, change_contact_body.
    now rewrite Hfind.
  - intros more. unfold show_phone, input_error, show_phone_body.
    now rewrite Hfind.
  - intros more. unfold show_birthday, input_error, show_birthday_body.
    now rewrite Hfind.
Qed.

Lemma C10_add_birthday_creates_the_contact_witness :
  let st := book_of [bob] in
  let n := py "Alice" in
  let b := mkField (mkdate 1990 6 17) in
  (exists st',
     add_birthday [n; py "17.06.1990"] st = (Ok (py "Birthday set."), st')
     /\ AddressBook_find n st' = Some (List.length (objects st))
     /\ deref st' (List.length (objects st))
        = mkRecord (mkField n) [] (Some b)
     /\ (forall a, (a < List.length (objects st))%nat ->
           deref st' a = deref st a)
     /\ (forall k, k <> n -> AddressBook_find k st' = AddressBook_find k st))
  /\ (forall args st0,
        fst (add_birthday args st0) <> Ok (py "Contact not found."))
  /\ (forall old_phone new_phone more,
        change_contact (n :: old_phone :: new_phone :: more) st
        = (Ok (py "Contact not found."), st))
  /\ (forall more, show_phone (n :: more) st
                   = (Ok (py "Contact not found."), st))
  /\ (forall more, show_birthday (n :: more) st
                   = (Ok (py "Contact not found."), st)).
Proof.
  intros st n b.
  apply (C10_add_birthday_creates_the_contact st n (py "17.06.1990") [] b);
    reflexivity.
Defined.

(** The book after the command of the example. *)
Example add_birthday_alice :
  add_birthday [py "Alice"; py "17.06.1990"] (book_of [bob])
  = (Ok (py "Birthday set."), book_of [bob; alice]).
Proof. reflexivity. Qed.

End Handlers.

(** ** The phones of a record *)

Section Phones.

Lemma Phone_init_Ok (s : str) (p : Phone) :
  Phone_init s = Ok p <-> phone_ok (mkField s) /\ p = mkField s.
Proof.
  unfold Phone_init, phone_ok, isdigit. cbn [value].
  destruct s as [|c s'].
  - cbn. split; [discriminate | intros [[H _] _]; discriminate].
  - set (s := c :: s').
    destruct (forallb isdigit_char s) eqn:F; cbn [andb negb].
    + destruct (Z.eqb_spec (len s) 10) as [E|E]; cbn [negb].
      * apply len_10 in E.
        split; [intros [= <-]; auto | intros [_ ->]; trivial].
      * rewrite len_10 in E.
        split; [discriminate | intros [[H _] _]; contradiction].
    + split; [discriminate | intros [[_ H] _]; discriminate].
Qed.

Lemma Phone_init_raises (s : str) (e : exn) :
  Phone_init s = Raise e ->
  e = ValueError (py "Phone number must contain exactly 10 digits.").
Proof.
  unfold Phone_init. destruct (negb _); [congruence | discriminate].
Qed.

Lemma Phone_init_cases (s : str) :
  (phone_ok (mkField s) /\ Phone_init s = Ok (mkField s))
  \/ (~ phone_ok (mkField s)
      /\ Phone_init s
         = Raise (ValueError
                    (py "Phone number must contain exactly 10 digits."))).
Proof.
  destruct (Phone_init s) as [p|e] eqn:E.
  - apply Phone_init_Ok in E. destruct E as (H & ->). now left.
  - right. rewrite (Phone_init_raises _ _ E). split; trivial.
    intros H. assert (Phone_init s = Ok (mkField s)) by now apply Phone_init_Ok.
    congruence.
Qed.

Lemma find_phone_app (l1 l2 : list Phone) (s : str) :
  (forall q, In q l1 -> value q <> s) ->
  List.find (fun p => str_eqb (value p) s) (l1 ++ l2)
  = List.find (fun p => str_eqb (value p) s) l2.
Proof.
  induction l1 as [|q l1 IH]; cbn; trivial. intros H.
  assert (E : str_eqb (value q) s = false) by (apply str_eqb_neq, H; auto).
  rewrite E. apply IH. intros q' Hq'. apply H. auto.
Qed.

(** The first phone of a given number, if there is one. *)
Lemma phones_split (ps : list Phone) (s : str) :
  (forall q, In q ps -> value q <> s)
  \/ exists l1 l2,
       ps = l1 ++ mkField s :: l2 /\ forall q, In q l1 -> value q <> s.
Proof.
  induction ps as [|p ps IH]; [left; intros q []|].
  destruct (str_eqb (value p) s) eqn:E.
  - right. exists [], ps. apply str_eqb_eq in E. destruct p as [v].
    cbn in E. subst v. split; [reflexivity | intros q []].
  - apply str_eqb_neq in E. destruct IH as [H|(l1 & l2 & -> & H)].
    + left. intros q [<-|Hq]; auto.
    + right. exists (p :: l1), l2. split; [reflexivity|].
      intros q [<-|Hq]; auto.
Qed.

(** X1: [add_phone] succeeds exactly on a text of ten digit characters.
    It then puts the new phone after the phones the record had, also when
    the number is already there, and the name and the birthday stay;
    [find_phone] finds the number afterwards. Any other text raises the
    validation error. *)
Theorem add_phone_appends (r : Record_) (s : str) :
  (phone_ok (mkField s) ->
   exists r',
     Record_add_phone r s = Ok r'
     /\ phones r' = phones r ++ [mkField s]
     /\ name r' = name r /\ birthday r' = birthday r
     /\ Record_find_phone r' s = Some (mkField s))
  /\ (~ phone_ok (mkField s) ->
      Record_add_phone r s
      = Raise (ValueError
                 (py "Phone number must contain exactly 10 digits."))).
Proof.
  unfold Record_add_phone, bind.
  destruct (Phone_init_cases s) as [(H & ->)|(H & ->)].
  - split; [|contradiction]. intros _. eexists. split; [reflexivity|].
    cbn [phones name birthday]. repeat split.
    unfold Record_find_phone. cbn [phones].
    destruct (phones_split (phones r) s) as [N|(l1 & l2 & -> & N)].
    + rewrite find_phone_app by trivial. cbn. now rewrite str_eqb_refl.
    + rewrite <- app_assoc, find_phone_app by trivial. cbn.
      now rewrite str_eqb_refl.
  - split; [contradiction | trivial].
Qed.

(** X2: [find_phone] returns the first phone of the record with the given
    number, and [None] exactly when the record has no such phone. *)
Theorem find_phone_first_match (r : Record_) (s : str) :
  (Record_find_phone r s = None
   /\ forall q, In q (phones r) -> value q <> s)
  \/ (exists l1 l2,
        phones r = l1 ++ mkField s :: l2
        /\ (forall q, In q l1 -> value q <> s)
        /\ Record_find_phone r s = Some (mkField s)).
Proof.
  unfold Record_find_phone.
  destruct (phones_split (phones r) s) as [N|(l1 & l2 & E & N)].
  - left. split; trivial.
    destruct (List.find _ _) as [p|] eqn:F; trivial.
    apply find_some in F. destruct F as (Hp & Ep).
    apply str_eqb_eq in Ep. now apply N in Hp.
  - right. exists l1, l2. rewrite E. repeat split; trivial.
    rewrite find_phone_app by trivial. cbn. now rewrite str_eqb_refl.
Qed.

Lemma remove_phone_loop_absent (ps : list Phone) (s : str) :
  (forall q, In q ps -> value q <> s) -> Record_remove_phone_loop ps s = ps.
Proof.
  induction ps as [|p ps IH]; cbn; trivial. intros H.
  assert (E : str_eqb (value p) s = false) by (apply str_eqb_neq, H; auto).
  rewrite E, IH; trivial. intros q Hq. apply H. auto.
Qed.

Lemma remove_phone_loop_first (l1 l2 : list Phone) (p : Phone) (s : str) :
  (forall q, In q l1 -> value q <> s) -> value p = s ->
  Record_remove_phone_loop (l1 ++ p :: l2) s = l1 ++ l2.
Proof.
  intros N E. induction l1 as [|q l1 IH]; cbn.
  - now rewrite E, str_eqb_refl.
  - assert (E' : str_eqb (value q) s = false)
      by (apply str_eqb_neq, N; now left).
    rewrite E', IH; trivial. intros q' Hq'. apply N. now right.
Qed.

(** X3: [remove_phone] takes out the first phone with the given number
    and nothing else; when the record has no such phone it is left as it
    is, and nothing is raised. *)
Theorem remove_phone_first_only (r : Record_) (s : str) :
  ((forall q, In q (phones r) -> value q <> s)
   /\ Record_remove_phone r s = r)
  \/ (exists l1 l2,
        phones r = l1 ++ mkField s :: l2
        /\ (forall q, In q l1 -> value q <> s)
        /\ Record_remove_phone r s
           = mkRecord (name r) (l1 ++ l2) (birthday r)).
Proof.
  unfold Record_remove_phone.
  destruct (phones_split (phones r) s) as [N|(l1 & l2 & E & N)].
  - left. split; trivial. rewrite remove_phone_loop_absent by trivial.
    now destruct r.
  - right. exists l1, l2. rewrite E. repeat split; trivial.
    now rewrite remove_phone_loop_first.
Qed.

(** X4: adding a number that the record does not have and removing it
    again gives the record back. *)
Theorem add_then_remove_phone (r r' : Record_) (s : str) :
  (forall q, In q (phones r) -> value q <> s) ->
  Record_add_phone r s = Ok r' ->
  Record_remove_phone r' s = r.
Proof.
  intros N. unfold Record_add_phone, bind.
  destruct (Phone_init s) as [p|] eqn:E; try discriminate.
  apply Phone_init_Ok in E. destruct E as (_ & ->).
  intros [= <-]. unfold Record_remove_phone. cbn [phones name birthday].
  rewrite remove_phone_loop_first by trivial.
  rewrite app_nil_r. now destruct r.
Qed.

Lemma add_then_remove_phone_witness :
  Record_remove_phone
    (mkRecord (mkField (py "Alice"))
              [mkField (py "0123456789"); mkField (py "1112223334")] None)
    (py "1112223334")
  = mkRecord (mkField (py "Alice")) [mkField (py "0123456789")] None.
Proof.
  apply (add_then_remove_phone
           (mkRecord (mkField (py "Alice")) [mkField (py "0123456789")] None)).
  - intros q [<-|[]]. discriminate.
  - reflexivity.
Defined.

Lemma edit_phone_loop_first (l1 l2 : list Phone) (p : Phone)
    (old_phone new_phone : str) :
  (forall q, In q l1 -> value q <> old_phone) -> value p = old_phone ->
  Record_edit_phone_loop (l1 ++ p :: l2) old_phone new_phone
  = (q <- Phone_init new_phone ;; Ok (l1 ++ q :: l2)).
Proof.
  intros N E. induction l1 as [|q l1 IH]; cbn [app Record_edit_phone_loop].
  - now rewrite E, str_eqb_refl.
  - assert (E' : str_eqb (value q) old_phone = false)
      by (apply str_eqb_neq, N; now left).
    rewrite E', IH by (intros q' Hq'; apply N; now right).
    unfold bind. now destruct (Phone_init new_phone).
Qed.

(** X5: when the record has the old number, [edit_phone] with a new text
    of ten digit characters puts the new phone in the place of the first
    phone with the old number and keeps the others in their places; with
    any other new text it raises the validation error, and the record in
    the store is as it was. *)
Theorem edit_phone_replaces_first (r : Record_) (l1 l2 : list Phone)
    (old_phone new_phone : str) :
  phones r = l1 ++ mkField old_phone :: l2 ->
  (forall q, In q l1 -> value q <> old_phone) ->
  (phone_ok (mkField new_phone) ->
   Record_edit_phone r old_phone new_phone
   = Ok (mkRecord (name r) (l1 ++ mkField new_phone :: l2) (birthday r)))
  /\ (~ phone_ok (mkField new_phone) ->
      Record_edit_phone r old_phone new_phone
      = Raise (ValueError
                 (py "Phone number must contain exactly 10 digits."))
      /\ forall st a, deref st a = r ->
           mutate a (fun self => Record_edit_phone self old_phone new_phone)
                  st
           = (Raise (ValueError
                       (py "Phone number must contain exactly 10 digits.")),
              st)).
Proof.
  intros E N. unfold Record_edit_phone.
  rewrite E, edit_phone_loop_first by trivial. unfold bind.
  destruct (Phone_init_cases new_phone) as [(H & Hp)|(H & Hp)].
  - split; [|contradiction]. intros _. now rewrite Hp.
  - split; [contradiction|]. intros _. rewrite Hp. split; trivial.
    intros st a Ha. unfold mutate, Record_edit_phone. rewrite Ha, E.
    rewrite edit_phone_loop_first by trivial. unfold bind. now rewrite Hp.
Qed.

Lemma edit_phone_replaces_first_witness :
  let r := mkRecord (mkField (py "Alice"))
                    [mkField (py "0123456789"); mkField (py "1112223334");
                     mkField (py "1112223334")] None in
  (phone_ok (mkField (py "5556667778")) ->
   Record_edit_phone r (py "1112223334") (py "5556667778")
   = Ok (mkRecord (name r)
                  ([mkField (py "0123456789")]
                   ++ mkField (py "5556667778")
                      :: [mkField (py "1112223334")])
                  (birthday r)))
  /\ (~ phone_ok (mkField (py "5556667778")) ->
      Record_edit_phone r (py "1112223334") (py "5556667778")
      = Raise (ValueError
                 (py "Phone number must contain exactly 10 digits."))
      /\ forall st a, deref st a = r ->
           mutate a (fun self =>
                       Record_edit_phone self (py "1112223334")
                                         (py "5556667778")) st
           = (Raise (ValueError
                       (py "Phone number must contain exactly 10 digits.")),
              st)).
Proof.
  intros r.
  apply (edit_phone_replaces_first r [mkField (py "0123456789")]
           [mkField (py "1112223334")]).
  - reflexivity.
  - intros q [<-|[]]. discriminate.
Defined.



End Phones.

(** ** The dictionary of the book *)

Section Dictionary.

Lemma dict_get_None (d : list (str * addr)) (k : str) :
  dict_get d k = None <-> ~ In k (map fst d).
Proof.
  induction d as [|[k' a] d IH]; cbn; [tauto|].
  destruct (str_eqb k' k) eqn:E.
  - apply str_eqb_eq in E. split; [discriminate | tauto].
  - apply str_eqb_neq in E. rewrite IH. tauto.
Qed.

Lemma dict_get_Some (d : list (str * addr)) (k : str) (a : addr) :
  dict_get d k = Some a -> In (k, a) d.
Proof.
  induction d as [|[k' a'] d IH]; cbn; [discriminate|].
  destruct (str_eqb k' k) eqn:E.
  - apply str_eqb_eq in E. intros [= ->]. left. congruence.
  - auto.
Qed.

Lemma dict_get_In (d : list (str * addr)) (k : str) (a : addr) :
  NoDup (map fst d) -> In (k, a) d -> dict_get d k = Some a.
Proof.
  induction d as [|[k' a'] d IH]; cbn; [easy|].
  intros N. inversion_clear N as [|? ? Hk Hd].
  intros [[= -> ->]|H].
  - now rewrite str_eqb_refl.
  - destruct (str_eqb k' k) eqn:E; [|auto].
    apply str_eqb_eq in E. subst k'. exfalso. apply Hk.
    change k with (fst (k, a)). now apply in_map.
Qed.

Lemma dict_set_absent (d : list (str * addr)) (k : str) (a : addr) :
  dict_get d k = None -> dict_set d k a = d ++ [(k, a)].
Proof.
  induction d as [|[k' a'] d IH]; cbn; trivial.
  destruct (str_eqb k' k); [discriminate|]. intros H. now rewrite IH.
Qed.

Lemma dict_del_absent (d : list (str * addr)) (k : str) :
  dict_get d k = None -> dict_del d k = d.
Proof.
  induction d as [|[k' a'] d IH]; cbn; trivial.
  destruct (str_eqb k' k); [discriminate|]. intros H. now rewrite IH.
Qed.

Lemma dict_del_last (d : list (str * addr)) (k : str) (a : addr) :
  dict_get d k = None -> dict_del (d ++ [(k, a)]) k = d.
Proof.
  induction d as [|[k' a'] d IH]; cbn.
  - now rewrite str_eqb_refl.
  - destruct (str_eqb k' k); [discriminate|]. intros H. now rewrite IH.
Qed.

Lemma dict_del_In (d : list (str * addr)) (k : str) (x : str * addr) :
  In x (dict_del d k) -> In x d.
Proof.
  induction d as [|[k' a'] d IH]; cbn; trivial.
  destruct (str_eqb k' k); cbn; [auto|]. intros [<-|H]; auto.
Qed.

Lemma dict_get_del_same (d : list (str * addr)) (k : str) :
  NoDup (map fst d) -> dict_get (dict_del d k) k = None.
Proof.
  induction d as [|[k' a'] d IH]; cbn; trivial.
  intros N. inversion_clear N as [|? ? Hk Hd].
  destruct (str_eqb k' k) eqn:E; cbn.
  - apply str_eqb_eq in E. subst k'. now apply dict_get_None.
  - rewrite E. auto.
Qed.

Lemma dict_get_del_other (d : list (str * addr)) (k k' : str) :
  k' <> k -> dict_get (dict_del d k) k' = dict_get d k'.
Proof.
  intros N. induction d as [|[k0 a0] d IH]; cbn; trivial.
  destruct (str_eqb k0 k) eqn:E; cbn.
  - apply str_eqb_eq in E. subst k0.
    destruct (str_eqb k k') eqn:E'; trivial.
    apply str_eqb_eq in E'. congruence.
  - now rewrite IH.
Qed.

Lemma dict_del_NoDup {B} (f : str * addr -> B) (d : list (str * addr))
    (k : str) :
  NoDup (map f d) -> NoDup (map f (dict_del d k)).
Proof.
  induction d as [|[k' a'] d IH]; cbn; trivial.
  intros N. inversion_clear N as [|? ? Hk Hd].
  destruct (str_eqb k' k); cbn; trivial.
  constructor; [|auto]. intros H. apply Hk.
  apply in_map_iff in H. destruct H as (x & <- & Hx).
  apply in_map. now apply dict_del_In in Hx.
Qed.

End Dictionary.

(** ** [add_record], [find] and [delete] *)

Section FindDelete.

(** X7: [delete] of a name takes exactly that name out of the book: [find]
    no longer finds it, every other name is found as before, the records
    themselves are untouched, and for a name that is not in the book
    nothing changes. The keys of a dictionary are pairwise different. *)
Theorem delete_removes_the_name (st : State) (n : str) :
  NoDup (map fst (data st)) ->
  let st' := AddressBook_delete n st in
  AddressBook_find n st' = None
  /\ (forall k, k <> n -> AddressBook_find k st' = AddressBook_find k st)
  /\ objects st' = objects st
  /\ NoDup (map fst (data st'))
  /\ (AddressBook_find n st = None -> st' = st).
Proof.
  intros N st'. subst st'. unfold AddressBook_delete, AddressBook_find.
  destruct (dict_get (data st) n) as [a|] eqn:E; cbn [data objects].
  - repeat split; trivial.
    + now apply dict_get_del_same.
    + intros k Hk. now apply dict_get_del_other.
    + now apply dict_del_NoDup.
    + discriminate.
  - repeat split; trivial.
Qed.

Lemma delete_removes_the_name_witness :
  let st := book_of [alice; bob] in
  let st' := AddressBook_delete (py "Alice") st in
  AddressBook_find (py "Alice") st' = None
  /\ (forall k, k <> py "Alice" ->
        AddressBook_find k st' = AddressBook_find k st)
  /\ objects st' = objects st
  /\ NoDup (map fst (data st'))
  /\ (AddressBook_find (py "Alice") st = None -> st' = st).
Proof.
  intros st. apply (delete_removes_the_name st (py "Alice")).
  repeat constructor; cbn; intuition discriminate.
Defined.

(** X8: [add_record] of a record whose name is not in the book puts it
    after all the others, so it is listed last; [find] gives it for its
    name and gives what it gave before for the other names. *)
Theorem add_record_new_name_goes_last (st : State) (a : addr) (n : str) :
  AddressBook_find n st = None ->
  value (name (deref st a)) = n ->
  let st' := AddressBook_add_record a st in
  data st' = data st ++ [(n, a)]
  /\ values st' = values st ++ [deref st a]
  /\ AddressBook_find n st' = Some a
  /\ (forall k, k <> n -> AddressBook_find k st' = AddressBook_find k st).
Proof.
  intros Hn En st'. subst st'.
  unfold AddressBook_add_record, AddressBook_find in *. rewrite En.
  cbn [data objects]. rewrite dict_set_absent by trivial.
  repeat split.
  - unfold values. cbn [data]. rewrite map_app. reflexivity.
  - rewrite <- (dict_set_absent _ _ _ Hn). apply dict_get_set_same.
  - intros k Hk. rewrite <- (dict_set_absent _ _ _ Hn).
    now apply dict_get_set_other.
Qed.

Lemma add_record_new_name_goes_last_witness :
  let st := mkState [bob; alice] [(py "Bob", 0%nat)] in
  let st' := AddressBook_add_record 1%nat st in
  data st' = data st ++ [(py "Alice", 1%nat)]
  /\ values st' = values st ++ [deref st 1%nat]
  /\ AddressBook_find (py "Alice") st' = Some 1%nat
  /\ (forall k, k <> py "Alice" ->
        AddressBook_find k st' = AddressBook_find k st).
Proof.
  intros st. apply (add_record_new_name_goes_last st 1%nat (py "Alice"));
    reflexivity.
Defined.

(** X9: [delete] undoes [add_record]: after a record of a name that was
    not in the book is added and its name deleted, the book is as it
    was. *)
Theorem delete_undoes_add_record (st : State) (a : addr) (n : str) :
  AddressBook_find n st = None ->
  value (name (deref st a)) = n ->
  AddressBook_delete n (AddressBook_add_record a st) = st.
Proof.
  intros Hn En. unfold AddressBook_delete, AddressBook_add_record,
    AddressBook_find in *.
  rewrite En. cbn [data objects]. rewrite dict_get_set_same.
  rewrite dict_set_absent, dict_del_last by trivial. now destruct st.
Qed.

Lemma delete_undoes_add_record_witness :
  AddressBook_delete (py "Alice")
    (AddressBook_add_record 1%nat
       (mkState [bob; alice] [(py "Bob", 0%nat)]))
  = mkState [bob; alice] [(py "Bob", 0%nat)].
Proof.
  apply (delete_undoes_add_record
           (mkState [bob; alice] [(py "Bob", 0%nat)]) 1%nat (py "Alice"));
    reflexivity.
Defined.

End FindDelete.

(** ** When [get_upcoming_birthdays] returns and what it raises *)

Section Outcomes.

Lemma leap_years_apart (y : Z) :
  is_leap y = true -> is_leap (y + 1) = false.
Proof.
  unfold is_leap. rewrite andb_true_iff, Z.eqb_eq. intros (H & _).
  destruct (Z.eqb_spec ((y + 1) mod 4) 0) as [E|E]; trivial.
  exfalso. Z.div_mod_to_equations. lia.
Qed.

(** [replace(year=y)] on a valid date: the three outcomes. *)
Lemma replace_year_cases (d : date) (y : Z) :
  valid_date d = true -> 1 <= y <= 10000 ->
  replace_year d y
  = if y =? 10000 then Raise year_error
    else if (month d =? 2) && (day d =? 29) && negb (is_leap y)
         then Raise day_error
         else Ok (mkdate y (month d) (day d)).
Proof.
  intros V Hy. apply valid_date_iff in V. destruct V as (_ & Vm & Vd).
  unfold replace_year, date_new, MINYEAR, MAXYEAR.
  destruct (Z.eqb_spec y 10000) as [->|Ny]; [reflexivity|].
  replace ((1 <=? y) && (y <=? 9999)) with true
    by (symmetry; apply andb_true_iff; rewrite !Z.leb_le; lia).
  replace ((1 <=? month d) && (month d <=? 12)) with true
    by (symmetry; apply andb_true_iff; rewrite !Z.leb_le; lia).
  cbn [negb]. revert Vd. unfold days_in_month.
  destruct (Z.eqb_spec (month d) 2) as [E|E]; cbn [andb].
  - rewrite E. change (index DAYS_IN_MONTH 2) with 28.
    destruct (Z.eqb_spec (day d) 29) as [E'|E']; cbn [andb].
    + rewrite E'. destruct (is_leap y); cbn; trivial.
    + intros Vd.
      replace ((1 <=? day d)
               && (day d <=? (if is_leap y then 29 else 28))) with true;
        [now destruct (is_leap y)|].
      symmetry. apply andb_true_iff. rewrite !Z.leb_le.
      destruct (is_leap (year d)), (is_leap y); lia.
  - intros Vd.
    replace ((1 <=? day d) && (day d <=? index DAYS_IN_MONTH (month d)))
      with true; [reflexivity|].
    symmetry. apply andb_true_iff. rewrite !Z.leb_le. lia.
Qed.

(** A valid date can always be moved off a weekend. *)
Lemma congratulation_returns (d : date) :
  valid_date d = true -> exists c, congratulation d = Ok c.
Proof.
  intros V. pose proof (toordinal_range d V) as R. unfold MAXORDINAL in R.
  unfold congratulation.
  destruct (Z.eqb_spec (weekday d) 5) as [E|E];
    [|destruct (Z.eqb_spec (weekday d) 6) as [E'|E']]; [| |eauto];
    rewrite add_days_ok; eauto; unfold weekday, MAXORDINAL in *;
    Z.div_mod_to_equations; lia.
Qed.

Lemma entry_of_outcome (today horizon : date) (r : Record_) :
  valid_date horizon = true ->
  match birthday r with
  | None => entry_of today horizon r = Ok None
  | Some b =>
      match next_occurrence today b with
      | Ok _ => exists o, entry_of today horizon r = Ok o
      | Raise e => entry_of today horizon r = Raise e
      end
  end.
Proof.
  intros Vh. unfold entry_of. destruct (birthday r) as [b|]; trivial.
  destruct (next_occurrence today b) as [d|e] eqn:En; cbn [bind]; trivial.
  destruct (date_leb today d && date_leb d horizon); [|eauto].
  destruct (congratulation_returns d (next_occurrence_valid _ _ _ En))
    as (c & ->). cbn [bind]. eauto.
Qed.

Lemma loop_outcome (today horizon : date) (rs : list Record_) :
  forall acc,
    (exists res, loop today horizon rs acc = Ok res
                 /\ Forall (fun r => exists o,
                              entry_of today horizon r = Ok o) rs)
    \/ (exists e r, loop today horizon rs acc = Raise e
                    /\ In r rs /\ entry_of today horizon r = Raise e).
Proof.
  induction rs as [|r rs IH]; intros acc; cbn [loop].
  - left. eauto.
  - rewrite loop_body_entry_of.
    destruct (entry_of today horizon r) as [o|e] eqn:E; cbn [bind].
    + destruct (IH (acc ++ option_list o))
        as [(res & -> & F)|(e & r' & -> & Hr' & Er')].
      * left. eexists. split; [reflexivity|]. constructor; eauto.
      * right. exists e, r'. cbn. auto.
    + right. exists e, r. cbn. auto.
Qed.

(** The next occurrence of a birthday: when it exists and what is raised
    when it does not. *)
Lemma next_occurrence_cases (today : date) (b : Birthday) :
  valid_date today = true -> valid_date (value b) = true ->
  let this := mkdate (year today) (month (value b)) (day (value b)) in
  let feb29 := (month (value b) =? 2) && (day (value b) =? 29) in
  next_occurrence today b
  = if feb29 && negb (is_leap (year today)) then Raise day_error
    else if date_ltb this today then
      if year today =? 9999 then Raise year_error
      else if feb29 then Raise day_error
      else Ok (mkdate (year today + 1) (month (value b)) (day (value b)))
    else Ok this.
Proof.
  intros Vt Vb this feb29. pose proof Vt as Vt'.
  apply valid_date_iff in Vt'. destruct Vt' as (Vy & _).
  unfold next_occurrence.
  rewrite (replace_year_cases _ (year today) Vb) by lia.
  destruct (Z.eqb_spec (year today) 10000) as [E|_]; [lia|].
  fold feb29. fold this.
  destruct (feb29 && negb (is_leap (year today))) eqn:F; cbn [bind]; trivial.
  destruct (date_ltb this today); trivial.
  change (replace_year this (year today + 1))
    with (replace_year (value b) (year today + 1)).
  rewrite (replace_year_cases _ (year today + 1) Vb) by lia.
  destruct (Z.eqb_spec (year today) 9999) as [E|E].
  - rewrite E. reflexivity.
  - destruct (Z.eqb_spec (year today + 1) 10000) as [E'|_]; [lia|].
    fold feb29. destruct feb29; cbn [andb] in *; trivial.
    apply negb_false_iff in F. now rewrite (leap_years_apart _ F).
Qed.


Lemma next_occurrence_exists (today : date) (b : Birthday) :
  valid_date today = true -> valid_date (value b) = true ->
  (occurrence_exists today b = true
   /\ exists d, next_occurrence today b = Ok d)
  \/ (occurrence_exists today b = false
      /\ (next_occurrence today b = Raise day_error
          /\ month (value b) = 2 /\ day (value b) = 29
          \/ next_occurrence today b = Raise year_error
             /\ year today = 9999)).
Proof.
  intros Vt Vb. rewrite (next_occurrence_cases _ _ Vt Vb).
  unfold occurrence_exists.
  set (lt := date_ltb _ today).
  destruct (Z.eqb_spec (month (value b)) 2) as [Em|Em],
    (Z.eqb_spec (day (value b)) 29) as [Ed|Ed],
    (is_leap (year today)), lt, (Z.eqb_spec (year today) 9999);
    cbn [andb negb orb];
    first
      [ left; split; [reflexivity | eexists; reflexivity]
      | right; split; [reflexivity|];
        first [ left; repeat split; (reflexivity || assumption)
              | right; split; (reflexivity || assumption) ] ].
Qed.

Lemma add_days_7 (today : date) :
  valid_date today = true ->
  (toordinal today + 7 <= MAXORDINAL
   /\ exists horizon, add_days today 7 = Ok horizon
                      /\ valid_date horizon = true
                      /\ toordinal horizon = toordinal today + 7)
  \/ (MAXORDINAL < toordinal today + 7
      /\ add_days today 7 = Raise overflow_error).
Proof.
  intros V. pose proof (toordinal_range _ V) as R.
  destruct (Z.le_gt_cases (toordinal today + 7) MAXORDINAL) as [L|L].
  - left. split; trivial. rewrite add_days_ok by lia.
    eexists. split; [reflexivity|]. apply ord2ymd_spec. lia.
  - right. split; [lia|]. unfold add_days.
    destruct (Z.leb_spec (toordinal today + 7) MAXORDINAL); [lia|].
    now rewrite andb_false_r.
Qed.

(** X10: for a book whose birthdays are dates of the calendar,
    [get_upcoming_birthdays] returns exactly when [today + 7 days] is
    still a date of the calendar and every birthday of the book has a
    next occurrence: no 29th of February unless [today] is in a leap year
    and not after its 29th of February, and no birthday that has passed
    this year when this year is 9999. *)
Theorem upcoming_returns_exactly_when (today : date) (st : State) :
  valid_date today = true -> birthdays_valid st ->
  (exists res, AddressBook_get_upcoming_birthdays today st = Ok res)
  <-> toordinal today + 7 <= MAXORDINAL
      /\ forall r b, In r (values st) -> birthday r = Some b ->
           occurrence_exists today b = true.
Proof.
  intros Vt Vb. unfold AddressBook_get_upcoming_birthdays.
  destruct (add_days_7 today Vt) as [(L & h & -> & Vh & Oh)|(L & ->)];
    cbn [bind].
  - destruct (loop_outcome today h (values st) [])
      as [(res & -> & F)|(e & r & -> & Hr & Er)]; cbn [bind].
    + split; [|eauto]. intros _. split; trivial. intros r b Hr Eb.
      rewrite Forall_forall in F. destruct (F r Hr) as (o & Eo).
      pose proof (entry_of_outcome today h r Vh) as O. rewrite Eb in O.
      destruct (next_occurrence_exists today b Vt (Vb r b Hr Eb))
        as [(H & _)|(_ & [(En & _)|(En & _)])]; trivial;
        rewrite En in O; congruence.
    + split; [intros (res & H); discriminate|]. intros (_ & H). exfalso.
      pose proof (entry_of_outcome today h r Vh) as O.
      destruct (birthday r) as [b|] eqn:Eb; [|congruence].
      destruct (next_occurrence_exists today b Vt (Vb r b Hr Eb))
        as [(_ & d & En)|(Hf & _)].
      * rewrite En in O. destruct O as (o & O). congruence.
      * rewrite (H r b Hr Eb) in Hf. discriminate.
  - split; [intros (res & H); discriminate | lia].
Qed.

Lemma upcoming_returns_exactly_when_witness :
  (exists res,
     AddressBook_get_upcoming_birthdays (mkdate 2024 2 25) (book_of [dan; bob])
     = Ok res)
  <-> toordinal (mkdate 2024 2 25) + 7 <= MAXORDINAL
      /\ forall r b, In r (values (book_of [dan; bob])) ->
           birthday r = Some b ->
           occurrence_exists (mkdate 2024 2 25) b = true.
Proof.
  apply (upcoming_returns_exactly_when (mkdate 2024 2 25) (book_of [dan; bob])).
  - reflexivity.
  - intros r b [<-|[<-|[]]] [= <-]; reflexivity.
Defined.

(** X11: what [get_upcoming_birthdays] raises, for a book whose birthdays
    are dates of the calendar. It raises [OverflowError] exactly when
    [today + 7 days] is past the last day of the calendar, whatever the
    book holds; otherwise it can only raise the [ValueError] of a date
    with a day out of range, which takes a contact born on a 29th of
    February, or the [ValueError] of the year 10000, which takes [today]
    in the year 9999. *)
Theorem upcoming_raises_only (today : date) (st : State) :
  valid_date today = true -> birthdays_valid st ->
  (AddressBook_get_upcoming_birthdays today st = Raise overflow_error
   <-> MAXORDINAL < toordinal today + 7)
  /\ forall e, AddressBook_get_upcoming_birthdays today st = Raise e ->
       e = overflow_error
       \/ (e = day_error
           /\ exists r b, In r (values st) /\ birthday r = Some b
                          /\ month (value b) = 2 /\ day (value b) = 29)
       \/ (e = year_error /\ year today = 9999).
Proof.
  intros Vt Vb. unfold AddressBook_get_upcoming_birthdays.
  destruct (add_days_7 today Vt) as [(L & h & -> & Vh & Oh)|(L & ->)];
    cbn [bind].
  - assert (C : forall e,
              (res <- loop today h (values st) [] ;; Ok (sort res)) = Raise e ->
              (e = day_error
               /\ exists r b, In r (values st) /\ birthday r = Some b
                              /\ month (value b) = 2 /\ day (value b) = 29)
              \/ (e = year_error /\ year today = 9999)).
    { intros e.
      destruct (loop_outcome today h (values st) [])
        as [(res & -> & F)|(e' & r & -> & Hr & Er)]; cbn [bind];
        [discriminate|].
      intros [= <-].
      pose proof (entry_of_outcome today h r Vh) as O.
      destruct (birthday r) as [b|] eqn:Eb; [|congruence].
      destruct (next_occurrence_exists today b Vt (Vb r b Hr Eb))
        as [(_ & d & En)|(_ & [(En & Em & Ed)|(En & Ey)])];
        rewrite En in O.
      - destruct O as (o & O). congruence.
      - left. split; [congruence|]. exists r, b. auto.
      - right. split; [congruence | trivial]. }
    split.
    + split; [|lia]. intros H. apply C in H.
      destruct H as [(H & _)|(H & _)]; discriminate.
    + intros e H. right. now apply C.
  - split; [tauto|]. intros e [= <-]. now left.
Qed.

Lemma upcoming_raises_only_witness :
  (AddressBook_get_upcoming_birthdays (mkdate 9999 12 25) (book_of [bob])
   = Raise overflow_error
   <-> MAXORDINAL < toordinal (mkdate 9999 12 25) + 7)
  /\ forall e,
       AddressBook_get_upcoming_birthdays (mkdate 9999 12 25) (book_of [bob])
       = Raise e ->
       e = overflow_error
       \/ (e = day_error
           /\ exists r b, In r (values (book_of [bob]))
                          /\ birthday r = Some b
                          /\ month (value b) = 2 /\ day (value b) = 29)
       \/ (e = year_error /\ year (mkdate 9999 12 25) = 9999).
Proof.
  apply (upcoming_raises_only (mkdate 9999 12 25) (book_of [bob])).
  - reflexivity.
  - intros r b [<-|[]] [= <-]; reflexivity.
Defined.

End Outcomes.

(** ** The entries of a result *)

Section Entries.

Lemma Forall2_contribution (today horizon : date) (rs : list Record_)
    (os : list (option entry)) :
  Forall2 (fun r o => entry_of today horizon r = Ok o) rs os ->
  flat_map option_list os = flat_map (contribution today horizon) rs.
Proof.
  induction 1 as [|r o rs os E F IH]; cbn; trivial.
  unfold contribution at 1. now rewrite E, IH.
Qed.

(** A result is the sorted list of what the records give. *)
Lemma upcoming_is_sorted_contributions (today : date) (st : State)
    (res : list entry) :
  AddressBook_get_upcoming_birthdays today st = Ok res ->
  exists horizon,
    add_days today 7 = Ok horizon
    /\ res = sort (flat_map (contribution today horizon) (values st))
    /\ Forall (fun r => exists o, entry_of today horizon r = Ok o)
              (values st).
Proof.
  unfold AddressBook_get_upcoming_birthdays.
  destruct (add_days today 7) as [h|]; cbn [bind]; try discriminate.
  destruct (loop_outcome today h (values st) [])
    as [(l & El & F)|(e & r & El & _)]; rewrite El; cbn [bind];
    try discriminate.
  intros [= <-]. exists h. repeat split; trivial.
  apply loop_spec in El. destruct El as (os & F2 & ->). cbn [app].
  now rewrite (Forall2_contribution _ _ _ _ F2).
Qed.

Lemma contribution_length (today horizon : date) (r : Record_) :
  (List.length (contribution today horizon r)
   <= if has_birthday r then 1 else 0)%nat.
Proof.
  unfold contribution, entry_of, has_birthday.
  destruct (birthday r) as [b|]; cbn; [|lia].
  destruct (next_occurrence today b); cbn; [|lia].
  destruct (_ && _); cbn; [|lia].
  destruct (congratulation _); cbn; lia.
Qed.

(** X12: a result has at most one entry for each contact with a birthday,
    and a contact without birthday does not appear in it (the names of
    the contacts being pairwise different). *)
Theorem upcoming_lists_only_birthdays (today : date) (st : State)
    (res : list entry) :
  AddressBook_get_upcoming_birthdays today st = Ok res ->
  (List.length res <= List.length (filter has_birthday (values st)))%nat
  /\ (distinct_names st ->
      forall r, In r (values st) -> birthday r = None -> ~ appears r res).
Proof.
  intros Hres. split.
  - destruct (upcoming_is_sorted_contributions _ _ _ Hres)
      as (h & _ & -> & _).
    rewrite <- (Permutation_length (sort_perm _)). clear Hres.
    induction (values st) as [|r rs IH]; cbn [flat_map filter];
      [apply Nat.le_refl|].
    rewrite length_app. pose proof (contribution_length today h r) as L.
    revert L. destruct (has_birthday r); cbn [List.length]; lia.
  - intros D r Hr Eb (e & He & Ee).
    destruct (get_upcoming_birthdays_Ok _ _ _ Hres)
      as (h & _ & _ & _ & Hin & _).
    apply Hin in He. destruct He as (r' & Hr' & Er').
    assert (r' = r) as ->.
    { apply (NoDup_map_In (fun r => value (name r)) (values st)); trivial.
      apply entry_of_Some in Er'.
      destruct Er' as (? & ? & ? & _ & _ & _ & _ & _ & ->). now cbn in Ee. }
    unfold entry_of in Er'. rewrite Eb in Er'. discriminate.
Qed.

Lemma upcoming_lists_only_birthdays_witness :
  (List.length [mkEntry (py "Alice") (py "2024.06.17")]
   <= List.length
        (filter has_birthday
           (values (book_of [Record_init (py "Zed"); alice; carl]))))%nat
  /\ (distinct_names (book_of [Record_init (py "Zed"); alice; carl]) ->
      forall r,
        In r (values (book_of [Record_init (py "Zed"); alice; carl])) ->
        birthday r = None ->
        ~ appears r [mkEntry (py "Alice") (py "2024.06.17")]).
Proof.
  apply (upcoming_lists_only_birthdays june_10_2024
           (book_of [Record_init (py "Zed"); alice; carl])).
  reflexivity.
Defined.

(** X13: every entry of a result carries a date from [today] to
    [today + 9 days]: an occurrence on the last day of the window, seven
    days after [today], that is a Saturday is moved by two more days. *)
Theorem entries_within_nine_days (today : date) (st : State)
    (res : list entry) (e : entry) :
  valid_date today = true ->
  AddressBook_get_upcoming_birthdays today st = Ok res -> In e res ->
  exists c,
    valid_date c = true /\ congratulation_date e = strftime_Ymd c
    /\ toordinal today <= toordinal c <= toordinal today + 9.
Proof.
  intros Vt Hres He.
  destruct (get_upcoming_birthdays_Ok _ _ _ Hres)
    as (h & Vh & Oh & _ & Hin & _).
  apply Hin in He. destruct He as (r & Hr & Er).
  apply entry_of_Some in Er.
  destruct Er as (b & d & c & Eb & En & L1 & L2 & Ec & ->).
  pose proof (next_occurrence_valid _ _ _ En) as Vd.
  destruct (congratulation_spec _ _ Vd Ec) as (Vc & Oc & _).
  rewrite date_leb_spec, Z.leb_le in L1, L2 by trivial.
  exists c. repeat split; trivial; rewrite Oc;
    destruct (weekday d =? 5), (weekday d =? 6); lia.
Qed.

Lemma entries_within_nine_days_witness :
  exists c,
    valid_date c = true
    /\ congratulation_date (mkEntry (py "Eve") (py "2024.06.17"))
       = strftime_Ymd c
    /\ toordinal (mkdate 2024 6 8) <= toordinal c
       <= toordinal (mkdate 2024 6 8) + 9.
Proof.
  apply (entries_within_nine_days (mkdate 2024 6 8)
           (book_of [contact "Eve" 1999 6 15])
           [mkEntry (py "Eve") (py "2024.06.17")]).
  - reflexivity.
  - reflexivity.
  - left. reflexivity.
Defined.

Lemma sort_key_inj (x y : entry) : sort_key x = sort_key y -> x = y.
Proof. destruct x, y. unfold sort_key. cbn. now intros [= -> ->]. Qed.

Lemma sorted_permutation_eq (l1 l2 : list entry) :
  StronglySorted key_le l1 -> StronglySorted key_le l2 ->
  Permutation l1 l2 -> l1 = l2.
Proof.
  revert l2. induction l1 as [|x l1 IH]; intros l2 S1 S2 P.
  - apply Permutation_nil in P. now subst.
  - destruct l2 as [|y l2];
      [apply Permutation_sym, Permutation_nil in P; discriminate|].
    apply StronglySorted_inv in S1, S2.
    destruct S1 as (S1 & F1), S2 as (S2 & F2).
    rewrite Forall_forall in F1, F2.
    assert (x = y) as <-.
    { assert (Hx : In x (y :: l2))
        by (apply (Permutation_in _ P); now left).
      assert (Hy : In y (x :: l1))
        by (apply (Permutation_in _ (Permutation_sym P)); now left).
      destruct Hx as [->|Hx]; trivial. destruct Hy as [->|Hy]; trivial.
      apply sort_key_inj, key_ltb_connected;
        [apply (F2 x Hx) | apply (F1 y Hy)]. }
    f_equal. apply IH; trivial. now apply Permutation_cons_inv in P.
Qed.

(** X14: the result does not depend on the order in which the contacts
    were put into the book: two books with the same records in different
    orders get the same result. *)
Theorem upcoming_ignores_insertion_order (today : date) (st1 st2 : State)
    (res : list entry) :
  Permutation (values st1) (values st2) ->
  AddressBook_get_upcoming_birthdays today st1 = Ok res ->
  AddressBook_get_upcoming_birthdays today st2 = Ok res.
Proof.
  intros P Hres.
  destruct (upcoming_is_sorted_contributions _ _ _ Hres)
    as (h & Eh & -> & F).
  unfold AddressBook_get_upcoming_birthdays. rewrite Eh. cbn [bind].
  destruct (loop_outcome today h (values st2) [])
    as [(l & El & _)|(e & r & _ & Hr & Er)].
  - rewrite El. cbn [bind]. f_equal.
    apply loop_spec in El. destruct El as (os & F2 & ->). cbn [app].
    rewrite (Forall2_contribution _ _ _ _ F2).
    apply sorted_permutation_eq; try apply sort_sorted.
    rewrite <- !sort_perm. apply Permutation_flat_map.
    now apply Permutation_sym.
  - exfalso. rewrite Forall_forall in F.
    destruct (F r (Permutation_in _ (Permutation_sym P) Hr)) as (o & Eo).
    congruence.
Qed.

Lemma upcoming_ignores_insertion_order_witness :
  AddressBook_get_upcoming_birthdays june_10_2024 (book_of [alice; carl; bob])
  = Ok [mkEntry (py "Alice") (py "2024.06.17");
        mkEntry (py "Bob") (py "2024.06.17")].
Proof.
  apply (upcoming_ignores_insertion_order june_10_2024
           (book_of [bob; alice; carl])).
  - cbn. apply Permutation_sym. apply perm_trans with [alice; bob; carl].
    + apply perm_skip. apply perm_swap.
    + apply perm_swap.
  - reflexivity.
Defined.

End Entries.

(** ** The store under the handlers *)

Section StoreFacts.

Lemma nth_set_nth_same {A} (l : list A) (i : nat) (x dflt : A) :
  (i < List.length l)%nat -> nth i (set_nth l i x) dflt = x.
Proof.
  revert i. induction l as [|y l IH]; intros [|i]; cbn; try lia; trivial.
  intros H. apply IH. lia.
Qed.

Lemma nth_set_nth_other {A} (l : list A) (i j : nat) (x dflt : A) :
  i <> j -> nth j (set_nth l i x) dflt = nth j l dflt.
Proof.
  revert i j. induction l as [|y l IH]; intros [|i] [|j]; cbn; trivial;
    try congruence.
  intros H. apply IH. congruence.
Qed.

Lemma length_set_nth {A} (l : list A) (i : nat) (x : A) :
  List.length (set_nth l i x) = List.length l.
Proof.
  revert i. induction l as [|y l IH]; intros [|i]; cbn; trivial.
  now rewrite IH.
Qed.

Lemma In_set_nth {A} (l : list A) (i : nat) (x y : A) :
  In y (set_nth l i x) -> y = x \/ In y l.
Proof.
  revert i. induction l as [|z l IH]; intros [|i]; cbn; try tauto.
  - intros [<-|H]; auto.
  - intros [<-|H]; auto. destruct (IH _ H); auto.
Qed.

(** A successful method call on the object at [a]. *)
Lemma mutate_Ok (a : addr) (f : Record_ -> result Record_) (st : State)
    (r' : Record_) :
  f (deref st a) = Ok r' ->
  mutate a f st = (Ok tt, mkState (set_nth (objects st) a r') (data st)).
Proof. intros H. unfold mutate. now rewrite H. Qed.

Lemma mutate_Raise (a : addr) (f : Record_ -> result Record_) (st : State)
    (e : exn) :
  f (deref st a) = Raise e -> mutate a f st = (Raise e, st).
Proof. intros H. unfold mutate. now rewrite H. Qed.

(** The book after [Record(name)] and [add_record] for a new name. *)
Lemma new_record_added (st : State) (n : str) :
  AddressBook_find n st = None ->
  let a := List.length (objects st) in
  let st1 := AddressBook_add_record a (snd (Record_new n st)) in
  fst (Record_new n st) = a
  /\ st1 = mkState (objects st ++ [Record_init n]) (data st ++ [(n, a)])
  /\ deref st1 a = Record_init n.
Proof.
  intros Hn a st1. subst a st1. unfold Record_new, AddressBook_add_record.
  cbn [fst snd objects data]. unfold deref. cbn [objects].
  rewrite nth_app_length. cbn [Record_init name value].
  rewrite dict_set_absent by exact Hn. auto.
Qed.

End StoreFacts.

(** ** [add_contact] *)

Section AddContact.

(** X15: [add_contact] with a name and a text of ten digit characters. For
    a name that is not in the book it answers ["Contact added."] and the
    book has a new record of that name with this one phone and no
    birthday; for a name of the book it answers ["Contact updated."] and
    the record has the phone after those it had, its birthday kept. The
    other records and names are not touched. *)
Theorem add_contact_adds_the_phone (st : State) (n phone : str)
    (more : list str) :
  phone_ok (mkField phone) ->
  (AddressBook_find n st = None ->
   let a := List.length (objects st) in
   exists st',
     add_contact (n :: phone :: more) st = (Ok (py "Contact added."), st')
     /\ AddressBook_find n st' = Some a
     /\ deref st' a = mkRecord (mkField n) [mkField phone] None
     /\ (forall a', (a' < a)%nat -> deref st' a' = deref st a')
     /\ (forall k, k <> n -> AddressBook_find k st' = AddressBook_find k st))
  /\ (forall a, AddressBook_find n st = Some a ->
      (a < List.length (objects st))%nat ->
      exists st',
        add_contact (n :: phone :: more) st
        = (Ok (py "Contact updated."), st')
        /\ data st' = data st
        /\ deref st' a
           = mkRecord (name (deref st a))
                      (phones (deref st a) ++ [mkField phone])
                      (birthday (deref st a))
        /\ (forall a', a' <> a -> deref st' a' = deref st a')).
Proof.
  intros Hp.
  assert (Hi : Phone_init phone = Ok (mkField phone))
    by now apply Phone_init_Ok.
  assert (Hne : phone <> []).
  { intros ->. destruct Hp as (H & _). discriminate. }
  split.
  - intros Hn a. unfold add_contact, input_error, add_contact_body.
    rewrite Hn.
    destruct (new_record_added st n Hn) as (Ea & Est & Ed).
    destruct (Record_new n st) as [a0 st0] eqn:En. cbn [fst snd] in Ea, Est, Ed.
    subst a0 a. rewrite Est in *.
    destruct phone as [|c phone']; [congruence|]. set (phone := c :: phone') in *.
    erewrite mutate_Ok
      by (cbv beta; rewrite Ed; unfold Record_add_phone; rewrite Hi;
          reflexivity).
    cbn [objects data Record_init name phones birthday app bind].
    eexists. split; [reflexivity|]. unfold AddressBook_find, deref.
    cbn [objects data]. rewrite set_nth_app_length.
    repeat split.
    + rewrite <- (dict_set_absent _ _ _ Hn). apply dict_get_set_same.
    + apply nth_app_length.
    + intros a' Ha'. now apply nth_app_below.
    + intros k Hk. rewrite <- (dict_set_absent _ _ _ Hn).
      now apply dict_get_set_other.
  - intros a Ha La. unfold add_contact, input_error, add_contact_body.
    rewrite Ha.
    destruct phone as [|c phone']; [congruence|]. set (phone := c :: phone') in *.
    erewrite mutate_Ok
      by (cbv beta; unfold Record_add_phone; rewrite Hi; reflexivity).
    cbn [bind].
    eexists. split; [reflexivity|]. unfold deref. cbn [objects data].
    repeat split.
    + now apply nth_set_nth_same.
    + intros a' Ha'. apply nth_set_nth_other. congruence.
Qed.

Lemma add_contact_adds_the_phone_witness :
  let st := book_of [bob] in
  let n := py "Alice" in
  let phone := py "0123456789" in
  (AddressBook_find n st = None ->
   let a := List.length (objects st) in
   exists st',
     add_contact [n; phone] st = (Ok (py "Contact added."), st')
     /\ AddressBook_find n st' = Some a
     /\ deref st' a = mkRecord (mkField n) [mkField phone] None
     /\ (forall a', (a' < a)%nat -> deref st' a' = deref st a')
     /\ (forall k, k <> n -> AddressBook_find k st' = AddressBook_find k st))
  /\ (forall a, AddressBook_find n st = Some a ->
      (a < List.length (objects st))%nat ->
      exists st',
        add_contact [n; phone] st = (Ok (py "Contact updated."), st')
        /\ data st' = data st
        /\ deref st' a
           = mkRecord (name (deref st a))
                      (phones (deref st a) ++ [mkField phone])
                      (birthday (deref st a))
        /\ (forall a', a' <> a -> deref st' a' = deref st a')).
Proof.
  intros st n phone.
  apply (add_contact_adds_the_phone st n phone []).
  split; reflexivity.
Defined.

(** X16: a command that fails on its value still creates the contact.
    For a name that is not in the book, [add_contact] with a text that is
    no phone number and [add_birthday] with a text that is no date answer
    with the validation message, and the book has afterwards a record of
    that name with no phone and no birthday. *)
Theorem failed_add_leaves_an_empty_contact (st : State) (n v : str)
    (more : list str) :
  AddressBook_find n st = None ->
  let st' := mkState (objects st ++ [Record_init n])
                     (data st ++ [(n, List.length (objects st))]) in
  (v <> [] -> ~ phone_ok (mkField v) ->
   add_contact (n :: v :: more) st
   = (Ok (py "Phone number must contain exactly 10 digits."), st'))
  /\ ((forall b, Birthday_init v <> Ok b) ->
      add_birthday (n :: v :: more) st
      = (Ok (py "Invalid date format. Use DD.MM.YYYY"), st'))
  /\ AddressBook_find n st' = Some (List.length (objects st))
  /\ deref st' (List.length (objects st)) = mkRecord (mkField n) [] None.
Proof.
  intros Hn st'.
  destruct (new_record_added st n Hn) as (Ea & Est & Ed).
  split; [|split; [|split]].
  - intros Hv Hp. unfold add_contact, input_error, add_contact_body.
    rewrite Hn. destruct (Record_new n st) as [a0 st0].
    cbn [fst snd] in Ea, Est, Ed. subst a0. rewrite Est in *.
    destruct v as [|c v']; [congruence|]. set (v := c :: v') in *.
    destruct (Phone_init_cases v) as [(H & _)|(_ & Hi)]; [contradiction|].
    erewrite mutate_Raise
      by (cbv beta; rewrite Ed; unfold Record_add_phone; rewrite Hi;
          reflexivity).
    reflexivity.
  - intros Hb. unfold add_birthday, input_error, add_birthday_body.
    rewrite Hn. destruct (Record_new n st) as [a0 st0].
    cbn [fst snd] in Ea, Est, Ed. subst a0. rewrite Est in *.
    destruct (Birthday_init v) as [b|e] eqn:E; [now destruct (Hb b)|].
    pose proof (Birthday_init_raises _ _ E) as He. subst e.
    erewrite mutate_Raise
      by (cbv beta; rewrite Ed; unfold Record_add_birthday; rewrite E;
          reflexivity).
    reflexivity.
  - unfold AddressBook_find, st'. cbn [data].
    rewrite <- (dict_set_absent _ _ _ Hn). apply dict_get_set_same.
  - unfold deref, st'. cbn [objects]. apply nth_app_length.
Qed.

Lemma failed_add_leaves_an_empty_contact_witness :
  let st := book_of [bob] in
  let st' := mkState (objects st ++ [Record_init (py "Zed")])
                     (data st ++ [(py "Zed", List.length (objects st))]) in
  (py "12" <> [] -> ~ phone_ok (mkField (py "12")) ->
   add_contact [py "Zed"; py "12"] st
   = (Ok (py "Phone number must contain exactly 10 digits."), st'))
  /\ ((forall b, Birthday_init (py "12") <> Ok b) ->
      add_birthday [py "Zed"; py "12"] st
      = (Ok (py "Invalid date format. Use DD.MM.YYYY"), st'))
  /\ AddressBook_find (py "Zed") st' = Some (List.length (objects st))
  /\ deref st' (List.length (objects st))
     = mkRecord (mkField (py "Zed")) [] None.
Proof.
  intros st.
  apply (failed_add_leaves_an_empty_contact st (py "Zed") (py "12") []).
  reflexivity.
Defined.

End AddContact.

(** ** What the handlers answer *)

Ltac plain_text :=
  cbn [py map list_ascii_of_string app];
  left; do 2 eexists; split; [reflexivity|]; split; discriminate.

Ltac answer := left; eexists; split; [reflexivity|].
Ltac value_error := right; left; eexists; split; [reflexivity|].

Section Answers.

Lemma plain_colon (a b : str) : plain (a ++ py ": " ++ b).
Proof. right. apply in_or_app. right. now left. Qed.

Lemma plain_not_fallback (s : str) :
  plain s ->
  s <> py "Enter user name." /\ s <> py "Give me name and phone please.".
Proof.
  intros [(c & rest & -> & H1 & H2)|H]; split; intros E;
    try (injection E as E _; cbn in E; congruence);
    subst s; cbn in H; intuition discriminate.
Qed.

(** The decorator turns the end of a body into an answer. *)
Lemma input_error_answers (func : list str -> State -> result str * State)
    (args : list str) (st : State) :
  body_outcome (fst (func args st)) ->
  exists s, input_error func args st = (Ok s, snd (func args st))
            /\ plain s.
Proof.
  unfold input_error, body_outcome.
  destruct (func args st) as [r st']. cbn [fst snd].
  intros [(s & -> & P)|[(msg & -> & P)| ->]].
  - eauto.
  - destruct msg as [|c msg]; [|eauto].
    destruct P as [(? & ? & ? & _)|[]]. discriminate.
  - eexists. split; [reflexivity|]. plain_text.
Qed.

Lemma unpack_error_outcome (k : Z) (args : list str) :
  body_outcome (Raise (unpack_error k args)).
Proof.
  destruct (unpack_error_message k args) as (msg & ->).
  value_error. left. do 2 eexists. split; [reflexivity|]. split; discriminate.
Qed.

Lemma edit_phone_raises (r : Record_) (old_phone new_phone : str) (e : exn) :
  Record_edit_phone r old_phone new_phone = Raise e ->
  e = ValueError (py "Phone number must contain exactly 10 digits.").
Proof.
  unfold Record_edit_phone.
  destruct (phones_split (phones r) old_phone) as [N|(l1 & l2 & -> & N)].
  - now rewrite edit_phone_loop_absent.
  - rewrite edit_phone_loop_first by trivial. unfold bind.
    destruct (Phone_init new_phone) eqn:E; [discriminate|].
    intros [= <-]. now apply Phone_init_raises in E.
Qed.

Lemma add_phone_raises (r : Record_) (phone : str) (e : exn) :
  Record_add_phone r phone = Raise e ->
  e = ValueError (py "Phone number must contain exactly 10 digits.").
Proof.
  unfold Record_add_phone, bind.
  destruct (Phone_init phone) eqn:E; [discriminate|].
  intros [= <-]. now apply Phone_init_raises in E.
Qed.

Lemma add_birthday_raises (r : Record_) (s : str) (e : exn) :
  Record_add_birthday r s = Raise e ->
  e = ValueError (py "Invalid date format. Use DD.MM.YYYY").
Proof.
  unfold Record_add_birthday, bind.
  destruct (Birthday_init s) eqn:E; [discriminate|].
  intros [= <-]. now apply Birthday_init_raises in E.
Qed.

Lemma add_contact_outcome (args : list str) (st : State) :
  body_outcome (fst (add_contact_body args st)).
Proof.
  unfold add_contact_body. destruct args as [|n [|p more]];
    try apply unpack_error_outcome.
  destruct (match AddressBook_find n st with
            | Some record => (record, py "Contact updated.", st)
            | None =>
                let '(record, st0) := Record_new n st in
                (record, py "Contact added.",
                 AddressBook_add_record record st0)
            end) as [[record message] st1] eqn:E.
  assert (P : plain message).
  { destruct (AddressBook_find n st); [|destruct (Record_new n st)];
      injection E as _ <- _; plain_text. }
  destruct p as [|c p]; [answer; trivial|].
  unfold mutate.
  destruct (Record_add_phone (deref st1 record) (c :: p)) eqn:F; cbn [fst].
  - answer. trivial.
  - apply add_phone_raises in F. subst e. value_error. plain_text.
Qed.

Lemma change_contact_outcome (args : list str) (st : State) :
  body_outcome (fst (change_contact_body args st)).
Proof.
  unfold change_contact_body. destruct args as [|n [|o [|p more]]];
    try apply unpack_error_outcome.
  destruct (AddressBook_find n st) as [a|]; [|now right; right].
  unfold mutate.
  destruct (Record_edit_phone (deref st a) o p) eqn:F; cbn [fst].
  - answer. plain_text.
  - apply edit_phone_raises in F. subst e. value_error. plain_text.
Qed.

Lemma show_phone_outcome (args : list str) (st : State) :
  body_outcome (fst (show_phone_body args st)).
Proof.
  unfold show_phone_body. destruct args as [|n more];
    try apply unpack_error_outcome.
  destruct (AddressBook_find n st) as [a|]; [|now right; right].
  destruct (phones (deref st a)); cbn [fst]; answer;
    [plain_text | apply plain_colon].
Qed.

Lemma add_birthday_outcome (args : list str) (st : State) :
  body_outcome (fst (add_birthday_body args st)).
Proof.
  unfold add_birthday_body. destruct args as [|n [|s more]];
    try apply unpack_error_outcome.
  destruct (match AddressBook_find n st with
            | Some record => (record, st)
            | None => let '(record, st0) := Record_new n st in
                      (record, AddressBook_add_record record st0)
            end) as [record st1].
  unfold mutate.
  destruct (Record_add_birthday (deref st1 record) s) eqn:F; cbn [fst].
  - answer. plain_text.
  - apply add_birthday_raises in F. subst e. value_error. plain_text.
Qed.

Lemma show_birthday_outcome (args : list str) (st : State) :
  body_outcome (fst (show_birthday_body args st)).
Proof.
  unfold show_birthday_body. destruct args as [|n more];
    try apply unpack_error_outcome.
  destruct (AddressBook_find n st) as [a|]; [|now right; right].
  destruct (birthday (deref st a)); cbn [fst]; answer;
    [apply plain_colon | plain_text].
Qed.

Lemma show_all_outcome (args : list str) (st : State) :
  body_outcome (fst (show_all_body args st)).
Proof.
  unfold show_all_body, values.
  destruct (data st) as [|[k a] d]; cbn [fst map]; answer; [plain_text|].
  unfold Record_str at 1. cbn [py map list_ascii_of_string app].
  destruct (map _ d); cbn [join app]; left; do 2 eexists;
    (split; [reflexivity|]); split; discriminate.
Qed.

Lemma join_In (sep x : str) (l : list str) (c : char) :
  In c x -> In c (join sep (x :: l)).
Proof.
  intros H. destruct l; cbn [join]; trivial. apply in_or_app. now left.
Qed.

Lemma insert_str_nonempty (x : str) (l : list str) : insert_str x l <> [].
Proof.
  destruct l; cbn; [discriminate|]. destruct (str_ltb _ _); discriminate.
Qed.

Lemma by_date_append_nonempty (d : list (str * list str)) (day n : str) :
  by_date_append d day n <> [].
Proof.
  destruct d as [|[k ns] d]; cbn; [discriminate|].
  destruct (str_eqb k day); discriminate.
Qed.

Lemma group_by_date_nonempty (e : entry) (l : list entry) :
  group_by_date (e :: l) <> [].
Proof.
  unfold group_by_date. cbn [fold_left].
  generalize (by_date_append_nonempty [] (congratulation_date e)
                (entry_name e)).
  generalize (by_date_append [] (congratulation_date e) (entry_name e)).
  induction l as [|e' l IH]; intros d Hd; cbn [fold_left]; trivial.
  apply IH, by_date_append_nonempty.
Qed.

Lemma birthdays_lines_plain (e : entry) (l : list entry) :
  plain (join [10] (birthdays_lines (e :: l))).
Proof.
  unfold birthdays_lines.
  pose proof (group_by_date_nonempty e l) as G.
  destruct (group_by_date (e :: l)) as [|[k ns] d]; [congruence|].
  cbn [map sorted fst].
  pose proof (insert_str_nonempty k (sorted (map fst d))) as I.
  destruct (insert_str k (sorted (map fst d))) as [|day days]; [congruence|].
  cbn [map]. right. apply join_In. apply in_or_app. right. now left.
Qed.

(** What [get_upcoming_birthdays] can raise, whatever the book holds:
    the overflow of the horizon, or a [ValueError] of [date] with its
    text. *)
Lemma upcoming_raises_plain (today : date) (st : State) (e : exn) :
  AddressBook_get_upcoming_birthdays today st = Raise e ->
  (e = overflow_error /\ add_days today 7 = Raise overflow_error)
  \/ exists msg, e = ValueError msg /\ plain msg.
Proof.
  unfold AddressBook_get_upcoming_birthdays.
  destruct (add_days today 7) as [h|e'] eqn:Eh; cbn [bind].
  - apply add_days_spec in Eh. destruct Eh as (Vh & _).
    destruct (loop_outcome today h (values st) [])
      as [(res & -> & F)|(e' & r & -> & Hr & Er)]; cbn [bind];
      [discriminate|].
    intros [= <-]. right.
    pose proof (entry_of_outcome today h r Vh) as O.
    destruct (birthday r) as [b|]; [|congruence].
    destruct (next_occurrence today b) as [d|e''] eqn:En;
      [destruct O; congruence|].
    assert (e'' = e') by congruence. subst e''. clear O Er.
    unfold next_occurrence, replace_year, date_new in En.
    repeat match type of En with
    | context [if ?c then _ else _] => destruct c; cbn [bind] in En
    end; try discriminate; injection En as <-;
      (eexists; split; [reflexivity|]); plain_text.
  - intros [= <-]. left. revert Eh. unfold add_days.
    destruct (_ && _); [discriminate|]. intros [= <-]. auto.
Qed.

Lemma birthdays_outcome (today : date) (args : list str) (st : State) :
  body_outcome (fst (birthdays_body today args st))
  \/ (fst (birthdays_body today args st) = Raise overflow_error
      /\ add_days today 7 = Raise overflow_error).
Proof.
  unfold birthdays_body.
  destruct (AddressBook_get_upcoming_birthdays today st) as [[|e l]|e] eqn:E;
    cbn [fst].
  - left. answer. plain_text.
  - left. answer. apply birthdays_lines_plain.
  - destruct (upcoming_raises_plain _ _ _ E) as [(-> & H)|(msg & -> & P)].
    + now right.
    + left. right; left. eauto.
Qed.


Lemma handler_answers (today : date)
    (h : list str -> State -> result str * State) (args : list str)
    (st : State) :
  In h (handlers today) ->
  (exists s st', h args st = (Ok s, st') /\ plain s)
  \/ (h args st = (Raise overflow_error, st)
      /\ add_days today 7 = Raise overflow_error).
Proof.
  unfold handlers. cbn [In].
  intros [<-|[<-|[<-|[<-|[<-|[<-|[<-|[]]]]]]]].
  - left. destruct (input_error_answers add_contact_body args st
                      (add_contact_outcome args st)) as (s & E & P).
    eauto.
  - left. destruct (input_error_answers change_contact_body args st
                      (change_contact_outcome args st)) as (s & E & P).
    eauto.
  - left. destruct (input_error_answers show_phone_body args st
                      (show_phone_outcome args st)) as (s & E & P).
    eauto.
  - left. destruct (input_error_answers show_all_body args st
                      (show_all_outcome args st)) as (s & E & P).
    eauto.
  - left. destruct (input_error_answers add_birthday_body args st
                      (add_birthday_outcome args st)) as (s & E & P).
    eauto.
  - left. destruct (input_error_answers show_birthday_body args st
                      (show_birthday_outcome args st)) as (s & E & P).
    eauto.
  - destruct (birthdays_outcome today args st) as [O|(E & H)].
    + left. destruct (input_error_answers (birthdays_body today) args st O)
        as (s & E & P). eauto.
    + right. split; trivial. unfold birthdays, input_error.
      revert E. unfold birthdays_body.
      destruct (AddressBook_get_upcoming_birthdays today st) as [[|? ?]|e];
        cbn [fst]; try discriminate.
      now intros [= ->].
Qed.

(** X17: no exception leaves a handler, with one exception. Whatever the
    arguments and the book, each of the seven decorated handlers returns
    a text, except that [birthdays] lets through the [OverflowError] of
    [today + 7 days] when that date is past the end of the calendar; the
    book is then as it was. *)
Theorem handlers_answer_or_overflow (today : date)
    (h : list str -> State -> result str * State) (args : list str)
    (st : State) :
  In h (handlers today) ->
  (exists s st', h args st = (Ok s, st'))
  \/ (h args st = (Raise overflow_error, st)
      /\ h args st = birthdays today args st
      /\ add_days today 7 = Raise overflow_error).
Proof.
  intros Hh.
  destruct (handler_answers today h args st Hh)
    as [(s & st' & E & _)|(E & H)]; [left; eauto|].
  right. repeat split; trivial.
  unfold handlers in Hh. cbn [In] in Hh.
  destruct Hh as [<-|[<-|[<-|[<-|[<-|[<-|[<-|[]]]]]]]]; trivial; exfalso.
  - destruct (input_error_answers _ args st (add_contact_outcome args st))
      as (s & E' & _). unfold add_contact in E. congruence.
  - destruct (input_error_answers _ args st (change_contact_outcome args st))
      as (s & E' & _). unfold change_contact in E. congruence.
  - destruct (input_error_answers _ args st (show_phone_outcome args st))
      as (s & E' & _). unfold show_phone in E. congruence.
  - destruct (input_error_answers _ args st (show_all_outcome args st))
      as (s & E' & _). unfold show_all in E. congruence.
  - destruct (input_error_answers _ args st (add_birthday_outcome args st))
      as (s & E' & _). unfold add_birthday in E. congruence.
  - destruct (input_error_answers _ args st (show_birthday_outcome args st))
      as (s & E' & _). unfold show_birthday in E. congruence.
Qed.

Lemma handlers_answer_or_overflow_witness :
  (exists s st',
     birthdays (mkdate 9999 12 25) [] (book_of [bob]) = (Ok s, st'))
  \/ (birthdays (mkdate 9999 12 25) [] (book_of [bob])
      = (Raise overflow_error, book_of [bob])
      /\ birthdays (mkdate 9999 12 25) [] (book_of [bob])
         = birthdays (mkdate 9999 12 25) [] (book_of [bob])
      /\ add_days (mkdate 9999 12 25) 7 = Raise overflow_error).
Proof.
  apply (handlers_answer_or_overflow (mkdate 9999 12 25)
           (birthdays (mkdate 9999 12 25))).
  unfold handlers. cbn [In]. tauto.
Defined.

(** X18: the decorator has two answers that no handler ever gives. A
    short list of arguments makes the unpacking raise [ValueError], not
    [IndexError], so ["Enter user name."] is never answered; and every
    [ValueError] that reaches the decorator has a text, so
    ["Give me name and phone please."] is never answered either. *)
Theorem fallback_answers_never_given (today : date)
    (h : list str -> State -> result str * State) (args : list str)
    (st : State) :
  In h (handlers today) ->
  fst (h args st) <> Ok (py "Enter user name.")
  /\ fst (h args st) <> Ok (py "Give me name and phone please.").
Proof.
  intros Hh.
  destruct (handler_answers today h args st Hh)
    as [(s & st' & -> & P)|(-> & _)]; cbn [fst].
  - destruct (plain_not_fallback s P) as (H1 & H2).
    split; intros [= E]; auto.
  - split; discriminate.
Qed.

Lemma fallback_answers_never_given_witness :
  fst (show_phone [] (book_of [bob])) <> Ok (py "Enter user name.")
  /\ fst (show_phone [] (book_of [bob]))
     <> Ok (py "Give me name and phone please.").
Proof.
  apply (fallback_answers_never_given june_10_2024 show_phone).
  unfold handlers. cbn [In]. tauto.
Defined.

(** X19: with too few arguments a handler answers with the text of the
    unpacking error, which tells how many values were expected and how
    many were given, and the book is not touched: two are expected by
    [add_contact] and [add_birthday], three by [change_contact], one by
    [show_phone] and [show_birthday]. *)
Theorem short_arguments_are_reported (args : list str) (st : State) :
  ((List.length args < 2)%nat ->
   add_contact args st = (Ok (unpack_text 2 args), st)
   /\ add_birthday args st = (Ok (unpack_text 2 args), st))
  /\ ((List.length args < 3)%nat ->
      change_contact args st = (Ok (unpack_text 3 args), st))
  /\ (args = [] ->
      show_phone args st = (Ok (unpack_text 1 args), st)
      /\ show_birthday args st = (Ok (unpack_text 1 args), st)).
Proof.
  split; [|split].
  - intros H. destruct args as [|a [|b args]]; cbn in H; try lia;
      split; reflexivity.
  - intros H. destruct args as [|a [|b [|c args]]]; cbn in H; try lia;
      reflexivity.
  - intros ->. split; reflexivity.
Qed.

End Answers.

(** ** [change_contact] and [birthdays] *)

Section ChangeAndBirthdays.

Lemma edit_phone_absent (r : Record_) (old_phone new_phone : str) :
  (forall q, In q (phones r) -> value q <> old_phone) ->
  Record_edit_phone r old_phone new_phone = Ok r.
Proof.
  intros N. unfold Record_edit_phone.
  rewrite edit_phone_loop_absent by trivial. cbn. now destruct r.
Qed.

Lemma edit_phone_present (r : Record_) (l1 l2 : list Phone)
    (old_phone new_phone : str) :
  phones r = l1 ++ mkField old_phone :: l2 ->
  (forall q, In q l1 -> value q <> old_phone) ->
  Record_edit_phone r old_phone new_phone
  = (q <- Phone_init new_phone ;;
     Ok (mkRecord (name r) (l1 ++ q :: l2) (birthday r))).
Proof.
  intros E N. unfold Record_edit_phone.
  rewrite E, edit_phone_loop_first by trivial. unfold bind.
  now destruct (Phone_init new_phone).
Qed.

(** X20: [change_contact] for a contact of the book. When the contact has
    no phone of the old number the answer is still ["Contact updated."]
    and the book is as it was. When it has one and the new text has ten
    digit characters, the answer is ["Contact updated."] and the first
    phone of the old number is replaced. When it has one and the new text
    is no phone number, the answer is the validation message and the book
    is as it was. *)
Theorem change_contact_cases (st : State) (n old_phone new_phone : str)
    (more : list str) (a : addr) :
  AddressBook_find n st = Some a ->
  ((forall q, In q (phones (deref st a)) -> value q <> old_phone) ->
   change_contact (n :: old_phone :: new_phone :: more) st
   = (Ok (py "Contact updated."), st))
  /\ (forall l1 l2,
        phones (deref st a) = l1 ++ mkField old_phone :: l2 ->
        (forall q, In q l1 -> value q <> old_phone) ->
        (phone_ok (mkField new_phone) ->
         change_contact (n :: old_phone :: new_phone :: more) st
         = (Ok (py "Contact updated."),
            mkState (set_nth (objects st) a
                       (mkRecord (name (deref st a))
                                 (l1 ++ mkField new_phone :: l2)
                                 (birthday (deref st a))))
                    (data st)))
        /\ (~ phone_ok (mkField new_phone) ->
            change_contact (n :: old_phone :: new_phone :: more) st
            = (Ok (py "Phone number must contain exactly 10 digits."),
               st))).
Proof.
  intros Ha. unfold change_contact, input_error, change_contact_body.
  rewrite Ha. split.
  - intros N.
    erewrite mutate_Ok by (cbv beta; now apply edit_phone_absent).
    rewrite (set_nth_same _ _ _ (Record_init [])) by reflexivity.
    now destruct st.
  - intros l1 l2 E N.
    pose proof (edit_phone_present (deref st a) l1 l2 old_phone new_phone
                  E N) as H.
    destruct (Phone_init_cases new_phone) as [(Hp & Hi)|(Hp & Hi)];
      rewrite Hi in H; cbn [bind] in H;
      (split; intros Hp'; [|try contradiction]); try contradiction.
    + erewrite mutate_Ok by (cbv beta; exact H). reflexivity.
    + erewrite mutate_Raise by (cbv beta; exact H). reflexivity.
Qed.

Lemma change_contact_cases_witness :
  let st := book_of [mkRecord (mkField (py "Alice"))
                              [mkField (py "0123456789")] None] in
  ((forall q, In q (phones (deref st 0%nat)) -> value q <> py "5550000000") ->
   change_contact [py "Alice"; py "5550000000"; py "x"] st
   = (Ok (py "Contact updated."), st))
  /\ (forall l1 l2,
        phones (deref st 0%nat) = l1 ++ mkField (py "5550000000") :: l2 ->
        (forall q, In q l1 -> value q <> py "5550000000") ->
        (phone_ok (mkField (py "x")) ->
         change_contact [py "Alice"; py "5550000000"; py "x"] st
         = (Ok (py "Contact updated."),
            mkState (set_nth (objects st) 0%nat
                       (mkRecord (name (deref st 0%nat))
                                 (l1 ++ mkField (py "x") :: l2)
                                 (birthday (deref st 0%nat))))
                    (data st)))
        /\ (~ phone_ok (mkField (py "x")) ->
            change_contact [py "Alice"; py "5550000000"; py "x"] st
            = (Ok (py "Phone number must contain exactly 10 digits."),
               st))).
Proof.
  intros st.
  apply (change_contact_cases st (py "Alice") (py "5550000000") (py "x") []
           0%nat).
  reflexivity.
Defined.

(** X21: [birthdays] answers with the text of the library's own error
    when a birthday of the book has no next occurrence: on a day whose
    week ahead is within the calendar, in a book whose birthdays are
    dates of the calendar, the answer is then
    ["day is out of range for month"] or ["year 10000 is out of range"],
    and the book is as it was. *)
Theorem birthdays_answers_with_date_errors (today : date) (args : list str)
    (st : State) (r : Record_) (b : Birthday) :
  valid_date today = true -> birthdays_valid st ->
  toordinal today + 7 <= MAXORDINAL ->
  In r (values st) -> birthday r = Some b ->
  occurrence_exists today b = false ->
  birthdays today args st = (Ok (py "day is out of range for month"), st)
  \/ birthdays today args st = (Ok (py "year 10000 is out of range"), st).
Proof.
  intros Vt Vb L Hr Eb Ho.
  destruct (AddressBook_get_upcoming_birthdays today st) as [res|e] eqn:E.
  - exfalso.
    assert (H : exists res, AddressBook_get_upcoming_birthdays today st
                            = Ok res) by eauto.
    revert H E. unfold AddressBook_get_upcoming_birthdays.
    destruct (add_days_7 today Vt) as [(_ & h & -> & Vh & Oh)|(L' & _)];
      [|lia].
    cbn [bind].
    destruct (loop_outcome today h (values st) [])
      as [(l & -> & F)|(e & r' & -> & _)]; cbn [bind];
      [|intros (? & ?); discriminate].
    intros _ _. rewrite Forall_forall in F. destruct (F r Hr) as (o & Eo).
    pose proof (entry_of_outcome today h r Vh) as O. rewrite Eb in O.
    destruct (next_occurrence_exists today b Vt (Vb r b Hr Eb))
      as [(H & _)|(_ & [(En & _)|(En & _)])];
      [congruence| |]; rewrite En in O; congruence.
  - unfold birthdays, input_error, birthdays_body. rewrite E.
    assert (C : e = day_error \/ e = year_error).
    { revert E. unfold AddressBook_get_upcoming_birthdays.
      destruct (add_days_7 today Vt) as [(_ & h & -> & Vh & Oh)|(L' & _)];
        [|lia].
      cbn [bind].
      destruct (loop_outcome today h (values st) [])
        as [(l & -> & F)|(e' & r' & -> & Hr' & Er')]; cbn [bind];
        [discriminate|].
      intros [= <-].
      pose proof (entry_of_outcome today h r' Vh) as O.
      destruct (birthday r') as [b'|] eqn:Eb'; [|congruence].
      destruct (next_occurrence_exists today b' Vt (Vb r' b' Hr' Eb'))
        as [(_ & d & En)|(_ & [(En & _)|(En & _)])];
        rewrite En in O; [destruct O; congruence| |]; [left|right];
        congruence. }
    destruct C as [->| ->]; [left|right]; reflexivity.
Qed.

Lemma birthdays_answers_with_date_errors_witness :
  birthdays march_1_2023 [] (book_of [bob; dan])
  = (Ok (py "day is out of range for month"), book_of [bob; dan])
  \/ birthdays march_1_2023 [] (book_of [bob; dan])
     = (Ok (py "year 10000 is out of range"), book_of [bob; dan]).
Proof.
  apply (birthdays_answers_with_date_errors march_1_2023 []
           (book_of [bob; dan]) dan (mkField (mkdate 2000 2 29))).
  - reflexivity.
  - intros r b [<-|[<-|[]]] [= <-]; reflexivity.
  - vm_compute. discriminate.
  - right. left. reflexivity.
  - reflexivity.
  - reflexivity.
Defined.

End ChangeAndBirthdays.

(** ** Splitting a line into words *)

Section Words.

Lemma split_from_word (w : str) :
  forall cur s,
    forallb nonspace w = true ->
    split_from cur (w ++ s) = split_from (cur ++ w) s.
Proof.
  induction w as [|c w IH]; intros cur s H; cbn [app].
  - now rewrite app_nil_r.
  - cbn [forallb] in H. apply andb_true_iff in H. destruct H as (Hc & Hw).
    cbn [split_from]. unfold nonspace in Hc. apply negb_true_iff in Hc.
    rewrite Hc, IH by trivial. now rewrite <- app_assoc.
Qed.

Lemma split_from_spaces (ws : str) :
  forall cur,
    forallb isspace_char ws = true ->
    split_from cur ws = split_from cur [].
Proof.
  induction ws as [|c ws IH]; intros cur H; trivial.
  cbn [forallb] in H. apply andb_true_iff in H. destruct H as (Hc & Hw).
  cbn [split_from]. rewrite Hc, (IH [] Hw). now destruct cur.
Qed.

Lemma split_from_trailing (s ws : str) :
  forall cur,
    forallb isspace_char ws = true ->
    split_from cur (s ++ ws) = split_from cur s.
Proof.
  induction s as [|c s IH]; intros cur H; cbn [app].
  - now apply split_from_spaces.
  - cbn [split_from]. rewrite !IH by trivial. reflexivity.
Qed.

Lemma str_lstrip_spec (s : str) :
  exists ws, s = ws ++ str_lstrip s /\ forallb isspace_char ws = true.
Proof.
  induction s as [|c s (ws & E & H)]; [now exists []|].
  cbn [str_lstrip]. destruct (isspace_char c) eqn:Hc.
  - exists (c :: ws). cbn [app forallb]. rewrite Hc, H. now rewrite <- E.
  - now exists [].
Qed.

Lemma split_lstrip (s : str) : str_split (str_lstrip s) = str_split s.
Proof.
  unfold str_split. induction s as [|c s IH]; trivial.
  cbn [str_lstrip split_from]. destruct (isspace_char c) eqn:Hc; trivial.
  cbn [split_from]. now rewrite Hc.
Qed.

(** [strip] before [split] changes nothing. *)
Lemma split_strip (s : str) : str_split (str_strip s) = str_split s.
Proof.
  unfold str_strip.
  destruct (str_lstrip_spec (rev (str_lstrip s))) as (ws & E & H).
  rewrite <- (split_lstrip s).
  rewrite <- (rev_involutive (str_lstrip s)) at 2.
  rewrite E at 2. rewrite rev_app_distr. unfold str_split.
  rewrite split_from_trailing; trivial.
  rewrite forallb_forall in *. intros c Hc. apply H. now apply in_rev.
Qed.

Lemma split_from_words (s : str) :
  forall cur,
    forallb nonspace cur = true -> Forall word (split_from cur s).
Proof.
  induction s as [|c s IH]; intros cur H; cbn [split_from].
  - destruct cur; constructor; [|constructor]. split; [discriminate|trivial].
  - destruct (isspace_char c) eqn:Hc.
    + destruct cur as [|c' cur']; [now apply IH|].
      constructor; [split; [discriminate|trivial]|now apply IH].
    + apply IH. rewrite forallb_app, H. cbn. unfold nonspace. now rewrite Hc.
Qed.

Lemma split_from_concat (s : str) :
  forall cur, List.concat (split_from cur s) = cur ++ filter nonspace s.
Proof.
  induction s as [|c s IH]; intros cur; cbn [split_from filter].
  - destruct cur; cbn; now rewrite ?app_nil_r.
  - unfold nonspace at 1. destruct (isspace_char c) eqn:Hc; cbn [negb].
    + destruct cur as [|c' cur']; [apply IH|].
      cbn [List.concat]. now rewrite IH.
    + rewrite IH, <- app_assoc. reflexivity.
Qed.

Lemma split_join (w : str) (ws : list str) :
  Forall word (w :: ws) -> str_split (join (py " ") (w :: ws)) = w :: ws.
Proof.
  unfold str_split. revert w. induction ws as [|w' ws IH]; intros w F.
  - inversion_clear F as [|? ? (Hn & Hw) _]. cbn [join].
    rewrite <- (app_nil_r w) at 1. rewrite split_from_word by trivial.
    cbn. now destruct w.
  - inversion_clear F as [|? ? (Hn & Hw) F'].
    change (join (py " ") (w :: w' :: ws))
      with (w ++ 32 :: join (py " ") (w' :: ws)).
    rewrite split_from_word by trivial. cbn [app split_from].
    change (isspace_char 32) with true. cbv iota.
    rewrite (IH w' F'). now destruct w.
Qed.

Lemma split_nil (s : str) :
  str_split s = [] <-> forallb isspace_char s = true.
Proof.
  split.
  - intros E. pose proof (split_from_concat s []) as C.
    fold (str_split s) in C. rewrite E in C. cbn in C.
    rewrite forallb_forall. intros c Hc.
    destruct (isspace_char c) eqn:Hs; trivial. exfalso.
    assert (In c (filter nonspace s))
      by (apply filter_In; unfold nonspace; now rewrite Hs).
    rewrite <- C in H. contradiction.
  - intros H. unfold str_split. now rewrite split_from_spaces.
Qed.

Lemma lstrip_spaces (s : str) :
  forallb isspace_char s = true -> str_lstrip s = [].
Proof.
  induction s as [|c s IH]; trivial. cbn [forallb str_lstrip].
  intros H. apply andb_true_iff in H. destruct H as (-> & H). auto.
Qed.

Lemma strip_nil (s : str) : str_strip s = [] <-> str_split s = [].
Proof.
  split.
  - intros E. now rewrite <- split_strip, E.
  - intros E. apply split_nil in E. unfold str_strip.
    now rewrite (lstrip_spaces s E).
Qed.

Lemma split_from_leading (sp s : str) :
  forallb isspace_char sp = true ->
  split_from [] (sp ++ s) = split_from [] s.
Proof.
  induction sp as [|c sp IH]; trivial. cbn [forallb app split_from].
  intros H. apply andb_true_iff in H. destruct H as (-> & H). auto.
Qed.

(** The words of a line are what [split] returns. *)
Lemma words_of_split (s : str) (ws : list str) :
  words_of s ws -> str_split s = ws.
Proof.
  unfold str_split. induction 1 as [sp H|sp w rest ws H (Hn & Hw) Hr _ IH].
  - now rewrite split_from_spaces.
  - rewrite split_from_leading, split_from_word by trivial. cbn [app].
    destruct Hr as [->|(c & rest' & -> & Hc)].
    + cbn in IH. subst ws. cbn. now destruct w.
    + cbn [split_from] in *. rewrite Hc in *. rewrite IH. now destruct w.
Qed.

Lemma words_of_space (c : char) (s : str) (ws : list str) :
  isspace_char c = true -> words_of s ws -> words_of (c :: s) ws.
Proof.
  intros Hc W. destruct W as [sp H|sp w rest ws H Hw Hr W].
  - apply words_of_nil. cbn [forallb]. now rewrite Hc.
  - apply (words_of_cons (c :: sp)); trivial. cbn [forallb]. now rewrite Hc.
Qed.

Lemma split_from_words_of (s : str) :
  forall cur,
    forallb nonspace cur = true ->
    words_of (cur ++ s) (split_from cur s).
Proof.
  induction s as [|c s IH]; intros cur H; cbn [split_from].
  - destruct cur as [|c' cur']; [now apply words_of_nil|].
    apply (words_of_cons [] (c' :: cur') [] []); trivial.
    + split; [discriminate | trivial].
    + now left.
    + now apply words_of_nil.
  - destruct (isspace_char c) eqn:Hc.
    + specialize (IH [] eq_refl). cbn [app] in IH.
      destruct cur as [|c' cur'].
      * now apply words_of_space.
      * apply (words_of_cons [] (c' :: cur') (c :: s)); trivial.
        -- split; [discriminate | trivial].
        -- right. eauto.
        -- now apply words_of_space.
    + replace (cur ++ c :: s) with ((cur ++ [c]) ++ s)
        by now rewrite <- app_assoc.
      apply IH. rewrite forallb_app, H. cbn. unfold nonspace.
      now rewrite Hc.
Qed.

End Words.

(** ** [parse_input] *)

Section ParseInput.

Variable unicode_lower : str -> str.

Lemma parse_input_split (s : str) :
  parse_input unicode_lower s
  = match str_split s with
    | [] => ([], [])
    | cmd :: args => (str_lower unicode_lower cmd, args)
    end.
Proof. unfold parse_input. now rewrite split_strip. Qed.

(** X22: [parse_input] cuts a line into its words. Every line is made,
    in exactly one way, of whitespace and of words, the maximal runs of
    characters that are not whitespace. A line without a word gives the
    empty command and no argument; any other line gives its first word
    in lower case as the command and its other words, in order and
    unchanged, as the arguments. *)
Theorem parse_input_words (s : str) :
  exists ws,
    words_of s ws
    /\ (forall ws', words_of s ws' -> ws' = ws)
    /\ parse_input unicode_lower s
       = match ws with
         | [] => ([], [])
         | cmd :: args => (str_lower unicode_lower cmd, args)
         end.
Proof.
  exists (str_split s). split; [|split].
  - apply (split_from_words_of s [] eq_refl).
  - intros ws' W. symmetry. now apply words_of_split.
  - apply parse_input_split.
Qed.

(** X23: [parse_input] reads back the words of a line made of words with
    one blank between them: the command is the first word in lower case,
    the arguments are the other words. *)
Theorem parse_input_of_joined_words (cmd : str) (args : list str) :
  Forall word (cmd :: args) ->
  parse_input unicode_lower (join (py " ") (cmd :: args))
  = (str_lower unicode_lower cmd, args).
Proof.
  intros F. now rewrite parse_input_split, split_join.
Qed.

End ParseInput.

Lemma parse_input_of_joined_words_witness :
  parse_input lower_ascii_only
    (join (py " ") [py "ADD"; py "Alice"; py "0123456789"])
  = (str_lower lower_ascii_only (py "ADD"), [py "Alice"; py "0123456789"]).
Proof.
  apply (parse_input_of_joined_words lower_ascii_only (py "ADD")
           [py "Alice"; py "0123456789"]).
  repeat constructor; discriminate.
Defined.

(** ** One turn of the loop *)

Section Turn.

Variable unicode_lower : str -> str.

(** A turn looks at the words of the line only. *)
Lemma main_turn_split (today : date) (line : str) (book : State) :
  main_turn unicode_lower today line book
  = match str_split line with
    | [] => Continue [] book
    | cmd :: args =>
        dispatch today (str_lower unicode_lower cmd) args book
    end.
Proof.
  unfold main_turn. rewrite parse_input_split, split_strip.
  destruct (str_strip line) as [|c t] eqn:E.
  - apply strip_nil in E. now rewrite E.
  - destruct (str_split line) as [|cmd args] eqn:E'; trivial.
    apply strip_nil in E'. congruence.
Qed.

(** X24: a turn of the loop depends on the words of the line only: the
    whitespace before, between and after them does not matter. *)
Theorem main_turn_depends_on_words (today : date) (line line' : str)
    (book : State) :
  str_split line = str_split line' ->
  main_turn unicode_lower today line book
  = main_turn unicode_lower today line' book.
Proof. intros E. now rewrite !main_turn_split, E. Qed.

Lemma str_lower_ascii (s : str) :
  forallb is_ascii s = true ->
  str_lower unicode_lower s = map ascii_lower s.
Proof. unfold str_lower. now intros ->. Qed.

(** X25: the command word is read without regard to the case of its ASCII
    letters: two lines of words whose first words are ASCII texts that
    differ in case only, and whose other words are the same, give the
    same turn. *)
Theorem command_case_is_ignored (today : date) (cmd cmd' : str)
    (args : list str) (book : State) :
  Forall word (cmd :: args) -> Forall word (cmd' :: args) ->
  forallb is_ascii cmd = true -> forallb is_ascii cmd' = true ->
  map ascii_lower cmd = map ascii_lower cmd' ->
  main_turn unicode_lower today (join (py " ") (cmd :: args)) book
  = main_turn unicode_lower today (join (py " ") (cmd' :: args)) book.
Proof.
  intros W W' A A' E.
  rewrite !main_turn_split, !split_join by trivial.
  now rewrite !str_lower_ascii, E by trivial.
Qed.

(** X26: the only exception that leaves a turn of the loop is the
    [OverflowError] of the command [birthdays] on a day whose week ahead
    is past the end of the calendar; the book is then as it was. No line
    of input makes the loop end in another way. *)
Theorem main_turn_crashes_only_on_overflow (today : date) (line : str)
    (book : State) (e : exn) (book' : State) :
  main_turn unicode_lower today line book = Crash e book' ->
  e = overflow_error /\ book' = book
  /\ add_days today 7 = Raise overflow_error
  /\ exists args, parse_input unicode_lower line = (py "birthdays", args).
Proof.
  rewrite main_turn_split, parse_input_split.
  destruct (str_split line) as [|cmd args]; [discriminate|].
  unfold dispatch. set (command := str_lower unicode_lower cmd).
  destruct (str_eqb command (py "close") || str_eqb command (py "exit"));
    [discriminate|].
  destruct (str_eqb command (py "hello")); [discriminate|].
  destruct (str_eqb command (py "add")).
  { destruct (input_error_answers _ args book (add_contact_outcome args book))
      as (s & E & _). unfold add_contact. rewrite E. discriminate. }
  destruct (str_eqb command (py "change")).
  { destruct (input_error_answers _ args book
                (change_contact_outcome args book)) as (s & E & _).
    unfold change_contact. rewrite E. discriminate. }
  destruct (str_eqb command (py "phone")).
  { destruct (input_error_answers _ args book (show_phone_outcome args book))
      as (s & E & _). unfold show_phone. rewrite E. discriminate. }
  destruct (str_eqb command (py "all")).
  { destruct (input_error_answers _ args book (show_all_outcome args book))
      as (s & E & _). unfold show_all. rewrite E. discriminate. }
  destruct (str_eqb command (py "add-birthday")).
  { destruct (input_error_answers _ args book
                (add_birthday_outcome args book)) as (s & E & _).
    unfold add_birthday. rewrite E. discriminate. }
  destruct (str_eqb command (py "show-birthday")).
  { destruct (input_error_answers _ args book
                (show_birthday_outcome args book)) as (s & E & _).
    unfold show_birthday. rewrite E. discriminate. }
  destruct (str_eqb command (py "birthdays")) eqn:Ec; [|discriminate].
  apply str_eqb_eq in Ec.
  destruct (handler_answers today (birthdays today) args book)
    as [(s & st' & E & _)|(E & H)].
  { unfold handlers. cbn [In]. tauto. }
  - rewrite E. discriminate.
  - rewrite E. cbn [print]. intros [= <- <-]. rewrite Ec. eauto.
Qed.

End Turn.

Lemma main_turn_depends_on_words_witness :
  main_turn lower_ascii_only june_10_2024
    (32 :: 32 :: py "add" ++ 9 :: 160 :: py "Alice" ++ 32 :: 32
     :: py "0123456789" ++ [13; 10]) empty_book
  = main_turn lower_ascii_only june_10_2024 (py "add Alice 0123456789")
      empty_book.
Proof.
  apply (main_turn_depends_on_words lower_ascii_only june_10_2024).
  vm_compute. reflexivity.
Defined.

Lemma command_case_is_ignored_witness :
  main_turn lower_ascii_only june_10_2024
    (join (py " ") [py "Add-Birthday"; py "Alice"; py "15.06.1990"])
    empty_book
  = main_turn lower_ascii_only june_10_2024
      (join (py " ") [py "add-birthday"; py "Alice"; py "15.06.1990"])
      empty_book.
Proof.
  apply (command_case_is_ignored lower_ascii_only june_10_2024
           (py "Add-Birthday") (py "add-birthday")
           [py "Alice"; py "15.06.1990"]);
    try reflexivity; repeat constructor; discriminate.
Defined.

Lemma main_turn_crashes_only_on_overflow_witness :
  overflow_error = overflow_error /\ book_of [bob] = book_of [bob]
  /\ add_days (mkdate 9999 12 25) 7 = Raise overflow_error
  /\ exists args,
       parse_input lower_ascii_only (py "birthdays")
       = (py "birthdays", args).
Proof.
  apply (main_turn_crashes_only_on_overflow lower_ascii_only
           (mkdate 9999 12 25) (py "birthdays") (book_of [bob])).
  vm_compute. reflexivity.
Defined.

(** ** What a session keeps true of the book *)

Section Invariants.

Lemma record_ok_init (n : str) : record_ok (Record_init n).
Proof. split; [constructor | discriminate]. Qed.

Lemma record_ok_deref (st : State) (a : addr) :
  validated st -> record_ok (deref st a).
Proof.
  intros V. unfold deref.
  destruct (Nat.lt_ge_cases a (List.length (objects st))) as [L|L].
  - unfold validated in V. rewrite Forall_forall in V. apply V.
    now apply nth_In.
  - rewrite nth_overflow by trivial. apply record_ok_init.
Qed.

Lemma keyed_distinct_names (st : State) :
  keyed_by_name st -> distinct_names st.
Proof.
  intros (Nk & _ & H). unfold distinct_names, values. rewrite map_map.
  erewrite map_ext_in; [exact Nk|].
  intros [k a] Hka. cbn [fst snd]. now apply H.
Qed.

Lemma validated_birthdays_valid (st : State) :
  validated st -> birthdays_valid st.
Proof.
  intros V r b Hr Eb. unfold values in Hr. apply in_map_iff in Hr.
  destruct Hr as ([k a] & <- & _).
  now apply (record_ok_deref st a V).
Qed.

Lemma NoDup_snoc {A} (l : list A) (x : A) :
  NoDup l -> ~ In x l -> NoDup (l ++ [x]).
Proof.
  intros N H. induction N as [|y l Hy N IH]; cbn.
  - constructor; [intros []|constructor].
  - constructor.
    + rewrite in_app_iff. cbn. intros [F|[F|[]]]; [auto|].
      subst. apply H. now left.
    + apply IH. intros F. apply H. now right.
Qed.

(** [Record(name)] and [add_record] for a new name. *)
Lemma keyed_new (st : State) (n : str) :
  keyed_by_name st -> AddressBook_find n st = None ->
  keyed_by_name (mkState (objects st ++ [Record_init n])
                         (data st ++ [(n, List.length (objects st))])).
Proof.
  intros (Nk & Na & H) Hn. unfold keyed_by_name. cbn [data objects].
  rewrite !map_app. cbn [map fst snd]. split; [|split].
  - apply NoDup_snoc; trivial. now apply dict_get_None.
  - apply NoDup_snoc; trivial. intros F. apply in_map_iff in F.
    destruct F as ([k a] & E & Hka). cbn in E. subst a.
    destruct (H k _ Hka). lia.
  - intros k a Hka. unfold deref. cbn [objects]. rewrite length_app.
    cbn [List.length]. apply in_app_or in Hka.
    destruct Hka as [Hka|[[= <- <-]|[]]].
    + destruct (H k a Hka) as (L & E). split; [lia|].
      rewrite nth_app_below by trivial. exact E.
    + split; [lia|]. now rewrite nth_app_length.
Qed.

Lemma validated_new (st : State) (n : str) (d : list (str * addr)) :
  validated st -> validated (mkState (objects st ++ [Record_init n]) d).
Proof.
  unfold validated. cbn [objects]. intros V. apply Forall_app. split; trivial.
  constructor; [apply record_ok_init | constructor].
Qed.

(** A method call that keeps the name of the record. *)
Lemma keyed_set_nth (st : State) (a : addr) (r' : Record_) :
  keyed_by_name st -> name r' = name (deref st a) ->
  keyed_by_name (mkState (set_nth (objects st) a r') (data st)).
Proof.
  intros (Nk & Na & H) E. unfold keyed_by_name. cbn [data objects].
  split; [|split]; trivial.
  intros k a' Hka. destruct (H k a' Hka) as (L & En).
  rewrite length_set_nth. split; trivial. unfold deref in *. cbn [objects].
  destruct (Nat.eq_dec a a') as [<-|Ne].
  - rewrite nth_set_nth_same by trivial. now rewrite E.
  - now rewrite nth_set_nth_other.
Qed.

Lemma validated_set_nth (st : State) (a : addr) (r' : Record_) :
  validated st -> record_ok r' ->
  validated (mkState (set_nth (objects st) a r') (data st)).
Proof.
  unfold validated. cbn [objects]. rewrite !Forall_forall.
  intros V Hr x Hx. apply In_set_nth in Hx. destruct Hx as [->|Hx]; auto.
Qed.

Lemma mutate_keeps (a : addr) (f : Record_ -> result Record_) (st : State) :
  (forall r', f (deref st a) = Ok r' ->
     name r' = name (deref st a)
     /\ (record_ok (deref st a) -> record_ok r')) ->
  keyed_by_name st /\ validated st ->
  keyed_by_name (snd (mutate a f st)) /\ validated (snd (mutate a f st)).
Proof.
  intros Hf (K & V). unfold mutate.
  destruct (f (deref st a)) as [r'|e]; cbn [snd]; [|auto].
  destruct (Hf r' eq_refl) as (En & Ho). split.
  - now apply keyed_set_nth.
  - apply validated_set_nth; trivial. apply Ho. now apply record_ok_deref.
Qed.

Lemma add_phone_keeps (r r' : Record_) (phone : str) :
  Record_add_phone r phone = Ok r' ->
  name r' = name r /\ (record_ok r -> record_ok r').
Proof.
  unfold Record_add_phone, bind.
  destruct (Phone_init phone) as [p|] eqn:E; [|discriminate].
  apply Phone_init_Ok in E. destruct E as (Hp & ->).
  intros [= <-]. cbn [name]. split; trivial.
  intros (Fp & Fb). split; cbn [phones birthday]; trivial.
  apply Forall_app. split; trivial. constructor; [exact Hp | constructor].
Qed.

Lemma edit_phone_keeps (r r' : Record_) (old_phone new_phone : str) :
  Record_edit_phone r old_phone new_phone = Ok r' ->
  name r' = name r /\ (record_ok r -> record_ok r').
Proof.
  destruct (phones_split (phones r) old_phone) as [N|(l1 & l2 & E & N)].
  - rewrite edit_phone_absent by trivial. intros [= <-]. auto.
  - rewrite (edit_phone_present r l1 l2) by trivial. unfold bind.
    destruct (Phone_init new_phone) as [p|] eqn:Ep; [|discriminate].
    apply Phone_init_Ok in Ep. destruct Ep as (Hp & ->).
    intros [= <-]. cbn [name]. split; trivial.
    intros (Fp & Fb). split; cbn [phones birthday]; trivial.
    rewrite E in Fp. apply Forall_app in Fp. destruct Fp as (F1 & F2).
    apply Forall_app. split; trivial.
    inversion_clear F2. now constructor.
Qed.

Lemma add_birthday_keeps (r r' : Record_) (s : str) :
  Record_add_birthday r s = Ok r' ->
  name r' = name r /\ (record_ok r -> record_ok r').
Proof.
  unfold Record_add_birthday, bind.
  destruct (Birthday_init s) as [b|] eqn:E; [|discriminate].
  apply Birthday_init_Ok, strptime_dmY_Ok in E. destruct E as (_ & Vb).
  intros [= <-]. cbn [name]. split; trivial.
  intros (Fp & Fb). split; cbn [phones birthday]; trivial.
  now intros b' [= <-].
Qed.

Lemma input_error_snd (func : list str -> State -> result str * State)
    (args : list str) (st : State) :
  snd (input_error func args st) = snd (func args st).
Proof.
  unfold input_error. destruct (func args st) as [[s|[m| | |m]] st']; trivial.
Qed.

(** Every handler keeps the book well formed. *)
Lemma handlers_keep (today : date)
    (h : list str -> State -> result str * State) (args : list str)
    (st : State) :
  In h (handlers today) ->
  keyed_by_name st /\ validated st ->
  keyed_by_name (snd (h args st)) /\ validated (snd (h args st)).
Proof.
  unfold handlers. cbn [In].
  intros [<-|[<-|[<-|[<-|[<-|[<-|[<-|[]]]]]]]] I;
    [unfold add_contact|unfold change_contact|unfold show_phone
    |unfold show_all|unfold add_birthday|unfold show_birthday
    |unfold birthdays]; rewrite input_error_snd.
  - unfold add_contact_body. destruct args as [|n [|p more]]; trivial.
    destruct (AddressBook_find n st) as [a|] eqn:Ef.
    + destruct p as [|c p]; trivial.
      pose proof (mutate_keeps a (fun r => Record_add_phone r (c :: p)) st
                    (fun r' => add_phone_keeps _ r' _) I) as M.
      destruct (mutate a _ st) as [[?|?] ?]; exact M.
    + destruct (new_record_added st n Ef) as (Ea & Est & _).
      destruct (Record_new n st) as [a0 st0]. cbn [fst snd] in Ea, Est.
      subst a0. rewrite Est.
      assert (I1 : keyed_by_name
                     (mkState (objects st ++ [Record_init n])
                        (data st ++ [(n, List.length (objects st))]))
                   /\ validated
                        (mkState (objects st ++ [Record_init n])
                           (data st ++ [(n, List.length (objects st))])))
        by (destruct I; split; [now apply keyed_new | now apply validated_new]).
      destruct p as [|c p]; trivial.
      pose proof (mutate_keeps (List.length (objects st))
                    (fun r => Record_add_phone r (c :: p)) _
                    (fun r' => add_phone_keeps _ r' _) I1) as M.
      destruct (mutate _ _ _) as [[?|?] ?]; exact M.
  - unfold change_contact_body. destruct args as [|n [|o [|p more]]]; trivial.
    destruct (AddressBook_find n st) as [a|]; trivial.
    pose proof (mutate_keeps a (fun r => Record_edit_phone r o p) st
                  (fun r' => edit_phone_keeps _ r' _ _) I) as M.
    destruct (mutate a _ st) as [[?|?] ?]; exact M.
  - unfold show_phone_body. destruct args as [|n more]; trivial.
    destruct (AddressBook_find n st); trivial.
    destruct (phones _); trivial.
  - unfold show_all_body. destruct (data st); trivial.
  - unfold add_birthday_body. destruct args as [|n [|s more]]; trivial.
    destruct (AddressBook_find n st) as [a|] eqn:Ef.
    + pose proof (mutate_keeps a (fun r => Record_add_birthday r s) st
                    (fun r' => add_birthday_keeps _ r' _) I) as M.
      destruct (mutate a _ st) as [[?|?] ?]; exact M.
    + destruct (new_record_added st n Ef) as (Ea & Est & _).
      destruct (Record_new n st) as [a0 st0]. cbn [fst snd] in Ea, Est.
      subst a0. rewrite Est.
      assert (I1 : keyed_by_name
                     (mkState (objects st ++ [Record_init n])
                        (data st ++ [(n, List.length (objects st))]))
                   /\ validated
                        (mkState (objects st ++ [Record_init n])
                           (data st ++ [(n, List.length (objects st))])))
        by (destruct I; split; [now apply keyed_new | now apply validated_new]).
      pose proof (mutate_keeps (List.length (objects st))
                    (fun r => Record_add_birthday r s) _
                    (fun r' => add_birthday_keeps _ r' _) I1) as M.
      destruct (mutate _ _ _) as [[?|?] ?]; exact M.
  - unfold show_birthday_body. destruct args as [|n more]; trivial.
    destruct (AddressBook_find n st); trivial.
    destruct (birthday _); trivial.
  - unfold birthdays_body.
    destruct (AddressBook_get_upcoming_birthdays today st) as [[|? ?]|?];
      trivial.
Qed.


Lemma turn_book_print (r : result str * State) : turn_book (print r) = snd r.
Proof. now destruct r as [[s|e] st]. Qed.

Lemma main_turn_keeps (unicode_lower : str -> str) (today : date)
    (line : str) (book : State) :
  keyed_by_name book /\ validated book ->
  keyed_by_name (turn_book (main_turn unicode_lower today line book))
  /\ validated (turn_book (main_turn unicode_lower today line book)).
Proof.
  intros I. rewrite main_turn_split.
  destruct (str_split line) as [|cmd args]; trivial.
  unfold dispatch.
  repeat match goal with
  | |- context [if ?c then _ else _] => destruct c
  end; trivial; rewrite turn_book_print;
    apply (handlers_keep today); trivial; unfold handlers; cbn [In]; tauto.
Qed.

(** X27: a session keeps the book well formed. Starting from a book with
    pairwise different keys, each the name of its own record, whose phones
    have ten digit characters and whose birthdays are dates of the
    calendar (the empty book is one), the book at the end of any session
    is such a book again, whatever the lines typed and the dates of the
    clock; in particular the names of its contacts are pairwise
    different. *)
Theorem session_keeps_the_book_well_formed (unicode_lower : str -> str)
    (inputs : list (date * str)) (book : State) :
  keyed_by_name book -> validated book ->
  keyed_by_name (session unicode_lower inputs book)
  /\ validated (session unicode_lower inputs book)
  /\ distinct_names (session unicode_lower inputs book)
  /\ birthdays_valid (session unicode_lower inputs book).
Proof.
  intros K V.
  assert (I : keyed_by_name (session unicode_lower inputs book)
              /\ validated (session unicode_lower inputs book)).
  { revert book K V. induction inputs as [|[today line] rest IH];
      intros book K V; cbn [session]; [auto|].
    pose proof (main_turn_keeps unicode_lower today line book (conj K V)) as M.
    destruct (main_turn unicode_lower today line book); cbn [turn_book] in M;
      destruct M; auto. }
  destruct I as (K' & V'). split; [|split; [|split]]; trivial.
  - now apply keyed_distinct_names.
  - now apply validated_birthdays_valid.
Qed.

Lemma session_keeps_the_book_well_formed_witness :
  let book :=
    session lower_ascii_only
      [(june_10_2024, py "add Alice 0123456789");
       (june_10_2024, py "add-birthday Bob 29.02.2000");
       (june_10_2024, py "add Carl 12");
       (june_10_2024, py "change Alice 0123456789 5556667778");
       (june_10_2024, py "close")] empty_book in
  keyed_by_name book /\ validated book /\ distinct_names book
  /\ birthdays_valid book.
Proof.
  intros book.
  apply (session_keeps_the_book_well_formed lower_ascii_only).
  - split; [constructor | split; [constructor | intros k a []]].
  - constructor.
Defined.

(** X28: only three commands change the book. When the book after a turn
    is not the book before it, the command of the line was [add],
    [change] or [add-birthday]. *)
Theorem only_three_commands_change_the_book (unicode_lower : str -> str)
    (today : date) (line : str) (book : State) :
  turn_book (main_turn unicode_lower today line book) <> book ->
  exists command args,
    parse_input unicode_lower line = (command, args)
    /\ In command [py "add"; py "change"; py "add-birthday"].
Proof.
  rewrite main_turn_split, parse_input_split.
  destruct (str_split line) as [|cmd args]; [cbn; congruence|].
  set (command := str_lower unicode_lower cmd). unfold dispatch.
  intros H. exists command, args. split; trivial. revert H.
  destruct (str_eqb command (py "close") || str_eqb command (py "exit"));
    [cbn; congruence|].
  destruct (str_eqb command (py "hello")); [cbn; congruence|].
  destruct (str_eqb command (py "add")) eqn:E1;
    [apply str_eqb_eq in E1; rewrite E1; cbn; auto|].
  destruct (str_eqb command (py "change")) eqn:E2;
    [apply str_eqb_eq in E2; rewrite E2; cbn; auto|].
  destruct (str_eqb command (py "phone")).
  { rewrite turn_book_print. unfold show_phone. rewrite input_error_snd.
    unfold show_phone_body. destruct args as [|n more]; [cbn; congruence|].
    destruct (AddressBook_find n book); [|cbn; congruence].
    destruct (phones _); cbn; congruence. }
  destruct (str_eqb command (py "all")).
  { rewrite turn_book_print. unfold show_all. rewrite input_error_snd.
    unfold show_all_body. destruct (data book); cbn; congruence. }
  destruct (str_eqb command (py "add-birthday")) eqn:E3;
    [apply str_eqb_eq in E3; rewrite E3; cbn; auto|].
  destruct (str_eqb command (py "show-birthday")).
  { rewrite turn_book_print. unfold show_birthday. rewrite input_error_snd.
    unfold show_birthday_body. destruct args as [|n more]; [cbn; congruence|].
    destruct (AddressBook_find n book); [|cbn; congruence].
    destruct (birthday _); cbn; congruence. }
  destruct (str_eqb command (py "birthdays")); [|cbn; congruence].
  rewrite turn_book_print. unfold birthdays. rewrite input_error_snd.
  unfold birthdays_body.
  destruct (AddressBook_get_upcoming_birthdays today book) as [[|? ?]|?];
    cbn; congruence.
Qed.

Lemma only_three_commands_change_the_book_witness :
  exists command args,
    parse_input lower_ascii_only (py "add Alice 0123456789")
    = (command, args)
    /\ In command [py "add"; py "change"; py "add-birthday"].
Proof.
  apply (only_three_commands_change_the_book lower_ascii_only june_10_2024
           (py "add Alice 0123456789") empty_book).
  discriminate.
Defined.

End Invariants.

(** ** The lines of [birthdays] *)

Section BirthdayLines.












End BirthdayLines.
